(** * MORISWITCH V2: debounce, chord arbitration, configuration store
      and serial protocol of a six-switch, four-bank MIDI foot controller.

    Shallow embedding of [MORISWITCH_V2.ino].  Global variables of the
    sketch become fields of a state record, every procedure becomes a
    function from states to states paired with what it emitted, and the
    collaborators of the sketch (LCD, MIDI out, serial out, EEPROM cells,
    input pins, the millisecond clock) are modelled by their observable
    effect only. *)

From Stdlib Require Import ZArith Ascii String Bool Lia.
From stdpp Require Import base tactics option list numbers pretty.
Local Open Scope Z_scope.

(** ** Machine integers and characters *)

(** [(uint8_t)x] and [(unsigned long)x] for an integer expression [x]. *)
Definition u8 (x : Z) : Z := x mod 256.
Definition u32 (x : Z) : Z := x mod 2 ^ 32.

(** A [char] is kept as its bit pattern; [(uint8_t)c] and [(char)b]. *)
Definition byte_of_char (c : ascii) : Z := Z.of_N (N_of_ascii c).
Definition char_of_byte (b : Z) : ascii := ascii_of_N (Z.to_N b).

Definition NUL : ascii := "000"%char.
Definition SPACE : ascii := " "%char.

#[global] Instance ascii_inhabited : Inhabited ascii := populate NUL.

(** The characters of a C string stored in a buffer: those before the
    first terminator. *)
Fixpoint cstr (buf : list ascii) : list ascii :=
  match buf with
  | [] => []
  | c :: rest => if Ascii.eqb c NUL then [] else c :: cstr rest
  end.

(** ** Constants of the sketch *)

Definition NUM_SW : nat := 6.
Definition NUM_BANKS : nat := 4.

Definition ACT_NONE : Z := 0.
Definition ACT_CC : Z := 1.
Definition ACT_PC : Z := 2.
Definition ACT_BANK_UP : Z := 3.
Definition ACT_BANK_DOWN : Z := 4.
Definition ACT_CC_TOGGLE : Z := 5.
Definition ACT_CC_ONE_SHOT : Z := 6.

Definition DEBOUNCE_MS : Z := 35.
Definition CHORD_WINDOW_MS : Z := 120.

Definition LINEBUF_SIZE : nat := 220.

Definition EEPROM_MAGIC_ADDR : Z := 0.
Definition EEPROM_DATA_ADDR : Z := 4.
Definition EEPROM_MAGIC : Z := 0x4D434646.

(** ** Slots and the configuration grid *)

Record Slot := mkSlot {
  label : list ascii;   (* char label[5] *)
  type : Z;
  ch : Z;
  num : Z;
  vPress : Z;
  vRelease : Z
}.

(** A slot of zero-initialised static storage. *)
Definition zeroSlot : Slot := mkSlot (replicate 5 NUL) 0 0 0 0 0.

#[global] Instance Slot_inhabited : Inhabited Slot := populate zeroSlot.

(** Two-dimensional arrays [a[NUM_BANKS][NUM_SW]]. *)
Definition gget {A} `{Inhabited A} (g : list (list A)) (b s : nat) : A :=
  (g !!! b) !!! s.
Definition gset {A} (g : list (list A)) (b s : nat) (v : A) : list (list A) :=
  alter (fun row => <[s := v]> row) b g.

(** [for (i = 0; i < n; i++) body(i)] over a threaded state. *)
Definition for_upto {S} (n : nat) (body : nat -> S -> S) (s : S) : S :=
  fold_left (fun acc i => body i acc) (seq 0 n) s.

(** ** EEPROM cells *)

(** The persisted byte image is the list of EEPROM cells.  [EEPROM.read]
    of a cell the image does not have yields the erased value; the sketch
    only touches cells 0..219.  [EEPROM.update] takes a [uint8_t]. *)
Definition EEPROM_read (a : Z) (e : list Z) : Z := default 255 (e !! Z.to_nat a).
Definition EEPROM_update (a : Z) (v : Z) (e : list Z) : list Z :=
  <[Z.to_nat a := u8 v]> e.

(** [EEPROM.put] / [EEPROM.get] of a [uint32_t]: four cells, least
    significant byte first. *)
Definition EEPROM_put32 (a : Z) (v : Z) (e : list Z) : list Z :=
  EEPROM_update (a + 3) (Z.land (Z.shiftr v 24) 255)
    (EEPROM_update (a + 2) (Z.land (Z.shiftr v 16) 255)
      (EEPROM_update (a + 1) (Z.land (Z.shiftr v 8) 255)
        (EEPROM_update a (Z.land v 255) e))).
Definition EEPROM_get32 (a : Z) (e : list Z) : Z :=
  Z.lor (EEPROM_read a e)
    (Z.lor (Z.shiftl (EEPROM_read (a + 1) e) 8)
      (Z.lor (Z.shiftl (EEPROM_read (a + 2) e) 16)
             (Z.shiftl (EEPROM_read (a + 3) e) 24))).

(** [uint16_t] arithmetic on the cell address. *)
Definition slotAddr (bankIdx swIdx : nat) : Z :=
  let SLOT_SIZE := 9 in
  let index := (Z.of_nat bankIdx * Z.of_nat NUM_SW + Z.of_nat swIdx) mod 65536 in
  (EEPROM_DATA_ADDR + index * SLOT_SIZE) mod 65536.

Definition eepromWriteSlot (bankIdx swIdx : nat) (s : Slot) (e : list Z) : list Z :=
  let a := slotAddr bankIdx swIdx in
  let e := EEPROM_update (a + 0) (byte_of_char (label s !!! 0%nat)) e in
  let e := EEPROM_update (a + 1) (byte_of_char (label s !!! 1%nat)) e in
  let e := EEPROM_update (a + 2) (byte_of_char (label s !!! 2%nat)) e in
  let e := EEPROM_update (a + 3) (byte_of_char (label s !!! 3%nat)) e in
  let e := EEPROM_update (a + 4) (type s) e in
  let e := EEPROM_update (a + 5) (ch s) e in
  let e := EEPROM_update (a + 6) (num s) e in
  let e := EEPROM_update (a + 7) (vPress s) e in
  EEPROM_update (a + 8) (vRelease s) e.

(** Every cell of the slot passed by reference is assigned, so the decoded
    slot does not depend on what it held before. *)
Definition eepromReadSlot (bankIdx swIdx : nat) (e : list Z) : Slot :=
  let a := slotAddr bankIdx swIdx in
  let l0 := char_of_byte (EEPROM_read (a + 0) e) in
  let l1 := char_of_byte (EEPROM_read (a + 1) e) in
  let l2 := char_of_byte (EEPROM_read (a + 2) e) in
  let l3 := char_of_byte (EEPROM_read (a + 3) e) in
  let type0 := EEPROM_read (a + 4) e in
  let ch0 := EEPROM_read (a + 5) e in
  let num0 := EEPROM_read (a + 6) e in
  let vPress0 := EEPROM_read (a + 7) e in
  let vRelease0 := EEPROM_read (a + 8) e in
  (* sanitize *)
  let ch1 := if (ch0 <? 1) || (16 <? ch0) then 1 else ch0 in
  let type1 := if ACT_CC_ONE_SHOT <? type0 then ACT_NONE else type0 in
  let fix_char (c : ascii) :=
    if Ascii.eqb c (char_of_byte 255) || Ascii.eqb c NUL then SPACE else c in
  mkSlot [fix_char l0; fix_char l1; fix_char l2; fix_char l3; NUL]
         type1 ch1 num0 vPress0 vRelease0.

(** ** Program state *)

(** Configuration side: [cfg], [togState], [currentBank]. *)
Record Config := mkConfig {
  cfg : list (list Slot);
  togState : list (list bool);
  currentBank : Z
}.

(** Switch run-time side: the debounce arrays and the chord bookkeeping. *)
Record Switches := mkSwitches {
  rawState : list bool;
  stableState : list bool;
  lastRaw : list bool;
  lastChangeMs : list Z;
  pendingPress : list bool;
  pendingAt : list Z;
  sentPress : list bool;
  chord45Latched : bool;
  chord56Latched : bool
}.

Record State := mkState {
  conf : Config;
  sw : Switches;
  lineBuf : list ascii;
  lineLen : nat;
  eeprom : list Z
}.

Definition with_cfg (g : list (list Slot)) (c : Config) : Config :=
  mkConfig g (togState c) (currentBank c).
Definition with_togState (t : list (list bool)) (c : Config) : Config :=
  mkConfig (cfg c) t (currentBank c).
Definition with_currentBank (b : Z) (c : Config) : Config :=
  mkConfig (cfg c) (togState c) b.

Definition with_conf (c : Config) (st : State) : State :=
  mkState c (sw st) (lineBuf st) (lineLen st) (eeprom st).
Definition with_sw (w : Switches) (st : State) : State :=
  mkState (conf st) w (lineBuf st) (lineLen st) (eeprom st).
Definition with_line (buf : list ascii) (len : nat) (st : State) : State :=
  mkState (conf st) (sw st) buf len (eeprom st).
Definition with_eeprom (e : list Z) (st : State) : State :=
  mkState (conf st) (sw st) (lineBuf st) (lineLen st) e.

(** ** What the sketch emits *)

(** Calls into the collaborators. *)
Inductive Effect :=
| MidiCC (channel number value : Z)      (* sendCC(ch, cc, val) *)
| MidiPC (channel number : Z)            (* sendPC(ch, pc) *)
| LcdSplash (bankNum : Z)                (* showBankSplash *)
| LcdLabels (labels : list (list ascii)) (* drawLabelsForBank: six print4 *)
| SerialLine (text : string).            (* Serial.print ... Serial.println *)

(** What one pass of [loop] does, in order: protocol work, calls of
    [handleSwitchEvent] with what each call emitted, and bank moves made
    by the chord block itself. *)
Inductive Event :=
| Out (e : Effect)
| Dispatch (swIdx : nat) (pressed : bool) (effs : list Effect)
| ChordDown (effs : list Effect)
| ChordUp (effs : list Effect).

(** ** LCD helpers *)

Definition print4 (s : list ascii) : list ascii :=
  map (fun i : nat => let c := s !!! i in if Ascii.eqb c NUL then SPACE else c)
      (seq 0 4).

Definition showBankSplash (bankNum : Z) : Effect := LcdSplash bankNum.

Definition drawLabelsForBank (bankNum : Z) (g : list (list Slot)) : Effect :=
  let b := Z.to_nat (u8 (bankNum - 1)) in
  LcdLabels (map (fun s : nat => print4 (label (gget g b s))) (seq 0 NUM_SW)).

(** ** Default configuration *)

Definition setDefaultConfig (c : Config) : Config :=
  let dash := "-"%char in
  let c :=
    for_upto NUM_BANKS (fun b =>
      for_upto NUM_SW (fun s c =>
        with_togState (gset (togState c) b s false)
          (with_cfg (gset (cfg c) b s (mkSlot [dash; dash; dash; dash; NUL] ACT_NONE 1 0 127 0)) c))) c in
  for_upto NUM_BANKS (fun b c =>
    let s4 := gget (cfg c) b 4 in
    let c := with_cfg (gset (cfg c) b 4
               (mkSlot ["D"; "W"; "N"; " "; label s4 !!! 4%nat]%char ACT_BANK_DOWN
                       (ch s4) (num s4) (vPress s4) (vRelease s4))) c in
    let s5 := gget (cfg c) b 5 in
    with_cfg (gset (cfg c) b 5
               (mkSlot ["U"; "P"; " "; " "; label s5 !!! 4%nat]%char ACT_BANK_UP
                       (ch s5) (num s5) (vPress s5) (vRelease s5))) c) c.

(** ** Executing an action *)

Definition sendCC (ch cc val : Z) : Effect := MidiCC ch cc val.
Definition sendPC (ch pc : Z) : Effect := MidiPC ch pc.

Definition doBankUp (c : Config) : Config * list Effect :=
  let cb := u8 (currentBank c + 1) in
  let cb := if Z.of_nat NUM_BANKS <? cb then 1 else cb in
  let c := with_currentBank cb c in
  (c, [showBankSplash cb; drawLabelsForBank cb (cfg c)]).

Definition doBankDown (c : Config) : Config * list Effect :=
  let cb := if currentBank c <=? 1 then Z.of_nat NUM_BANKS
            else u8 (currentBank c - 1) in
  let c := with_currentBank cb c in
  (c, [showBankSplash cb; drawLabelsForBank cb (cfg c)]).

Definition handleSwitchEvent (swIdx : nat) (pressed : bool) (c : Config)
  : Config * list Effect :=
  let b := Z.to_nat (u8 (currentBank c - 1)) in
  let s := gget (cfg c) b swIdx in
  if type s =? ACT_NONE then (c, [])
  else if type s =? ACT_BANK_UP then
    if pressed then doBankUp c else (c, [])
  else if type s =? ACT_BANK_DOWN then
    if pressed then doBankDown c else (c, [])
  else if type s =? ACT_PC then
    if pressed then (c, [sendPC (ch s) (num s)]) else (c, [])
  else if type s =? ACT_CC then
    (c, [sendCC (ch s) (num s) (if pressed then vPress s else vRelease s)])
  else if type s =? ACT_CC_TOGGLE then
    if pressed then
      let t := negb (gget (togState c) b swIdx) in
      let c := with_togState (gset (togState c) b swIdx t) c in
      let val := if gget (togState c) b swIdx then vPress s else 0 in
      (c, [sendCC (ch s) (num s) val])
    else (c, [])
  else if type s =? ACT_CC_ONE_SHOT then
    if pressed then (c, [sendCC (ch s) (num s) (vPress s)]) else (c, [])
  else (c, []).

(** ** Configuration store *)

Definition saveAllToEEPROM (st : State) : State * list Effect :=
  let e := EEPROM_put32 EEPROM_MAGIC_ADDR EEPROM_MAGIC (eeprom st) in
  let e :=
    for_upto NUM_BANKS (fun b =>
      for_upto NUM_SW (fun s e =>
        eepromWriteSlot b s (gget (cfg (conf st)) b s) e)) e in
  (with_eeprom e st, [SerialLine "OK,SAVED"]).

Definition loadAllFromEEPROM (st : State) : State * bool * list Effect :=
  let m := EEPROM_get32 EEPROM_MAGIC_ADDR (eeprom st) in
  if negb (m =? EEPROM_MAGIC) then (st, false, [])
  else
    let g :=
      for_upto NUM_BANKS (fun b =>
        for_upto NUM_SW (fun s g =>
          gset g b s (eepromReadSlot b s (eeprom st)))) (cfg (conf st)) in
    (with_conf (with_cfg g (conf st)) st, true, [SerialLine "OK,LOADED"]).

(** ** Serial protocol *)

(** [strchr(p, ',')]: the field before the first comma and, when there is
    a comma, what follows it. *)
Fixpoint split_comma (s : list ascii) : list ascii * option (list ascii) :=
  match s with
  | [] => ([], None)
  | c :: rest =>
      if Ascii.eqb c ","%char then ([], Some rest)
      else let '(f, p) := split_comma rest in (c :: f, p)
  end.

Fixpoint skip_spaces (s : list ascii) : list ascii :=
  match s with
  | [] => []
  | c :: rest => if Ascii.eqb c SPACE then skip_spaces rest else s
  end.

Definition trim_trailing (s : list ascii) : list ascii :=
  rev (skip_spaces (rev s)).

(** [nextTok(p)]: the cursor [p] is [None] for [nullptr]; the result is
    the token (or [None] for [nullptr]) and the advanced cursor.  The
    sketch cuts the token out in place, storing a NUL over the comma and
    over the last trailing space; here the line is a value and the token
    is returned, so these stores are not kept.  Statements about a SET
    line are therefore on the configuration, the switch state, the EEPROM
    and [lineLen], never on the bytes of [lineBuf]. *)
Definition nextTok (p : option (list ascii))
  : option (list ascii) * option (list ascii) :=
  match p with
  | None => (None, None)
  | Some s =>
      let '(field, p') := split_comma s in
      (Some (trim_trailing (skip_spaces field)), p')
  end.

Definition dec (n : Z) : string := pretty n.

Definition dumpLine (b sw : nat) (s : Slot) : string :=
  "SET," +:+ dec (Z.of_nat b + 1) +:+ "," +:+ dec (Z.of_nat sw + 1) +:+ ","
    +:+ string_of_list_ascii (cstr (label s)) +:+ ","
    +:+ dec (type s) +:+ "," +:+ dec (ch s) +:+ "," +:+ dec (num s) +:+ ","
    +:+ dec (vPress s) +:+ "," +:+ dec (vRelease s).

Definition dumpConfig (c : Config) : list Effect :=
  flat_map (fun b : nat =>
    map (fun sw : nat => SerialLine (dumpLine b sw (gget (cfg c) b sw)))
        (seq 0 NUM_SW)) (seq 0 NUM_BANKS)
  ++ [SerialLine "OK,DUMP_DONE"].

Definition streq (a : list ascii) (b : string) : bool :=
  String.eqb (string_of_list_ascii a) b.

(** A reference C [atoi] on values that fit an [int]: optional white space,
    optional sign, then decimal digits.  The protocol code below is
    parametric in [atoi]; this instance is used to run it. *)
Definition is_space (c : ascii) : bool :=
  let n := N_of_ascii c in (n =? 32)%N || ((9 <=? n)%N && (n <=? 13)%N).

Fixpoint skip_white (s : list ascii) : list ascii :=
  match s with
  | [] => []
  | c :: rest => if is_space c then skip_white rest else s
  end.

Fixpoint digits_value (acc : Z) (s : list ascii) : Z :=
  match s with
  | [] => acc
  | c :: rest =>
      let n := Z.of_N (N_of_ascii c) in
      if (48 <=? n) && (n <=? 57) then digits_value (10 * acc + (n - 48)) rest
      else acc
  end.

Definition atoi_c (s : list ascii) : Z :=
  match skip_white s with
  | c :: rest =>
      if Ascii.eqb c "-"%char then - digits_value 0 rest
      else if Ascii.eqb c "+"%char then digits_value 0 rest
      else digits_value 0 (c :: rest)
  | [] => 0
  end.

(** [for] loops whose body also emits. *)
Fixpoint emit_fold {A S E} (body : A -> S -> S * list E) (xs : list A) (s : S)
  : S * list E :=
  match xs with
  | [] => (s, [])
  | x :: rest =>
      let '(s1, e1) := body x s in
      let '(s2, e2) := emit_fold body rest s1 in
      (s2, e1 ++ e2)
  end.

(** One pass of [loop]: the characters waiting on the serial port, the
    level of the six contacts (closed = [true]) and [millis()]. *)
Record Poll := mkPoll {
  rx : list ascii;
  pins : list bool;
  now : Z
}.

Definition with_rawState v w := mkSwitches v (stableState w) (lastRaw w)
  (lastChangeMs w) (pendingPress w) (pendingAt w) (sentPress w)
  (chord45Latched w) (chord56Latched w).
Definition with_stableState v w := mkSwitches (rawState w) v (lastRaw w)
  (lastChangeMs w) (pendingPress w) (pendingAt w) (sentPress w)
  (chord45Latched w) (chord56Latched w).
Definition with_lastRaw v w := mkSwitches (rawState w) (stableState w) v
  (lastChangeMs w) (pendingPress w) (pendingAt w) (sentPress w)
  (chord45Latched w) (chord56Latched w).
Definition with_lastChangeMs v w := mkSwitches (rawState w) (stableState w)
  (lastRaw w) v (pendingPress w) (pendingAt w) (sentPress w)
  (chord45Latched w) (chord56Latched w).
Definition with_pendingPress v w := mkSwitches (rawState w) (stableState w)
  (lastRaw w) (lastChangeMs w) v (pendingAt w) (sentPress w)
  (chord45Latched w) (chord56Latched w).
Definition with_pendingAt v w := mkSwitches (rawState w) (stableState w)
  (lastRaw w) (lastChangeMs w) (pendingPress w) v (sentPress w)
  (chord45Latched w) (chord56Latched w).
Definition with_sentPress v w := mkSwitches (rawState w) (stableState w)
  (lastRaw w) (lastChangeMs w) (pendingPress w) (pendingAt w) v
  (chord45Latched w) (chord56Latched w).
Definition with_chord45Latched v w := mkSwitches (rawState w) (stableState w)
  (lastRaw w) (lastChangeMs w) (pendingPress w) (pendingAt w) (sentPress w)
  v (chord56Latched w).
Definition with_chord56Latched v w := mkSwitches (rawState w) (stableState w)
  (lastRaw w) (lastChangeMs w) (pendingPress w) (pendingAt w) (sentPress w)
  (chord45Latched w) v.

Section Sketch.

(** The C library's [atoi]. *)
Variable atoi : list ascii -> Z.

Definition applySetLine (line : list ascii) (c : Config) : Config * list Effect :=
  let p := Some (drop 4 line) in
  let '(tBank, p) := nextTok p in
  let '(tSw, p) := nextTok p in
  let '(tLab, p) := nextTok p in
  let '(tType, p) := nextTok p in
  let '(tCh, p) := nextTok p in
  let '(tNum, p) := nextTok p in
  let '(tVP, p) := nextTok p in
  let '(tVR, p) := nextTok p in
  match tBank, tSw, tLab, tType, tCh, tNum, tVP, tVR with
  | Some tBank, Some tSw, Some tLab, Some tType, Some tCh, Some tNum,
    Some tVP, Some tVR =>
      let bank := atoi tBank in
      let sw := atoi tSw in
      let type := atoi tType in
      let ch := atoi tCh in
      let num := atoi tNum in
      let vp := atoi tVP in
      let vr := atoi tVR in
      if (bank <? 1) || (Z.of_nat NUM_BANKS <? bank)
         || (sw <? 1) || (Z.of_nat NUM_SW <? sw)
      then (c, [SerialLine "ERR,BAD_INDEX"])
      else
        let b := Z.to_nat (u8 (bank - 1)) in
        let s := Z.to_nat (u8 (sw - 1)) in
        (* label: '_' -> space, take first 4 chars, pad with space *)
        let labLen := length tLab in
        let lab :=
          map (fun i : nat =>
                 let ch := if (i <? labLen)%nat then tLab !!! i else SPACE in
                 if Ascii.eqb ch "_"%char then SPACE else ch) (seq 0 4)
          ++ [NUL] in
        let type := if (type <? 0) || (ACT_CC_ONE_SHOT <? type) then ACT_NONE else type in
        let ch := if ch <? 1 then 1 else ch in
        let ch := if 16 <? ch then 16 else ch in
        let num := if num <? 0 then 0 else num in
        let num := if 127 <? num then 127 else num in
        let vp := if vp <? 0 then 0 else vp in
        let vp := if 127 <? vp then 127 else vp in
        let vr := if vr <? 0 then 0 else vr in
        let vr := if 127 <? vr then 127 else vr in
        let c := with_cfg (gset (cfg c) b s
                   (mkSlot lab (u8 type) (u8 ch) (u8 num) (u8 vp) (u8 vr))) c in
        (* reset toggle state whenever config changes *)
        let c := with_togState (gset (togState c) b s false) c in
        let redraw := if bank =? currentBank c
                      then [drawLabelsForBank (currentBank c) (cfg c)] else [] in
        (c, redraw ++ [SerialLine "OK,SET"])
  | _, _, _, _, _, _, _, _ => (c, [SerialLine "ERR,BAD_SET_FORMAT"])
  end.

Definition processSerialLine (line : list ascii) (st : State) : State * list Effect :=
  match line with
  | [] => (st, [])
  | _ =>
    if streq (take 4 line) "SET," then
      let '(c, out) := applySetLine line (conf st) in (with_conf c st, out)
    else if streq line "SAVE" then saveAllToEEPROM st
    else if streq line "LOAD" then
      let '(st', ok, out) := loadAllFromEEPROM st in
      if negb ok then (st', out ++ [SerialLine "ERR,NO_EEPROM_CONFIG"])
      else (st', out ++ [drawLabelsForBank (currentBank (conf st')) (cfg (conf st'))])
    else if streq line "DUMP" then (st, dumpConfig (conf st))
    else (st, [SerialLine "ERR,UNKNOWN_CMD"])
  end.

(** The body of [while (Serial.available())] for one received character.
    [processSerialLine] gets the C string held in [lineBuf].  The NULs
    that [nextTok] stores into the buffer during a SET line lie below the
    old terminator and are overwritten before they are read again; they
    are not written back, so after a SET line [lineBuf] here may differ
    from the sketch's in those bytes. *)
Definition serialChar (c : ascii) (st : State) : State * list Event :=
  if Ascii.eqb c "010"%char then
    let len := if (LINEBUF_SIZE <=? lineLen st)%nat then (LINEBUF_SIZE - 1)%nat
               else lineLen st in
    let buf := <[len := NUL]> (lineBuf st) in
    let buf := if (0 <? len)%nat && Ascii.eqb (buf !!! (len - 1)%nat) "013"%char
               then <[(len - 1)%nat := NUL]> buf else buf in
    let '(st, out) := processSerialLine (cstr buf) (with_line buf len st) in
    (with_line (lineBuf st) 0%nat st, map Out out)
  else if (lineLen st <? LINEBUF_SIZE - 1)%nat then
    (with_line (<[lineLen st := c]> (lineBuf st)) (S (lineLen st)) st, [])
  else
    (with_line (lineBuf st) 0%nat st, [Out (SerialLine "ERR,LINE_TOO_LONG")]).

(** ** Debounce, chord arbitration and the poll loop *)

Definition with_conf_sw (c : Config) (w : Switches) (st : State) : State :=
  with_sw w (with_conf c st).

(** The body of the debounce [for] loop for switch [i]. *)
Definition debounceSwitch (now : Z) (pins : list bool) (i : nat) (st : State)
  : State * list Event :=
  let w := sw st in
  let w := with_rawState (<[i := pins !!! i]> (rawState w)) w in
  let w :=
    if xorb (rawState w !!! i) (lastRaw w !!! i) then
      let w := with_lastRaw (<[i := rawState w !!! i]> (lastRaw w)) w in
      with_lastChangeMs (<[i := now]> (lastChangeMs w)) w
    else w in
  if DEBOUNCE_MS <=? u32 (now - lastChangeMs w !!! i) then
    if xorb (stableState w !!! i) (rawState w !!! i) then
      let w := with_stableState (<[i := rawState w !!! i]> (stableState w)) w in
      let pressed : bool := stableState w !!! i in
      if (3 <=? i)%nat && (i <=? 5)%nat then
        if pressed then
          let w := with_pendingPress (<[i := true]> (pendingPress w)) w in
          let w := with_pendingAt (<[i := now]> (pendingAt w)) w in
          (with_sw w st, @nil Event)
        else if (sentPress w !!! i : bool) then
          let '(c, effs) := handleSwitchEvent i false (conf st) in
          let w := with_sentPress (<[i := false]> (sentPress w)) w in
          (with_conf_sw c w st, [Dispatch i false effs])
        else if (pendingPress w !!! i : bool) then
          let w := with_pendingPress (<[i := false]> (pendingPress w)) w in
          let '(c, effs1) := handleSwitchEvent i true (conf st) in
          let '(c, effs2) := handleSwitchEvent i false c in
          (with_conf_sw c w st, [Dispatch i true effs1; Dispatch i false effs2])
        else (with_sw w st, [])
      else
        let '(c, effs) := handleSwitchEvent i pressed (conf st) in
        (with_conf_sw c w st, [Dispatch i pressed effs])
    else (with_sw w st, [])
  else (with_sw w st, []).

(** [pendingPress[3]=pendingPress[4]=pendingPress[5]=false] and the same
    for [sentPress]. *)
Definition clearArbiter (w : Switches) : Switches :=
  let w := with_pendingPress
             (<[3%nat := false]> (<[4%nat := false]> (<[5%nat := false]> (pendingPress w)))) w in
  with_sentPress
    (<[3%nat := false]> (<[4%nat := false]> (<[5%nat := false]> (sentPress w)))) w.

Definition chord45 (w : Switches) : bool :=
  (stableState w !!! 3%nat) && (stableState w !!! 4%nat).
Definition chord56 (w : Switches) : bool :=
  (stableState w !!! 4%nat) && (stableState w !!! 5%nat).

(** The two chord blocks. *)
Definition chordBlocks (st : State) : State * list Event :=
  let c45 := chord45 (sw st) in
  let c56 := chord56 (sw st) in
  let '(st, ev45) :=
    if c45 then
      if negb (chord45Latched (sw st)) then
        let w := clearArbiter (with_chord45Latched true (sw st)) in
        let '(c, effs) := doBankDown (conf st) in
        (with_conf_sw c w st, [ChordDown effs])
      else (st, [])
    else (with_sw (with_chord45Latched false (sw st)) st, []) in
  let '(st, ev56) :=
    if c56 then
      if negb (chord56Latched (sw st)) then
        let w := clearArbiter (with_chord56Latched true (sw st)) in
        let '(c, effs) := doBankUp (conf st) in
        (with_conf_sw c w st, [ChordUp effs])
      else (st, [])
    else (with_sw (with_chord56Latched false (sw st)) st, []) in
  (st, ev45 ++ ev56).

(** The body of the final [for (i = 3; i <= 5; i++)] loop. *)
Definition timeoutSwitch (now : Z) (i : nat) (st : State) : State * list Event :=
  let w := sw st in
  if (pendingPress w !!! i : bool) then
    if CHORD_WINDOW_MS <=? u32 (now - pendingAt w !!! i) then
      let w := with_pendingPress (<[i := false]> (pendingPress w)) w in
      let '(c, effs) := handleSwitchEvent i true (conf st) in
      let w := with_sentPress (<[i := true]> (sentPress w)) w in
      (with_conf_sw c w st, [Dispatch i true effs])
    else (st, [])
  else (st, []).

Definition loop (p : Poll) (st : State) : State * list Event :=
  let '(st, evSerial) := emit_fold serialChar (rx p) st in
  let '(st, evDebounce) :=
    emit_fold (debounceSwitch (now p) (pins p)) (seq 0 NUM_SW) st in
  let '(st, evChord) := chordBlocks st in
  let anyChord := chord45 (sw st) || chord56 (sw st) in
  if anyChord then (st, evSerial ++ evDebounce ++ evChord)
  else
    let '(st, evTimeout) := emit_fold (timeoutSwitch (now p)) [3; 4; 5]%nat st in
    (st, evSerial ++ evDebounce ++ evChord ++ evTimeout).

(** Successive passes of [loop]. *)
Definition run (ps : list Poll) (st : State) : State * list Event :=
  emit_fold loop ps st.

(** ** Start-up *)

(** Static storage at reset, with the EEPROM image as found. *)
Definition boot (e : list Z) : State :=
  mkState
    (mkConfig (replicate NUM_BANKS (replicate NUM_SW zeroSlot))
              (replicate NUM_BANKS (replicate NUM_SW false)) 1)
    (mkSwitches (replicate NUM_SW false) (replicate NUM_SW false)
                (replicate NUM_SW false) (replicate NUM_SW 0)
                (replicate NUM_SW false) (replicate NUM_SW 0)
                (replicate NUM_SW false) false false)
    (replicate LINEBUF_SIZE NUL) 0%nat e.

(** [setup()], given the contact levels and the [millis()] readings of its
    initialisation loop. *)
Definition setup (pins : list bool) (ms : list Z) (st : State) : State * list Effect :=
  let w :=
    for_upto NUM_SW (fun (i : nat) (w : Switches) =>
      let w := with_rawState (<[i := pins !!! i]> (rawState w)) w in
      let w := with_stableState (<[i := rawState w !!! i]> (stableState w)) w in
      let w := with_lastRaw (<[i := rawState w !!! i]> (lastRaw w)) w in
      with_lastChangeMs (<[i := ms !!! i]> (lastChangeMs w)) w) (sw st) in
  let st := with_conf_sw (setDefaultConfig (conf st)) w st in
  let '(st, _, out) := loadAllFromEEPROM st in
  (st, out ++ [drawLabelsForBank (currentBank (conf st)) (cfg (conf st));
               SerialLine "OK,READY"]).

(** ** Observations on an event trace *)

(** The calls of [handleSwitchEvent], in order, as (switch, pressed). *)
Definition dispatches (evs : list Event) : list (nat * bool) :=
  flat_map (fun e => match e with
                     | Dispatch i pressed _ => [(i, pressed)]
                     | _ => []
                     end) evs.

(** The calls of [handleSwitchEvent] for switch [i]. *)
Definition dispatchesOf (i : nat) (evs : list Event) : list bool :=
  map snd (filter (fun d => fst d = i) (dispatches evs)).

Definition isChordDown (e : Event) : bool :=
  match e with ChordDown _ => true | _ => false end.
Definition isChordUp (e : Event) : bool :=
  match e with ChordUp _ => true | _ => false end.

(** How many times the chord block moved the bank down / up. *)
Definition chordDowns (evs : list Event) : nat :=
  length (filter (fun e => isChordDown e = true) evs).
Definition chordUps (evs : list Event) : nat :=
  length (filter (fun e => isChordUp e = true) evs).

(** The passes of a run: state before, input, events, state after. *)
Record Pass := mkPass {
  before : State;
  poll : Poll;
  emitted : list Event;
  after : State
}.

Fixpoint passes (ps : list Poll) (st : State) : list Pass :=
  match ps with
  | [] => []
  | p :: rest =>
      let '(st', evs) := loop p st in mkPass st p evs st' :: passes rest st'
  end.

(** The raw samples of switch [i] read off the polls alone: the sample
    of the latest pass and the clock of the latest pass whose sample
    differed from the sample before it.  [r0] is the sample seen last
    before the polls and [t0] the clock when it last changed. *)
Fixpoint lastFlip (i : nat) (r0 : bool) (t0 : Z) (ps : list Poll) : bool * Z :=
  match ps with
  | [] => (r0, t0)
  | p :: rest =>
      let r := pins p !!! i in
      lastFlip i r (if xorb r r0 then now p else t0) rest
  end.

(** ** Shape of the arrays *)

Definition wf_grid {A} (g : list (list A)) : Prop :=
  length g = NUM_BANKS /\ Forall (fun row => length row = NUM_SW) g.

Definition wf_sw (w : Switches) : Prop :=
  length (rawState w) = NUM_SW /\ length (stableState w) = NUM_SW /\
  length (lastRaw w) = NUM_SW /\ length (lastChangeMs w) = NUM_SW /\
  length (pendingPress w) = NUM_SW /\ length (pendingAt w) = NUM_SW /\
  length (sentPress w) = NUM_SW.

(** ** One switch at a time *)

(** The cells of the seven per-switch arrays that belong to one switch. *)
Record SwView := mkView {
  vRaw : bool;
  vStable : bool;
  vLastRaw : bool;
  vLastChange : Z;
  vPending : bool;
  vPendingAt : Z;
  vSent : bool
}.

Definition view (i : nat) (w : Switches) : SwView :=
  mkView (rawState w !!! i) (stableState w !!! i) (lastRaw w !!! i)
         (lastChangeMs w !!! i) (pendingPress w !!! i) (pendingAt w !!! i)
         (sentPress w !!! i).

Definition isArb (i : nat) : bool := (3 <=? i)%nat && (i <=? 5)%nat.

(** [debounceSwitch] read on the cells of its own switch: the new cells
    and the [pressed] arguments of the calls it makes. *)
Definition debounceView (now : Z) (pin arb : bool) (v : SwView) : SwView * list bool :=
  let changed := xorb pin (vLastRaw v) in
  let lastRaw1 := if changed then pin else vLastRaw v in
  let lastChange1 := if changed then now else vLastChange v in
  if (DEBOUNCE_MS <=? u32 (now - lastChange1)) && xorb (vStable v) pin then
    if arb then
      if pin then
        (mkView pin pin lastRaw1 lastChange1 true now (vSent v), [])
      else if vSent v then
        (mkView pin pin lastRaw1 lastChange1 (vPending v) (vPendingAt v) false, [false])
      else if vPending v then
        (mkView pin pin lastRaw1 lastChange1 false (vPendingAt v) (vSent v), [true; false])
      else
        (mkView pin pin lastRaw1 lastChange1 (vPending v) (vPendingAt v) (vSent v), [])
    else
      (mkView pin pin lastRaw1 lastChange1 (vPending v) (vPendingAt v) (vSent v), [pin])
  else
    (mkView pin (vStable v) lastRaw1 lastChange1 (vPending v) (vPendingAt v) (vSent v), []).

(** [clearArbiter] on one switch. *)
Definition clearView (arb : bool) (v : SwView) : SwView :=
  if arb then mkView (vRaw v) (vStable v) (vLastRaw v) (vLastChange v)
                     false (vPendingAt v) false
  else v.

(** [timeoutSwitch] on one switch. *)
Definition timeoutView (now : Z) (v : SwView) : SwView * list bool :=
  if vPending v && (CHORD_WINDOW_MS <=? u32 (now - vPendingAt v)) then
    (mkView (vRaw v) (vStable v) (vLastRaw v) (vLastChange v)
            false (vPendingAt v) true, [true])
  else (v, []).

(** One pass of [loop] read on the switch arrays alone. *)
Definition afterDebounce (p : Poll) (i : nat) (w : Switches) : SwView * list bool :=
  debounceView (now p) (pins p !!! i) (isArb i) (view i w).

Definition stableNext (p : Poll) (i : nat) (w : Switches) : bool :=
  vStable (fst (afterDebounce p i w)).

Definition chord45Next (p : Poll) (w : Switches) : bool :=
  stableNext p 3 w && stableNext p 4 w.
Definition chord56Next (p : Poll) (w : Switches) : bool :=
  stableNext p 4 w && stableNext p 5 w.

Definition fires45 (p : Poll) (w : Switches) : bool :=
  chord45Next p w && negb (chord45Latched w).
Definition fires56 (p : Poll) (w : Switches) : bool :=
  chord56Next p w && negb (chord56Latched w).

Definition afterChord (p : Poll) (i : nat) (w : Switches) : SwView :=
  let v := fst (afterDebounce p i w) in
  if fires45 p w || fires56 p w then clearView (isArb i) v else v.

Definition afterLoop (p : Poll) (i : nat) (w : Switches) : SwView * list bool :=
  let v := afterChord p i w in
  let d := snd (afterDebounce p i w) in
  if chord45Next p w || chord56Next p w then (v, d)
  else if isArb i then
    let '(v', t) := timeoutView (now p) v in (v', d ++ t)
  else (v, d).

(** ** Invariant of the chord arbiter between passes *)

(** Neither flag of the switch is set. *)
Definition clearedV (v : SwView) : bool := negb (vPending v) && negb (vSent v).

(** A flag is set only while the switch is stable-pressed, and never both. *)
Definition soundV (v : SwView) : bool :=
  implb (vSent v) (vStable v) && implb (vPending v) (vStable v)
  && negb (vSent v && vPending v).

(** Stable-pressed with the press held back since [t0] / already sent. *)
Definition pendingV (t0 : Z) (v : SwView) : bool :=
  vStable v && vPending v && negb (vSent v) && (vPendingAt v =? t0).
Definition committedV (v : SwView) : bool :=
  vStable v && vSent v && negb (vPending v).

Definition flagsClear (i : nat) (w : Switches) : bool := clearedV (view i w).
Definition flagsSound (i : nat) (w : Switches) : bool := soundV (view i w).

Definition arbInv (w : Switches) : bool :=
  implb (chord45Latched w) (chord45 w)
  && implb (chord56Latched w) (chord56 w)
  && implb (chord45 w || chord56 w)
           (flagsClear 3 w && flagsClear 4 w && flagsClear 5 w)
  && flagsSound 3 w && flagsSound 4 w && flagsSound 5 w.

(** The latches agree with the stable states, as after every pass. *)
Definition latchesSettled (w : Switches) : bool :=
  Bool.eqb (chord45Latched w) (chord45 w)
  && Bool.eqb (chord56Latched w) (chord56 w).

(** A loop body [f] that works on the cells of its own switch as [g] says
    and leaves the other switches and the latches alone. *)
Definition stepSpec (f : nat -> State -> State * list Event)
    (g : nat -> SwView -> SwView * list bool) : Prop :=
  forall i st, wf_sw (sw st) -> (i < NUM_SW)%nat ->
    let r := f i st in
    let m := g i (view i (sw st)) in
    wf_sw (sw (fst r)) /\
    view i (sw (fst r)) = fst m /\
    dispatches (snd r) = map (pair i) (snd m) /\
    (forall j, j <> i -> view j (sw (fst r)) = view j (sw st)) /\
    chord45Latched (sw (fst r)) = chord45Latched (sw st) /\
    chord56Latched (sw (fst r)) = chord56Latched (sw st) /\
    chordDowns (snd r) = 0%nat /\ chordUps (snd r) = 0%nat.

(** ** Reading a SET line as a list of tokens *)

(** The comma-separated fields of a string (always at least one). *)
Fixpoint fields (s : list ascii) : list (list ascii) :=
  match s with
  | [] => [[]]
  | c :: rest =>
      if Ascii.eqb c ","%char then [] :: fields rest
      else match fields rest with
           | f :: fs => (c :: f) :: fs
           | [] => [[c]]
           end
  end.

(** The fields still ahead of a [nextTok] cursor. *)
Definition cursorFields (p : option (list ascii)) : list (list ascii) :=
  match p with
  | None => []
  | Some s => fields s
  end.

Definition trimmed (f : list ascii) : list ascii := trim_trailing (skip_spaces f).

(** The trimmed tokens after the keyword of a line that starts with [SET,]. *)
Definition tokens (line : list ascii) : list (list ascii) :=
  map trimmed (fields (drop 4 line)).

(** The slot a SET line writes, when it has its eight tokens and its bank
    and switch are in range. *)
Definition setTarget (line : list ascii) : option (nat * nat) :=
  let toks := tokens line in
  if (8 <=? length toks)%nat then
    let bank := atoi (toks !!! 0%nat) in
    let sw := atoi (toks !!! 1%nat) in
    if (bank <? 1) || (Z.of_nat NUM_BANKS <? bank)
       || (sw <? 1) || (Z.of_nat NUM_SW <? sw)
    then None
    else Some (Z.to_nat (u8 (bank - 1)), Z.to_nat (u8 (sw - 1)))
  else None.

(** What a successful SET stores for the given tokens. *)
Definition setSlot (tLab tType tCh tNum tVP tVR : list ascii) : Slot :=
  let clamp lo hi x := let x := if x <? lo then lo else x in
                       if hi <? x then hi else x in
  let type := atoi tType in
  mkSlot
    (map (fun i : nat =>
            let ch := if (i <? length tLab)%nat then tLab !!! i else SPACE in
            if Ascii.eqb ch "_"%char then SPACE else ch) (seq 0 4) ++ [NUL])
    (u8 (if (type <? 0) || (ACT_CC_ONE_SHOT <? type) then ACT_NONE else type))
    (u8 (clamp 1 16 (atoi tCh)))
    (u8 (clamp 0 127 (atoi tNum)))
    (u8 (clamp 0 127 (atoi tVP)))
    (u8 (clamp 0 127 (atoi tVR))).

(** ** Slots as the store keeps them *)

(** A slot that survives a save and a load unchanged. *)
Definition storable (s : Slot) : Prop :=
  (exists c0 c1 c2 c3, label s = [c0; c1; c2; c3; NUL] /\
     Forall (fun c => c <> NUL /\ c <> char_of_byte 255) [c0; c1; c2; c3]) /\
  0 <= type s <= ACT_CC_ONE_SHOT /\ 1 <= ch s <= 16 /\
  0 <= num s < 256 /\ 0 <= vPress s < 256 /\ 0 <= vRelease s < 256.

(** A slot as a SET writes it. *)
Definition setShaped (s : Slot) : Prop :=
  (exists c0 c1 c2 c3, label s = [c0; c1; c2; c3; NUL] /\
     Forall (fun c => c <> NUL) [c0; c1; c2; c3]) /\
  0 <= type s <= ACT_CC_ONE_SHOT /\ 1 <= ch s <= 16 /\
  0 <= num s <= 127 /\ 0 <= vPress s <= 127 /\ 0 <= vRelease s <= 127.

(** The nine cells from address [a] hold the slot [s]. *)
Definition holdsSlot (e : list Z) (a : Z) (s : Slot) : Prop :=
  EEPROM_read (a + 0) e = u8 (byte_of_char (label s !!! 0%nat)) /\
  EEPROM_read (a + 1) e = u8 (byte_of_char (label s !!! 1%nat)) /\
  EEPROM_read (a + 2) e = u8 (byte_of_char (label s !!! 2%nat)) /\
  EEPROM_read (a + 3) e = u8 (byte_of_char (label s !!! 3%nat)) /\
  EEPROM_read (a + 4) e = u8 (type s) /\
  EEPROM_read (a + 5) e = u8 (ch s) /\
  EEPROM_read (a + 6) e = u8 (num s) /\
  EEPROM_read (a + 7) e = u8 (vPress s) /\
  EEPROM_read (a + 8) e = u8 (vRelease s).

(** Checks that run: the lines are C strings that start with [SET,], are
    accepted, and between them target every slot. *)
Definition nulFree (l : list ascii) : bool :=
  forallb (fun c => negb (Ascii.eqb c NUL)) l.

Definition setsChecked (sets : list (list ascii)) : bool :=
  forallb (fun l => streq (take 4 l) "SET," && nulFree l
                    && match setTarget l with Some _ => true | None => false end)
          sets.

Definition targets (b s : nat) (l : list ascii) : bool :=
  match setTarget l with
  | Some (b', s') => (b =? b')%nat && (s =? s')%nat
  | None => false
  end.

Definition setsCover (sets : list (list ascii)) : bool :=
  forallb (fun b => forallb (fun s => existsb (targets b s) sets) (seq 0 NUM_SW))
          (seq 0 NUM_BANKS).

Definition noErased (g : list (list Slot)) : bool :=
  forallb (fun b => forallb (fun s =>
      forallb (fun c => negb (Ascii.eqb c (char_of_byte 255))) (label (gget g b s)))
    (seq 0 NUM_SW)) (seq 0 NUM_BANKS).

(** An EEPROM image whose cells are bytes. *)
Definition byteImage (e : list Z) : Prop := Forall (fun x => 0 <= x < 256) e.

(** ** The executor *)

(** The slot [handleSwitchEvent] looks at for switch [i]. *)
Definition activeSlot (i : nat) (c : Config) : Slot :=
  gget (cfg c) (Z.to_nat (u8 (currentBank c - 1))) i.

(** A MIDI message with a channel in 1..16 and data bytes in 0..127. *)
Definition midiSafe (e : Effect) : Prop :=
  match e with
  | MidiCC channel number value =>
      1 <= channel <= 16 /\ 0 <= number <= 127 /\ 0 <= value <= 127
  | MidiPC channel number => 1 <= channel <= 16 /\ 0 <= number <= 127
  | _ => True
  end.

(** ** States the sketch can be in *)

(** The state after [setup()] and any number of passes of [loop()]. *)
Definition reached (pins : list bool) (ms : list Z) (e : list Z)
    (ps : list Poll) : State :=
  fst (run ps (fst (setup pins ms (boot e)))).

(** The line reader's index stays inside its buffer. *)
Definition lineOk (st : State) : Prop :=
  (lineLen st < LINEBUF_SIZE)%nat /\ length (lineBuf st) = LINEBUF_SIZE.

(** Both grids have their declared shape. *)
Definition gridsOk (c : Config) : Prop :=
  wf_grid (cfg c) /\ wf_grid (togState c).

(** The active bank is one of the banks and both grids have their shape. *)
Definition configOk (c : Config) : Prop :=
  1 <= currentBank c <= 4 /\ gridsOk c.

(** A slot with four label characters before the terminator, a type and a
    channel the executor knows, and bytes for the rest. *)
Definition slotOk (s : Slot) : Prop :=
  (exists c0 c1 c2 c3, label s = [c0; c1; c2; c3; NUL] /\
     Forall (fun c => c <> NUL) [c0; c1; c2; c3]) /\
  0 <= type s <= ACT_CC_ONE_SHOT /\ 1 <= ch s <= 16 /\
  0 <= num s < 256 /\ 0 <= vPress s < 256 /\ 0 <= vRelease s < 256.

Definition slotsOk (c : Config) : Prop :=
  forall b s, (b < NUM_BANKS)%nat -> (s < NUM_SW)%nat -> slotOk (gget (cfg c) b s).

(** A MIDI message with a channel in 1..16 and bytes for its data. *)
Definition chanSafe (e : Effect) : Prop :=
  match e with
  | MidiCC channel number value =>
      1 <= channel <= 16 /\ 0 <= number < 256 /\ 0 <= value < 256
  | MidiPC channel number => 1 <= channel <= 16 /\ 0 <= number < 256
  | _ => True
  end.

(** From [st] to [st'] the property [P] is kept and the line reader's cells
    and the EEPROM are not touched. *)
Definition kept (P : State -> Prop) (st st' : State) : Prop :=
  (P st -> P st') /\
  lineBuf st' = lineBuf st /\ lineLen st' = lineLen st /\ eeprom st' = eeprom st.

(** What [setDefaultConfig] leaves in switch [s] of every bank. *)
Definition defaultSlot (s : nat) : Slot :=
  if (s =? 4)%nat then mkSlot (list_ascii_of_string "DWN " ++ [NUL]) ACT_BANK_DOWN 1 0 127 0
  else if (s =? 5)%nat then mkSlot (list_ascii_of_string "UP  " ++ [NUL]) ACT_BANK_UP 1 0 127 0
  else mkSlot (list_ascii_of_string "----" ++ [NUL]) ACT_NONE 1 0 127 0.

(** ** Feeding a dump back *)

(** The lines printed on the serial port, as the host reads them. *)
Definition serialText (out : list Effect) : list (list ascii) :=
  flat_map (fun e => match e with
                     | SerialLine s => [list_ascii_of_string s]
                     | _ => []
                     end) out.



(** ** The display *)

(** What the LCD shows after the effects [effs], given what it showed
    before: the last splash or set of labels written. *)
Definition lcdAfter (effs : list Effect) (shown : Effect) : Effect :=
  fold_left (fun acc e => match e with
                          | LcdSplash _ | LcdLabels _ => e
                          | _ => acc
                          end) effs shown.

(** The effects of the events of a pass, in order. *)
Definition effectsOf (evs : list Event) : list Effect :=
  flat_map (fun ev => match ev with
                      | Out e => [e]
                      | Dispatch _ _ effs => effs
                      | ChordDown effs => effs
                      | ChordUp effs => effs
                      end) evs.

(** The LCD shows the labels of the active bank. *)
Definition lcdInv (c : Config) (shown : Effect) : Prop :=
  configOk c /\ shown = drawLabelsForBank (currentBank c) (cfg c).

(** A step keeps the display in line with the configuration. *)
Definition lcdStep (f : State -> State * list Event) : Prop :=
  forall st shown, lcdInv (conf st) shown ->
    lcdInv (conf (fst (f st))) (lcdAfter (effectsOf (snd (f st))) shown).

(** A property of the configuration and the EEPROM, as one of the state. *)
Definition onState (Q : Config -> list Z -> Prop) (st : State) : Prop :=
  Q (conf st) (eeprom st).

(** The line without the carriage return it may end with. *)
Definition stripCR (l : list ascii) : list ascii :=
  match rev l with
  | c :: r => if Ascii.eqb c "013"%char then rev r else l
  | [] => l
  end.

(** ** Concrete inputs used to run the sketch *)

Definition str (s : string) : list ascii := list_ascii_of_string s.

(** A protocol line as it arrives: the text and the line feed. *)
Definition line (s : string) : list ascii := str s ++ ["010"%char].

(** A 1024-cell EEPROM that was never written. *)
Definition blankImage : list Z := replicate 1024 255.

Definition idle : list bool := replicate 6 false.

(** The state after [setup()] with no switch held and nothing stored. *)
Definition started : State := fst (setup idle (replicate 6 0) (boot blankImage)).

(** Switch 6 (index 5) becomes a control change, switches 4 and 6 (indices
    3 and 5) are pressed until both presses are committed, then switch 5
    (index 4) goes down while switch 6 goes up. *)
Definition chordPolls : list Poll :=
  [ mkPoll (line "SET,1,6,FX__,1,1,20,127,0")
           [false; false; false; true; false; true] 0;
    mkPoll [] [false; false; false; true; false; true] 40;
    mkPoll [] [false; false; false; true; false; true] 200;
    mkPoll [] [false; false; false; true; true; false] 300 ].
Definition chordPoll : Poll :=
  mkPoll [] [false; false; false; true; true; false] 340.
(** Afterwards switch 4 (index 3) is let go. *)
Definition afterChordPolls : list Poll :=
  [ mkPoll [] [false; false; false; false; true; false] 400;
    mkPoll [] [false; false; false; false; true; false] 440 ].

(** Switch 4 (index 3): raw press seen at 0, debounced at 40. *)
Definition pressSeen : list Poll :=
  [ mkPoll [] [false; false; false; true; false; false] 0 ].
Definition pressPoll : Poll :=
  mkPoll [] [false; false; false; true; false; false] 40.
(** Let go at 70, release debounced at 110: a tap. *)
Definition tapMid : list Poll :=
  [ mkPoll [] [false; false; false; true; false; false] 60;
    mkPoll [] idle 70 ].
Definition tapRelease : Poll := mkPoll [] idle 110.
(** Held past the window, committed at 200, released later. *)
Definition holdMid : list Poll :=
  [ mkPoll [] [false; false; false; true; false; false] 60 ].
Definition commitPoll : Poll :=
  mkPoll [] [false; false; false; true; false; false] 200.
Definition heldOn : list Poll :=
  [ mkPoll [] [false; false; false; true; false; false] 300;
    mkPoll [] idle 400 ].
Definition lateRelease : Poll := mkPoll [] idle 440.


(** A toggle slot is set and saved, pressed once, reloaded, pressed again. *)
Definition togglePolls : list Poll :=
  [ mkPoll (line "SET,1,1,TGL_,5,1,7,100,0" ++ line "SAVE") idle 0;
    mkPoll [] [true; false; false; false; false; false] 10;
    mkPoll [] [true; false; false; false; false; false] 50;
    mkPoll [] idle 60;
    mkPoll [] idle 100;
    mkPoll (line "LOAD") idle 110;
    mkPoll [] [true; false; false; false; false; false] 120 ].
Definition togglePoll : Poll :=
  mkPoll [] [true; false; false; false; false; false] 160.

(** A line of 224 characters whose last four are a command. *)
Definition longLine : list ascii := replicate 220 "x"%char ++ line "SAVE".

(** A stored image with a valid marker whose first slot holds values that
    no SET would store. *)
Definition oddImage : list Z :=
  [70; 70; 67; 77] ++ [65; 66; 67; 68; 1; 1; 200; 255; 130]
  ++ replicate 1011 255.

(** Twenty-four SET lines, one per slot, with the given label for the
    first slot. *)
Definition setLine (lab : list ascii) (b s : nat) : list ascii :=
  str "SET," ++ list_ascii_of_string (dec (Z.of_nat b + 1)) ++ str ","
  ++ list_ascii_of_string (dec (Z.of_nat s + 1)) ++ str ","
  ++ lab ++ str ",1,2,7,100,0".
Definition allSets (lab00 : list ascii) : list (list ascii) :=
  flat_map (fun b : nat =>
    map (fun s : nat =>
           setLine (if (b =? 0)%nat && (s =? 0)%nat then lab00 else str "LBL_") b s)
        (seq 0 NUM_SW)) (seq 0 NUM_BANKS).

(** * Properties *)

(** ** Emitting loops *)

Lemma emit_fold_app {A S E} (body : A -> S -> S * list E) xs ys s :
  emit_fold body (xs ++ ys) s =
  let '(s1, e1) := emit_fold body xs s in
  let '(s2, e2) := emit_fold body ys s1 in (s2, e1 ++ e2).
Proof.
  revert s. induction xs as [|x xs IH]; intros s; simpl.
  - destruct (emit_fold body ys s); reflexivity.
  - destruct (body x s) as [s1 e1]. rewrite IH.
    destruct (emit_fold body xs s1) as [s2 e2].
    destruct (emit_fold body ys s2) as [s3 e3]. by rewrite app_assoc.
Qed.



(** ** Array bookkeeping *)

Lemma upd_same {A} `{Inhabited A} (l : list A) (i : nat) (x : A) :
  (i < length l)%nat -> <[i := x]> l !!! i = x.
Proof. apply list_lookup_total_insert_eq. Qed.

Lemma upd_other {A} `{Inhabited A} (l : list A) (i j : nat) (x : A) :
  i <> j -> <[i := x]> l !!! j = l !!! j.
Proof. apply list_lookup_total_insert_ne. Qed.

Ltac arr :=
  repeat first
    [ rewrite length_insert
    | rewrite upd_same by (rewrite ?length_insert; lia)
    | rewrite upd_other by lia ].

Lemma flat_map_ext_elem {A B} (f g : A -> list B) (l : list A) :
  (forall a, a ∈ l -> f a = g a) -> flat_map f l = flat_map g l.
Proof.
  induction l as [|a l IH]; intros Hfg; simpl; [done|].
  rewrite Hfg by apply list_elem_of_here.
  rewrite IH; [done|]. intros b Hb. apply Hfg. by apply list_elem_of_further.
Qed.

Lemma dispatches_app evs1 evs2 :
  dispatches (evs1 ++ evs2) = dispatches evs1 ++ dispatches evs2.
Proof. unfold dispatches. apply flat_map_app. Qed.

Lemma dispatchesOf_app i evs1 evs2 :
  dispatchesOf i (evs1 ++ evs2) = dispatchesOf i evs1 ++ dispatchesOf i evs2.
Proof.
  unfold dispatchesOf. by rewrite dispatches_app, filter_app, map_app.
Qed.

Lemma chordDowns_app evs1 evs2 :
  chordDowns (evs1 ++ evs2) = (chordDowns evs1 + chordDowns evs2)%nat.
Proof. unfold chordDowns. by rewrite filter_app, length_app. Qed.

Lemma chordUps_app evs1 evs2 :
  chordUps (evs1 ++ evs2) = (chordUps evs1 + chordUps evs2)%nat.
Proof. unfold chordUps. by rewrite filter_app, length_app. Qed.

(** ** The debounce pass, switch by switch *)

Lemma debounceSwitch_spec now pins i st :
  wf_sw (sw st) -> (i < NUM_SW)%nat ->
  let r := debounceSwitch now pins i st in
  let m := debounceView now (pins !!! i) (isArb i) (view i (sw st)) in
  wf_sw (sw (fst r)) /\
  view i (sw (fst r)) = fst m /\
  dispatches (snd r) = map (pair i) (snd m) /\
  (forall j, j <> i -> view j (sw (fst r)) = view j (sw st)) /\
  chord45Latched (sw (fst r)) = chord45Latched (sw st) /\
  chord56Latched (sw (fst r)) = chord56Latched (sw st) /\
  chordDowns (snd r) = 0%nat /\ chordUps (snd r) = 0%nat.
Proof.
  intros (H1 & H2 & H3 & H4 & H5 & H6 & H7) Hi. unfold NUM_SW in *.
  destruct st as [c w buf len e]. destruct w; simpl in *.
  unfold debounceSwitch, debounceView, view, wf_sw.
  change ((3 <=? i)%nat && (i <=? 5)%nat) with (isArb i).
  cbn -[isArb Z.leb u32 handleSwitchEvent].
  arr.
  generalize (isArb i) as arb. intros arb.
  destruct (xorb (pins !!! i) (lastRaw0 !!! i)) eqn:Ex; cbn -[Z.leb u32 handleSwitchEvent]; arr;
  (destruct (DEBOUNCE_MS <=? _) eqn:Ed; cbn -[Z.leb u32 handleSwitchEvent]; arr;
   [ destruct (xorb (stableState0 !!! i) (pins !!! i)) eqn:Es; cbn -[Z.leb u32 handleSwitchEvent]; arr;
     [ destruct arb; cbn -[Z.leb u32 handleSwitchEvent]; arr;
       [ destruct (pins !!! i) eqn:Ep; cbn -[Z.leb u32 handleSwitchEvent]; arr;
         [ | destruct (sentPress0 !!! i) eqn:Esent; cbn -[Z.leb u32 handleSwitchEvent]; arr;
             [ | destruct (pendingPress0 !!! i) eqn:Epend; cbn -[Z.leb u32 handleSwitchEvent]; arr ] ]
       | ]
     | ]
   | ]);
  repeat match goal with
  | |- context [handleSwitchEvent ?a ?b ?c] =>
      destruct (handleSwitchEvent a b c) eqn:?; cbn -[Z.leb u32 handleSwitchEvent]; arr
  end;
  (repeat split; try done; try (intros j Hj; arr; done);
   try (f_equal; congruence)).
Qed.

Lemma debounceSwitch_stepSpec now pins :
  stepSpec (debounceSwitch now pins)
           (fun i v => debounceView now (pins !!! i) (isArb i) v).
Proof. intros i st Hwf Hi. by apply debounceSwitch_spec. Qed.

Lemma timeoutSwitch_stepSpec now :
  stepSpec (timeoutSwitch now) (fun _ v => timeoutView now v).
Proof.
  intros i st (H1 & H2 & H3 & H4 & H5 & H6 & H7) Hi. unfold NUM_SW in *.
  destruct st as [c w buf len e]. destruct w; simpl in *.
  unfold timeoutSwitch, timeoutView, view, wf_sw.
  cbn -[Z.leb u32 handleSwitchEvent].
  destruct (pendingPress0 !!! i) eqn:Ep; cbn -[Z.leb u32 handleSwitchEvent];
    [ destruct (CHORD_WINDOW_MS <=? _) eqn:Ew; cbn -[Z.leb u32 handleSwitchEvent] | ];
  repeat match goal with
  | |- context [handleSwitchEvent ?a ?b ?c] =>
      destruct (handleSwitchEvent a b c) eqn:?; cbn -[Z.leb u32 handleSwitchEvent]
  end; arr;
  (repeat split; try done; try (intros j Hj; arr; done);
   try (f_equal; congruence)).
Qed.

Lemma fold_stepSpec f g js st :
  stepSpec f g -> wf_sw (sw st) -> NoDup js ->
  Forall (fun j => (j < NUM_SW)%nat) js ->
  let r := emit_fold f js st in
  wf_sw (sw (fst r)) /\
  (forall i, i ∈ js -> view i (sw (fst r)) = fst (g i (view i (sw st)))) /\
  (forall i, i ∉ js -> view i (sw (fst r)) = view i (sw st)) /\
  dispatches (snd r)
    = flat_map (fun j => map (pair j) (snd (g j (view j (sw st))))) js /\
  chord45Latched (sw (fst r)) = chord45Latched (sw st) /\
  chord56Latched (sw (fst r)) = chord56Latched (sw st) /\
  chordDowns (snd r) = 0%nat /\ chordUps (snd r) = 0%nat.
Proof.
  intros Hspec. revert st.
  induction js as [|j js IH]; intros st Hwf Hnd Hlt; simpl.
  - split_and!; try done. intros i Hin. inversion Hin.
  - apply NoDup_cons in Hnd as [Hj Hnd]. apply Forall_cons in Hlt as [Hjlt Hlt].
    destruct (Hspec j st Hwf Hjlt) as (W & V & D & O & L1 & L2 & C1 & C2).
    destruct (f j st) as [s1 e1] eqn:Ef; simpl in *.
    destruct (IH s1 W Hnd Hlt) as (W' & V' & O' & D' & L1' & L2' & C1' & C2').
    destruct (emit_fold f js s1) as [s2 e2] eqn:Ee; simpl in *.
    rewrite dispatches_app, chordDowns_app, chordUps_app, D, D', C1, C2, C1', C2'.
    split_and!; try done; try congruence.
    + intros i Hin. apply elem_of_cons in Hin as [->|Hin].
      * rewrite O' by done. done.
      * rewrite V' by done. rewrite O; [done|]. intros ->. done.
    + intros i Hin. apply not_elem_of_cons in Hin as [Hne Hin].
      rewrite O' by done. by apply O.
    + f_equal. apply flat_map_ext_elem. intros a Ha.
      rewrite O; [done|]. intros ->. done.
Qed.

(** ** The chord blocks *)

Lemma isArb_cases i : isArb i = true <-> i = 3%nat \/ i = 4%nat \/ i = 5%nat.
Proof.
  unfold isArb. rewrite andb_true_iff, Nat.leb_le, Nat.leb_le. lia.
Qed.

Lemma isArb_elem i : isArb i = true <-> i ∈ [3; 4; 5]%nat.
Proof.
  rewrite isArb_cases, !elem_of_cons, elem_of_nil. tauto.
Qed.

Lemma clearArbiter_view w i :
  wf_sw w -> view i (clearArbiter w) = clearView (isArb i) (view i w).
Proof.
  intros (H1 & H2 & H3 & H4 & H5 & H6 & H7). unfold NUM_SW in *.
  destruct w; simpl in *. unfold clearArbiter, clearView, view; simpl.
  destruct (isArb i) eqn:Ea.
  - apply isArb_cases in Ea as [->|[->| ->]]; arr; done.
  - assert (i <> 3 /\ i <> 4 /\ i <> 5)%nat as (?&?&?).
    { rewrite <- not_true_iff_false, isArb_cases in Ea. lia. }
    arr. done.
Qed.

Lemma clearArbiter_wf w : wf_sw w -> wf_sw (clearArbiter w).
Proof.
  intros (H1 & H2 & H3 & H4 & H5 & H6 & H7). destruct w; simpl in *.
  unfold wf_sw, clearArbiter; simpl. rewrite !length_insert. done.
Qed.

Lemma clearView_idem a v : clearView a (clearView a v) = clearView a v.
Proof. by destruct a. Qed.

Lemma view_with_latch45 i b w : view i (with_chord45Latched b w) = view i w.
Proof. reflexivity. Qed.

Lemma view_with_latch56 i b w : view i (with_chord56Latched b w) = view i w.
Proof. reflexivity. Qed.

Lemma wf_with_latch45 b w : wf_sw w -> wf_sw (with_chord45Latched b w).
Proof. intros H. exact H. Qed.

Lemma wf_with_latch56 b w : wf_sw w -> wf_sw (with_chord56Latched b w).
Proof. intros H. exact H. Qed.

Ltac wf_arb :=
  repeat first [ apply clearArbiter_wf | apply wf_with_latch45
               | apply wf_with_latch56 ]; done.

Lemma clearArbiter_latch45 w : chord45Latched (clearArbiter w) = chord45Latched w.
Proof. reflexivity. Qed.

Lemma clearArbiter_latch56 w : chord56Latched (clearArbiter w) = chord56Latched w.
Proof. reflexivity. Qed.

Lemma chordBlocks_spec st :
  wf_sw (sw st) ->
  let r := chordBlocks st in
  let f45 := chord45 (sw st) && negb (chord45Latched (sw st)) in
  let f56 := chord56 (sw st) && negb (chord56Latched (sw st)) in
  wf_sw (sw (fst r)) /\
  (forall i, view i (sw (fst r))
             = if f45 || f56 then clearView (isArb i) (view i (sw st))
               else view i (sw st)) /\
  chord45Latched (sw (fst r)) = chord45 (sw st) /\
  chord56Latched (sw (fst r)) = chord56 (sw st) /\
  dispatches (snd r) = [] /\
  chordDowns (snd r) = (if f45 then 1 else 0)%nat /\
  chordUps (snd r) = (if f56 then 1 else 0)%nat.
Proof.
  intros Hwf. destruct st as [c w buf len e]. simpl in *.
  unfold chordBlocks. cbn -[doBankDown doBankUp clearArbiter].
  destruct (doBankDown c) as [cd ed] eqn:Ed.
  destruct (chord45 w) eqn:E45, (chord45Latched w) eqn:L45;
    cbn -[doBankDown doBankUp clearArbiter];
    rewrite ?clearArbiter_latch56; cbn -[doBankDown doBankUp clearArbiter];
    destruct (chord56 w) eqn:E56, (chord56Latched w) eqn:L56;
    cbn -[doBankDown doBankUp clearArbiter];
    repeat match goal with
    | |- context [doBankUp ?c] =>
        destruct (doBankUp c) eqn:?; cbn -[doBankDown doBankUp clearArbiter]
    end;
    rewrite ?clearArbiter_latch45, ?clearArbiter_latch56;
    cbn -[doBankDown doBankUp clearArbiter];
    (split_and!; try done; try wf_arb;
     try (intros i;
          repeat first [ rewrite view_with_latch45 | rewrite view_with_latch56
                       | rewrite clearArbiter_view by wf_arb ];
          rewrite ?clearView_idem; done)).
Qed.

(** ** The serial pass leaves the switches alone *)

Lemma dispatches_Out out : dispatches (map Out out) = [].
Proof. induction out; simpl; auto. Qed.

Lemma chordDowns_Out out : chordDowns (map Out out) = 0%nat.
Proof. induction out; simpl; auto. Qed.

Lemma chordUps_Out out : chordUps (map Out out) = 0%nat.
Proof. induction out; simpl; auto. Qed.

Lemma processSerialLine_sw line st : sw (fst (processSerialLine line st)) = sw st.
Proof.
  unfold processSerialLine. destruct line as [|c0 line]; [done|].
  destruct (streq _ "SET,").
  { destruct (applySetLine _ _); done. }
  destruct (streq _ "SAVE"); [done|].
  destruct (streq _ "LOAD").
  { unfold loadAllFromEEPROM. destruct (negb _); done. }
  destruct (streq _ "DUMP"); done.
Qed.

Lemma serialChar_spec c st :
  let r := serialChar c st in
  sw (fst r) = sw st /\ dispatches (snd r) = [] /\
  chordDowns (snd r) = 0%nat /\ chordUps (snd r) = 0%nat.
Proof.
  unfold serialChar. destruct (Ascii.eqb c _).
  - match goal with |- context [processSerialLine ?l ?s] =>
      pose proof (processSerialLine_sw l s) as Hs;
      destruct (processSerialLine l s) as [st' out] end.
    simpl in *. rewrite dispatches_Out, chordDowns_Out, chordUps_Out. done.
  - destruct (_ <? _)%nat; done.
Qed.

Lemma serialPass_spec cs st :
  let r := emit_fold serialChar cs st in
  sw (fst r) = sw st /\ dispatches (snd r) = [] /\
  chordDowns (snd r) = 0%nat /\ chordUps (snd r) = 0%nat.
Proof.
  revert st. induction cs as [|c cs IH]; intros st; simpl; [done|].
  destruct (serialChar_spec c st) as (S1 & D1 & C1 & U1).
  destruct (serialChar c st) as [s1 e1]; simpl in *.
  destruct (IH s1) as (S2 & D2 & C2 & U2).
  destruct (emit_fold serialChar cs s1) as [s2 e2]; simpl in *.
  rewrite dispatches_app, chordDowns_app, chordUps_app, D1, D2, C1, C2, U1, U2.
  split_and!; try done. congruence.
Qed.

(** ** One pass of [loop] on the switch arrays *)

Lemma chord45_view w :
  chord45 w = vStable (view 3 w) && vStable (view 4 w).
Proof. reflexivity. Qed.

Lemma chord56_view w :
  chord56 w = vStable (view 4 w) && vStable (view 5 w).
Proof. reflexivity. Qed.

Lemma NoDup_seq06 : NoDup (seq 0 NUM_SW).
Proof. apply NoDup_seq. Qed.

Lemma loop_spec p st :
  wf_sw (sw st) ->
  let r := loop p st in
  let w := sw st in
  wf_sw (sw (fst r)) /\
  (forall i, (i < NUM_SW)%nat -> view i (sw (fst r)) = fst (afterLoop p i w)) /\
  chord45Latched (sw (fst r)) = chord45Next p w /\
  chord56Latched (sw (fst r)) = chord56Next p w /\
  dispatches (snd r)
    = flat_map (fun j => map (pair j) (snd (afterDebounce p j w))) (seq 0 NUM_SW)
      ++ (if chord45Next p w || chord56Next p w then []
          else flat_map (fun j => map (pair j)
                                   (snd (timeoutView (now p) (afterChord p j w))))
                        [3; 4; 5]%nat) /\
  chordDowns (snd r) = (if fires45 p w then 1 else 0)%nat /\
  chordUps (snd r) = (if fires56 p w then 1 else 0)%nat.
Proof.
  intros Hwf. unfold loop.
  destruct (serialPass_spec (rx p) st) as (S1 & D1 & C1 & U1).
  destruct (emit_fold serialChar (rx p) st) as [s1 e1]; cbn [fst snd] in S1, D1, C1, U1.
  assert (wf_sw (sw s1)) as Hwf1 by (by rewrite S1).
  assert (Forall (fun j => (j < NUM_SW)%nat) (seq 0 NUM_SW)) as Hlt.
  { apply Forall_forall. intros j Hj. apply list_elem_of_In, in_seq in Hj. lia. }
  destruct (fold_stepSpec _ _ (seq 0 NUM_SW) s1
              (debounceSwitch_stepSpec (now p) (pins p)) Hwf1 NoDup_seq06 Hlt)
    as (W2 & V2 & _ & D2 & L45 & L56 & C2 & U2).
  destruct (emit_fold (debounceSwitch (now p) (pins p)) (seq 0 NUM_SW) s1)
    as [s2 e2]; cbn [fst snd] in W2, V2, D2, L45, L56, C2, U2.
  rewrite S1 in V2, D2, L45, L56.
  assert (forall i, (i < NUM_SW)%nat ->
            view i (sw s2) = fst (afterDebounce p i (sw st))) as V2'.
  { intros i Hi. apply V2. apply list_elem_of_In, in_seq. lia. }
  assert (chord45 (sw s2) = chord45Next p (sw st)) as E45.
  { rewrite chord45_view, !V2' by (unfold NUM_SW; lia). done. }
  assert (chord56 (sw s2) = chord56Next p (sw st)) as E56.
  { rewrite chord56_view, !V2' by (unfold NUM_SW; lia). done. }
  destruct (chordBlocks_spec s2 W2) as (W3 & V3 & L45' & L56' & D3 & C3 & U3).
  destruct (chordBlocks s2) as [s3 e3]; cbn [fst snd] in W3, V3, L45', L56', D3, C3, U3.
  rewrite E45, E56, L45, L56 in *.
  change (chord45Next p (sw st) && negb (chord45Latched (sw st)))
    with (fires45 p (sw st)) in *.
  change (chord56Next p (sw st) && negb (chord56Latched (sw st)))
    with (fires56 p (sw st)) in *.
  assert (forall i, (i < NUM_SW)%nat -> view i (sw s3) = afterChord p i (sw st)) as V3'.
  { intros i Hi. rewrite V3, V2' by done. unfold afterChord.
    by destruct (fires45 p (sw st) || fires56 p (sw st)). }
  assert (chord45 (sw s3) = chord45Next p (sw st)) as E45'.
  { rewrite chord45_view, !V3 by (unfold NUM_SW; lia).
    rewrite <- E45, chord45_view.
    destruct (fires45 p (sw st) || fires56 p (sw st)); done. }
  assert (chord56 (sw s3) = chord56Next p (sw st)) as E56'.
  { rewrite chord56_view, !V3 by (unfold NUM_SW; lia).
    rewrite <- E56, chord56_view.
    destruct (fires45 p (sw st) || fires56 p (sw st)); done. }
  rewrite E45', E56'.
  destruct (chord45Next p (sw st) || chord56Next p (sw st)) eqn:Eany.
  - cbn [fst snd]. rewrite !dispatches_app, !chordDowns_app, !chordUps_app.
    rewrite D1, D2, D3, C1, C2, C3, U1, U2, U3.
    split_and!; try done;
      try (by rewrite ?app_nil_r);
      try (by destruct (fires45 p (sw st)));
      try (by destruct (fires56 p (sw st))).
    intros i Hi. rewrite V3' by done. unfold afterLoop. by rewrite Eany.
  - assert (NoDup [3; 4; 5]%nat) as Hnd by exact (NoDup_seq 3 3).
    assert (Forall (fun j => (j < NUM_SW)%nat) [3; 4; 5]%nat) as Hlt3
      by (unfold NUM_SW; repeat constructor; lia).
    destruct (fold_stepSpec _ _ [3; 4; 5]%nat s3
                (timeoutSwitch_stepSpec (now p)) W3 Hnd Hlt3)
      as (W4 & V4 & O4 & D4 & L45'' & L56'' & C4 & U4).
    destruct (emit_fold (timeoutSwitch (now p)) [3; 4; 5]%nat s3)
      as [s4 e4]; cbn [fst snd] in W4, V4, O4, D4, L45'', L56'', C4, U4.
    cbn [fst snd]. rewrite !dispatches_app, !chordDowns_app, !chordUps_app.
    rewrite D1, D2, D3, D4, C1, C2, C3, C4, U1, U2, U3, U4.
    split_and!; try done; try congruence;
      try (destruct (fires45 p (sw st)); simpl; lia);
      try (destruct (fires56 p (sw st)); simpl; lia).
    + intros i Hi. unfold afterLoop. rewrite Eany.
      destruct (isArb i) eqn:Ea.
      * rewrite V4, V3' by first [done | by apply isArb_elem].
        by destruct (timeoutView (now p) (afterChord p i (sw st))).
      * rewrite O4, V3'; [done|done|].
        rewrite <- isArb_elem. congruence.
    + simpl. rewrite !V3' by (unfold NUM_SW; lia). done.
Qed.

Lemma filter_pair_same {B} (i : nat) (l : list B) :
  filter (fun d : nat * B => fst d = i) (map (pair i) l) = map (pair i) l.
Proof.
  induction l as [|x l IH]; simpl; [done|].
  rewrite filter_cons_True by done. by rewrite IH.
Qed.

Lemma filter_pair_other {B} (i j : nat) (l : list B) :
  j <> i -> filter (fun d : nat * B => fst d = i) (map (pair j) l) = [].
Proof.
  intros Hne. induction l as [|x l IH]; simpl; [done|].
  by rewrite filter_cons_False.
Qed.

Lemma map_snd_pair {B} (i : nat) (l : list B) : map snd (map (pair i) l) = l.
Proof. induction l; simpl; congruence. Qed.

Lemma dispatchesOf_flat (f : nat -> list bool) (js : list nat) (i : nat) :
  NoDup js ->
  map snd (filter (fun d : nat * bool => fst d = i)
                  (flat_map (fun j => map (pair j) (f j)) js))
  = if bool_decide (i ∈ js) then f i else [].
Proof.
  induction js as [|j js IH]; intros Hnd.
  - rewrite bool_decide_eq_false_2; [done|]. apply not_elem_of_nil.
  - apply NoDup_cons in Hnd as [Hj Hnd]. cbn [flat_map].
    rewrite filter_app, map_app, IH by done.
    destruct (decide (j = i)) as [->|Hne].
    + rewrite filter_pair_same, map_snd_pair.
      rewrite (bool_decide_eq_false_2 (i ∈ js)) by done.
      rewrite bool_decide_eq_true_2 by apply list_elem_of_here.
      by rewrite app_nil_r.
    + rewrite filter_pair_other by done. cbn [map app].
      destruct (decide (i ∈ js)) as [Hin|Hin].
      * rewrite !bool_decide_eq_true_2; [done| |done].
        by apply list_elem_of_further.
      * rewrite !bool_decide_eq_false_2; [done| |done].
        intros [?|?]%elem_of_cons; congruence.
Qed.

Lemma elem_seq06 i : (i < NUM_SW)%nat -> i ∈ seq 0 NUM_SW.
Proof. intros Hi. apply list_elem_of_In, in_seq. lia. Qed.

(** What one pass dispatches for switch [i], read off its own cells. *)
Lemma loop_dispatchesOf p st i :
  wf_sw (sw st) -> (i < NUM_SW)%nat ->
  dispatchesOf i (snd (loop p st)) = snd (afterLoop p i (sw st)).
Proof.
  intros Hwf Hi. destruct (loop_spec p st Hwf) as (_ & _ & _ & _ & D & _).
  unfold dispatchesOf. rewrite D, filter_app, map_app.
  rewrite dispatchesOf_flat by apply NoDup_seq06.
  rewrite bool_decide_eq_true_2 by by apply elem_seq06.
  unfold afterLoop.
  destruct (chord45Next p (sw st) || chord56Next p (sw st)).
  { simpl. by rewrite app_nil_r. }
  rewrite dispatchesOf_flat by exact (NoDup_seq 3 3).
  destruct (isArb i) eqn:Ea.
  - rewrite bool_decide_eq_true_2 by by apply isArb_elem.
    by destruct (timeoutView (now p) (afterChord p i (sw st))).
  - rewrite bool_decide_eq_false_2; [by rewrite app_nil_r|].
    rewrite <- isArb_elem. congruence.
Qed.

Lemma afterLoop_stable p i w :
  vStable (fst (afterLoop p i w)) = stableNext p i w.
Proof.
  unfold afterLoop, afterChord, stableNext, timeoutView, clearView.
  destruct (afterDebounce p i w) as [v d]; simpl.
  repeat match goal with
  | |- context [if ?b then _ else _] => destruct b; simpl
  end; done.
Qed.

Lemma loop_stable p st i :
  wf_sw (sw st) -> (i < NUM_SW)%nat ->
  stableState (sw (fst (loop p st))) !!! i = stableNext p i (sw st).
Proof.
  intros Hwf Hi. destruct (loop_spec p st Hwf) as (_ & V & _).
  rewrite <- afterLoop_stable, <- V by done. done.
Qed.

Lemma loop_chord45 p st :
  wf_sw (sw st) -> chord45 (sw (fst (loop p st))) = chord45Next p (sw st).
Proof.
  intros Hwf. unfold chord45, chord45Next.
  by rewrite !loop_stable by (done || unfold NUM_SW; lia).
Qed.

Lemma loop_chord56 p st :
  wf_sw (sw st) -> chord56 (sw (fst (loop p st))) = chord56Next p (sw st).
Proof.
  intros Hwf. unfold chord56, chord56Next.
  by rewrite !loop_stable by (done || unfold NUM_SW; lia).
Qed.

Lemma loop_wf p st : wf_sw (sw st) -> wf_sw (sw (fst (loop p st))).
Proof. intros Hwf. by destruct (loop_spec p st Hwf) as (W & _). Qed.

(** After any pass the latches agree with the stable states. *)
Lemma loop_latchesSettled p st :
  wf_sw (sw st) -> latchesSettled (sw (fst (loop p st))) = true.
Proof.
  intros Hwf. destruct (loop_spec p st Hwf) as (_ & _ & L45 & L56 & _).
  unfold latchesSettled.
  rewrite L45, L56, loop_chord45, loop_chord56 by done.
  by rewrite !eqb_reflx.
Qed.

(** ** The chord arbiter on one of the switches 3, 4, 5 *)

Lemma afterLoop_arb p i w :
  isArb i = true ->
  afterLoop p i w =
    (let '(v1, d) := debounceView (now p) (pins p !!! i) true (view i w) in
     let v2 := if fires45 p w || fires56 p w then clearView true v1 else v1 in
     if chord45Next p w || chord56Next p w then (v2, d)
     else let '(v3, t) := timeoutView (now p) v2 in (v3, d ++ t)).
Proof.
  intros Ha. unfold afterLoop, afterChord, afterDebounce. rewrite Ha.
  destruct (debounceView _ _ _ _) as [v1 d]; simpl.
  destruct (fires45 p w || fires56 p w), (chord45Next p w || chord56Next p w);
    simpl; try done; by destruct (timeoutView _ _).
Qed.

Lemma stableNext_arb p i w :
  isArb i = true ->
  stableNext p i w = vStable (fst (debounceView (now p) (pins p !!! i) true (view i w))).
Proof. intros Ha. unfold stableNext, afterDebounce. by rewrite Ha. Qed.

Lemma fires_any p w :
  fires45 p w || fires56 p w = true -> chord45Next p w || chord56Next p w = true.
Proof.
  unfold fires45, fires56.
  destruct (chord45Next p w), (chord56Next p w), (chord45Latched w),
    (chord56Latched w); simpl; congruence.
Qed.

Lemma u32_self now : u32 (now - now) = 0.
Proof. unfold u32. by rewrite Z.sub_diag. Qed.

(** Case analysis of one pass on an arbitrated switch: every comparison
    and every flag becomes a boolean case. *)
Ltac arb_cases p i w Ha :=
  rewrite ?(afterLoop_arb p i w Ha), ?(stableNext_arb p i w Ha) in *;
  pose proof (fires_any p w) as Hfa;
  revert Hfa;
  generalize (fires45 p w || fires56 p w) as F;
  generalize (chord45Next p w || chord56Next p w) as A;
  generalize (pins p !!! i) as pin;
  destruct (view i w) as [raw stb lraw lchg pend pat snt];
  unfold debounceView, timeoutView, clearView;
  cbn [vRaw vStable vLastRaw vLastChange vPending vPendingAt vSent];
  intros pin A F Hfa.

Ltac bool_cases :=
  repeat match goal with
  | H : context [if ?b then _ else _] |- _ => destruct b eqn:?; simpl in H
  | |- context [if ?b then _ else _] => destruct b eqn:?; simpl
  | H : context [?a && ?b] |- _ => destruct a eqn:?; simpl in H
  | |- context [?a && ?b] => destruct a eqn:?; simpl
  end.

Lemma arb_sound p i w :
  isArb i = true -> soundV (view i w) = true ->
  soundV (fst (afterLoop p i w)) = true.
Proof.
  intros Ha Hs. arb_cases p i w Ha. unfold soundV in *. simpl in *.
  destruct pin, A, F, stb, lraw, pend, snt; simpl in *; try done;
    bool_cases; done.
Qed.

(** With both flags clear the switch dispatches nothing, and unless it is
    freshly pressed in this pass its flags stay clear. *)
Lemma arb_clear_quiet p i w :
  isArb i = true -> clearedV (view i w) = true ->
  snd (afterLoop p i w) = [] /\
  (clearedV (fst (afterLoop p i w)) = false ->
   vStable (view i w) = false /\ stableNext p i w = true).
Proof.
  intros Ha Hs. arb_cases p i w Ha. unfold clearedV in *. simpl in *.
  destruct pin, A, F, stb, lraw, pend, snt; simpl in *; try done;
    bool_cases; rewrite ?u32_self in *; done.
Qed.

(** A chord that fires clears both flags. *)
Lemma arb_fired_clear p i w :
  isArb i = true -> fires45 p w || fires56 p w = true ->
  clearedV (fst (afterLoop p i w)) = true.
Proof.
  intros Ha Hf. pose proof (fires_any p w Hf) as Hany. revert Hf Hany.
  arb_cases p i w Ha. intros -> ->. unfold clearedV. simpl.
  bool_cases; done.
Qed.


(** ** The arbiter invariant is kept by every pass *)

Lemma loop_view p st i :
  wf_sw (sw st) -> (i < NUM_SW)%nat ->
  view i (sw (fst (loop p st))) = fst (afterLoop p i (sw st)).
Proof. intros Hwf Hi. destruct (loop_spec p st Hwf) as (_ & V & _). by apply V. Qed.

Lemma loop_arbInv p st :
  wf_sw (sw st) -> arbInv (sw st) = true -> arbInv (sw (fst (loop p st))) = true.
Proof.
  intros Hwf Hinv.
  destruct (loop_spec p st Hwf) as (_ & _ & L45 & L56 & _).
  unfold arbInv, flagsClear, flagsSound in *.
  rewrite L45, L56, loop_chord45, loop_chord56 by done.
  rewrite !loop_view by (done || unfold NUM_SW; lia).
  assert (isArb 3 = true /\ isArb 4 = true /\ isArb 5 = true) as (A3 & A4 & A5) by (repeat split).
  pose proof (arb_sound p 3 (sw st) A3) as S3.
  pose proof (arb_sound p 4 (sw st) A4) as S4.
  pose proof (arb_sound p 5 (sw st) A5) as S5.
  pose proof (arb_clear_quiet p 3 (sw st) A3) as Q3.
  pose proof (arb_clear_quiet p 4 (sw st) A4) as Q4.
  pose proof (arb_clear_quiet p 5 (sw st) A5) as Q5.
  pose proof (arb_fired_clear p 3 (sw st) A3) as F3.
  pose proof (arb_fired_clear p 4 (sw st) A4) as F4.
  pose proof (arb_fired_clear p 5 (sw st) A5) as F5.
  unfold fires45, fires56, chord45Next, chord56Next in *.
  rewrite chord45_view, chord56_view in Hinv.
  revert Hinv S3 S4 S5 Q3 Q4 Q5 F3 F4 F5.
  generalize (soundV (view 3 (sw st))) (soundV (view 4 (sw st)))
             (soundV (view 5 (sw st))).
  generalize (clearedV (view 3 (sw st))) (clearedV (view 4 (sw st)))
             (clearedV (view 5 (sw st))).
  generalize (soundV (fst (afterLoop p 3 (sw st))))
             (soundV (fst (afterLoop p 4 (sw st))))
             (soundV (fst (afterLoop p 5 (sw st)))).
  generalize (clearedV (fst (afterLoop p 3 (sw st))))
             (clearedV (fst (afterLoop p 4 (sw st))))
             (clearedV (fst (afterLoop p 5 (sw st)))).
  generalize (stableNext p 3 (sw st)) (stableNext p 4 (sw st))
             (stableNext p 5 (sw st)).
  generalize (vStable (view 3 (sw st))) (vStable (view 4 (sw st)))
             (vStable (view 5 (sw st))).
  generalize (chord45Latched (sw st)) (chord56Latched (sw st)).
  intros l45 l56 s3 s4 s5 n3 n4 n5 c3' c4' c5' o3' o4' o5' c3 c4 c5 o3 o4 o5.
  intros Hinv S3 S4 S5 Q3 Q4 Q5 F3 F4 F5.
  repeat (apply andb_true_iff in Hinv as [Hinv ?]). subst.
  rewrite S3, S4, S5 by done.
  assert (forall (P : Prop) (c c' s n : bool),
            (c = true -> P /\ (c' = false -> s = false /\ n = true)) ->
            c = true -> (s = true \/ n = false) -> c' = true) as Hq.
  { intros P c c' s n Hc -> Hsn. destruct c'; [done|].
    destruct Hc as [_ Hc]; [done|]. destruct (Hc eq_refl) as [-> ->].
    by destruct Hsn. }
  destruct l45, l56, s3, s4, s5; simpl in *; try done;
    destruct n3, n4, n5; simpl in *; try done;
    rewrite ?F3, ?F4, ?F5 by done; try done;
    repeat match goal with
    | H : ?a && ?b = true |- _ => apply andb_true_iff in H as [? ?]
    end; subst;
    rewrite (Hq _ _ _ _ _ Q3), (Hq _ _ _ _ _ Q4), (Hq _ _ _ _ _ Q5) by auto; done.
Qed.

(** ** The life of a single press on switches 3, 4, 5 *)

Ltac view_cases :=
  unfold soundV, clearedV, pendingV, committedV;
  cbn [vRaw vStable vLastRaw vLastChange vPending vPendingAt vSent];
  intros;
  repeat match goal with
  | H : _ && _ = true |- _ => apply andb_true_iff in H as [? ?]
  | H : negb _ = true |- _ => apply negb_true_iff in H
  | H : (_ =? _) = true |- _ => apply Z.eqb_eq in H
  end; subst;
  bool_cases; rewrite ?u32_self in *; simpl in *;
  rewrite ?Z.eqb_refl; try done; try lia.

Lemma arb_press p i w :
  isArb i = true -> soundV (view i w) = true ->
  vStable (view i w) = false -> stableNext p i w = true ->
  chord45Next p w || chord56Next p w = false ->
  snd (afterLoop p i w) = [] /\ pendingV (now p) (fst (afterLoop p i w)) = true.
Proof. intros Ha. arb_cases p i w Ha. view_cases. Qed.

Lemma arb_pending_hold p i w t0 :
  isArb i = true -> pendingV t0 (view i w) = true ->
  stableNext p i w = true ->
  chord45Next p w || chord56Next p w = false ->
  u32 (now p - t0) < CHORD_WINDOW_MS ->
  snd (afterLoop p i w) = [] /\ pendingV t0 (fst (afterLoop p i w)) = true.
Proof. intros Ha. arb_cases p i w Ha. view_cases. Qed.

Lemma arb_tap p i w t0 :
  isArb i = true -> pendingV t0 (view i w) = true ->
  stableNext p i w = false ->
  snd (afterDebounce p i w) = [true; false] /\
  snd (afterLoop p i w) = [true; false] /\
  clearedV (fst (afterLoop p i w)) = true.
Proof.
  intros Ha. unfold afterDebounce. rewrite Ha. arb_cases p i w Ha. view_cases.
Qed.

Lemma arb_commit p i w t0 :
  isArb i = true -> pendingV t0 (view i w) = true ->
  stableNext p i w = true ->
  chord45Next p w || chord56Next p w = false ->
  CHORD_WINDOW_MS <= u32 (now p - t0) ->
  snd (afterLoop p i w) = [true] /\ committedV (fst (afterLoop p i w)) = true.
Proof. intros Ha. arb_cases p i w Ha. view_cases. Qed.

Lemma arb_committed_hold p i w :
  isArb i = true -> committedV (view i w) = true ->
  stableNext p i w = true ->
  chord45Next p w || chord56Next p w = false ->
  snd (afterLoop p i w) = [] /\ committedV (fst (afterLoop p i w)) = true.
Proof. intros Ha. arb_cases p i w Ha. view_cases. Qed.

Lemma arb_release p i w :
  isArb i = true -> committedV (view i w) = true ->
  stableNext p i w = false ->
  snd (afterLoop p i w) = [false] /\ clearedV (fst (afterLoop p i w)) = true.
Proof. intros Ha. arb_cases p i w Ha. view_cases. Qed.

(** ** The debounce filter on any switch *)




(** ** Runs *)

Lemma run_cons p ps st :
  run (p :: ps) st = (fst (run ps (fst (loop p st))),
                      snd (loop p st) ++ snd (run ps (fst (loop p st)))).
Proof.
  unfold run; simpl. destruct (loop p st) as [s1 e1]; simpl.
  by destruct (emit_fold loop ps s1).
Qed.

Lemma run_app ps qs st :
  run (ps ++ qs) st = (fst (run qs (fst (run ps st))),
                       snd (run ps st) ++ snd (run qs (fst (run ps st)))).
Proof.
  unfold run. rewrite emit_fold_app.
  destruct (emit_fold loop ps st) as [s1 e1]; simpl.
  by destruct (emit_fold loop qs s1).
Qed.

Lemma passes_cons p ps st :
  passes (p :: ps) st
  = mkPass st p (snd (loop p st)) (fst (loop p st)) :: passes ps (fst (loop p st)).
Proof. simpl. by destruct (loop p st). Qed.

Lemma run_wf ps st : wf_sw (sw st) -> wf_sw (sw (fst (run ps st))).
Proof.
  revert st. induction ps as [|p ps IH]; intros st Hwf; [done|].
  rewrite run_cons; simpl. apply IH. by apply loop_wf.
Qed.

Lemma run_arbInv ps st :
  wf_sw (sw st) -> arbInv (sw st) = true -> arbInv (sw (fst (run ps st))) = true.
Proof.
  revert st. induction ps as [|p ps IH]; intros st Hwf Hinv; [done|].
  rewrite run_cons; simpl. apply IH; [by apply loop_wf | by apply loop_arbInv].
Qed.

(** A switch of the arbiter whose flags are clear stays silent for as long
    as it is not freshly pressed. *)
Lemma quiet_run i ps st :
  isArb i = true -> wf_sw (sw st) -> clearedV (view i (sw st)) = true ->
  Forall (fun s => ~ (stableState (sw (before s)) !!! i = false /\
                      stableState (sw (after s)) !!! i = true)) (passes ps st) ->
  dispatchesOf i (snd (run ps st)) = [] /\
  clearedV (view i (sw (fst (run ps st)))) = true.
Proof.
  intros Ha. assert (i < NUM_SW)%nat as Hi.
  { apply isArb_cases in Ha. unfold NUM_SW. lia. }
  revert st. induction ps as [|p ps IH]; intros st Hwf Hc Hall; [done|].
  rewrite passes_cons in Hall. apply Forall_cons in Hall as [Hp Hall].
  simpl in Hp. rewrite run_cons; simpl.
  destruct (arb_clear_quiet p i (sw st) Ha Hc) as [Hd Hk].
  rewrite dispatchesOf_app, loop_dispatchesOf, Hd by done.
  apply IH; [by apply loop_wf | | done].
  rewrite loop_view by done.
  destruct (clearedV (fst (afterLoop p i (sw st)))); [done|].
  exfalso. apply Hp. rewrite loop_stable by done. by apply Hk.
Qed.

(** A press held back since [t0] stays held back, silently, while the
    switch stays pressed, no chord is active and the window is open. *)
Lemma pending_run i t0 ps st :
  isArb i = true -> wf_sw (sw st) -> pendingV t0 (view i (sw st)) = true ->
  Forall (fun s => stableState (sw (after s)) !!! i = true /\
                   chord45 (sw (after s)) || chord56 (sw (after s)) = false /\
                   u32 (now (poll s) - t0) < CHORD_WINDOW_MS) (passes ps st) ->
  dispatchesOf i (snd (run ps st)) = [] /\
  pendingV t0 (view i (sw (fst (run ps st)))) = true.
Proof.
  intros Ha. assert (i < NUM_SW)%nat as Hi.
  { apply isArb_cases in Ha. unfold NUM_SW. lia. }
  revert st. induction ps as [|p ps IH]; intros st Hwf Hc Hall; [done|].
  rewrite passes_cons in Hall. apply Forall_cons in Hall as [(H1 & H2 & H3) Hall].
  cbn [before after emitted poll] in H1, H2, H3. rewrite run_cons; simpl.
  rewrite loop_stable in H1 by done.
  rewrite loop_chord45, loop_chord56 in H2 by done.
  destruct (arb_pending_hold p i (sw st) t0 Ha Hc H1 H2 H3) as [Hd Hk].
  rewrite dispatchesOf_app, loop_dispatchesOf, Hd by done.
  apply IH; [by apply loop_wf | | done]. by rewrite loop_view.
Qed.

(** A committed press stays committed, silently, while the switch stays
    pressed and no chord is active. *)
Lemma committed_run i ps st :
  isArb i = true -> wf_sw (sw st) -> committedV (view i (sw st)) = true ->
  Forall (fun s => stableState (sw (after s)) !!! i = true /\
                   chord45 (sw (after s)) || chord56 (sw (after s)) = false)
         (passes ps st) ->
  dispatchesOf i (snd (run ps st)) = [] /\
  committedV (view i (sw (fst (run ps st)))) = true.
Proof.
  intros Ha. assert (i < NUM_SW)%nat as Hi.
  { apply isArb_cases in Ha. unfold NUM_SW. lia. }
  revert st. induction ps as [|p ps IH]; intros st Hwf Hc Hall; [done|].
  rewrite passes_cons in Hall. apply Forall_cons in Hall as [(H1 & H2) Hall].
  cbn [before after emitted poll] in H1, H2. rewrite run_cons; simpl.
  rewrite loop_stable in H1 by done.
  rewrite loop_chord45, loop_chord56 in H2 by done.
  destruct (arb_committed_hold p i (sw st) Ha Hc H1 H2) as [Hd Hk].
  rewrite dispatchesOf_app, loop_dispatchesOf, Hd by done.
  apply IH; [by apply loop_wf | | done]. by rewrite loop_view.
Qed.

(** The calls a pass makes for switch [i] while debouncing sit together in
    the sequence of all its calls. *)
Lemma seq_split (n i : nat) :
  (i < n)%nat -> seq 0 n = seq 0 i ++ i :: seq (S i) (n - S i).
Proof.
  intros Hi. replace n with (i + S (n - S i))%nat at 1 by lia.
  rewrite seq_app. reflexivity.
Qed.

Lemma loop_dispatches_split p st i :
  wf_sw (sw st) -> (i < NUM_SW)%nat ->
  exists pre post,
    dispatches (snd (loop p st))
    = pre ++ map (pair i) (snd (afterDebounce p i (sw st))) ++ post.
Proof.
  intros Hwf Hi. destruct (loop_spec p st Hwf) as (_ & _ & _ & _ & D & _).
  rewrite D, (seq_split NUM_SW i Hi), flat_map_app. cbn [flat_map].
  rewrite <- !app_assoc. eexists _, _. reflexivity.
Qed.

Lemma dispatchesOf_nil_free i evs :
  dispatchesOf i evs = [] -> Forall (fun d => fst d <> i) (dispatches evs).
Proof.
  unfold dispatchesOf. intros H. apply fmap_nil_inv in H.
  apply Forall_forall. intros d Hd Hi.
  exact (filter_nil_not_elem_of _ _ d H Hi Hd).
Qed.

Lemma pair_free i (a b : bool) (pre post dl : list (nat * bool)) :
  dl = pre ++ [(i, a); (i, b)] ++ post ->
  map snd (filter (fun d => fst d = i) dl) = [a; b] ->
  Forall (fun d => fst d <> i) (pre ++ post).
Proof.
  intros -> H. rewrite !filter_app, !map_app in H.
  rewrite !filter_cons_True, filter_nil in H by done. simpl in H.
  assert (length (map snd (filter (fun d => fst d = i) pre)) = 0
          /\ length (map snd (filter (fun d => fst d = i) post)) = 0)%nat as [H1 H2].
  { apply (f_equal length) in H. rewrite length_app in H. simpl in H.
    rewrite !length_map in *. lia. }
  rewrite length_map in H1, H2. apply nil_length_inv in H1, H2.
  apply Forall_app. split; apply Forall_forall; intros d Hd Hi.
  - exact (filter_nil_not_elem_of _ _ d H1 Hi Hd).
  - exact (filter_nil_not_elem_of _ _ d H2 Hi Hd).
Qed.

(** ** The debounce filter in one pass *)


(** ** The debounce timer and the raw samples *)


Lemma lastFlip_snoc i pre p : forall r0 t0,
  lastFlip i r0 t0 (pre ++ [p])
  = (pins p !!! i,
     if xorb (pins p !!! i) (fst (lastFlip i r0 t0 pre)) then now p
     else snd (lastFlip i r0 t0 pre)).
Proof. induction pre as [|q pre IH]; intros r0 t0; cbn; [done|]. apply IH. Qed.




(** ** What the chord block does to the configuration *)





(** ** Tokens of a SET line *)

Lemma fields_split s :
  match split_comma s with
  | (f, None) => fields s = [f]
  | (f, Some rest) => fields s = f :: fields rest
  end.
Proof.
  induction s as [|c s IH]; simpl; [done|].
  destruct (Ascii.eqb c ","); [done|].
  destruct (split_comma s) as [f [rest|]]; rewrite IH; done.
Qed.

Lemma nextTok_cursor p :
  match cursorFields p with
  | [] => nextTok p = (None, None)
  | f :: fs => exists p', nextTok p = (Some (trimmed f), p') /\ cursorFields p' = fs
  end.
Proof.
  destruct p as [s|]; simpl; [|done].
  pose proof (fields_split s) as H.
  destruct (split_comma s) as [f [rest|]]; rewrite H; eauto.
Qed.

Lemma nextTok_none p : cursorFields p = [] -> nextTok p = (None, None).
Proof. intros H. pose proof (nextTok_cursor p) as H'. by rewrite H in H'. Qed.

(** The body of [applySetLine] after its eight tokens have been read. *)
Lemma applySetLine_tokens line c :
  match tokens line with
  | tBank :: tSw :: tLab :: tType :: tCh :: tNum :: tVP :: tVR :: _ =>
      let bank := atoi tBank in
      let sw := atoi tSw in
      if (bank <? 1) || (Z.of_nat NUM_BANKS <? bank)
         || (sw <? 1) || (Z.of_nat NUM_SW <? sw)
      then applySetLine line c = (c, [SerialLine "ERR,BAD_INDEX"])
      else
        let b := Z.to_nat (u8 (bank - 1)) in
        let s := Z.to_nat (u8 (sw - 1)) in
        let c' := with_togState (gset (togState c) b s false)
                    (with_cfg (gset (cfg c) b s
                                 (setSlot tLab tType tCh tNum tVP tVR)) c) in
        applySetLine line c
        = (c', (if bank =? currentBank c
                then [drawLabelsForBank (currentBank c) (cfg c')] else [])
               ++ [SerialLine "OK,SET"])
  | _ => applySetLine line c = (c, [SerialLine "ERR,BAD_SET_FORMAT"])
  end.
Proof.
  unfold tokens, applySetLine.
  change (fields (drop 4 line)) with (cursorFields (Some (drop 4 line))).
  generalize (Some (drop 4 line)) as p0. intros p0.
  repeat match goal with
  | |- context [nextTok ?p] =>
      let H := fresh "H" in
      pose proof (nextTok_cursor p) as H;
      destruct (cursorFields p) as [|? ?] eqn:?;
      [ rewrite H; cbn [map];
        repeat match goal with
               | |- context [nextTok ?q] => rewrite (nextTok_none q) by done
               end; done
      | destruct H as (? & -> & ?); subst; cbn [map] ]
  end.
  cbv zeta.
  destruct (_ || _); done.
Qed.

(** ** Loops and grids *)

Lemma for_upto_S {S} n (body : nat -> S -> S) s :
  for_upto (Datatypes.S n) body s = body n (for_upto n body s).
Proof. unfold for_upto. by rewrite seq_S, fold_left_app. Qed.

Lemma for_upto_ind {S} (P : nat -> S -> Prop) n (body : nat -> S -> S) s :
  P 0%nat s ->
  (forall i s, (i < n)%nat -> P i s -> P (Datatypes.S i) (body i s)) ->
  P n (for_upto n body s).
Proof.
  intros H0 Hstep. induction n as [|n IH]; [done|].
  rewrite for_upto_S. apply Hstep; [lia|]. apply IH. intros i s' Hi. apply Hstep. lia.
Qed.

Lemma wf_grid_row {A} (g : list (list A)) b :
  wf_grid g -> (b < NUM_BANKS)%nat -> exists row, g !! b = Some row /\ length row = NUM_SW.
Proof.
  intros [Hl Hr] Hb. destruct (lookup_lt_is_Some_2 g b) as [row Hrow]; [lia|].
  exists row. split; [done|]. by eapply (Forall_lookup_1 _ _ _ _ Hr Hrow).
Qed.

Lemma wf_grid_gset {A} (g : list (list A)) b s v :
  wf_grid g -> wf_grid (gset g b s v).
Proof.
  intros [Hl Hr]. unfold wf_grid, gset. rewrite length_alter. split; [done|].
  apply Forall_alter; [done|]. intros row ? Hrow. rewrite length_insert.
  by eapply (Forall_lookup_1 _ _ _ _ Hr).
Qed.

Lemma gget_gset_eq {A} `{Inhabited A} (g : list (list A)) b s v :
  wf_grid g -> (b < NUM_BANKS)%nat -> (s < NUM_SW)%nat ->
  gget (gset g b s v) b s = v.
Proof.
  intros Hwf Hb Hs. destruct (wf_grid_row g b Hwf Hb) as (row & Hrow & Hlen).
  unfold gget, gset. destruct Hwf as [Hl _].
  rewrite list_lookup_total_alter_eq by lia.
  rewrite (list_lookup_total_correct _ _ _ Hrow).
  apply list_lookup_total_insert_eq. lia.
Qed.

Lemma gget_gset_ne {A} `{Inhabited A} (g : list (list A)) b s b' s' v :
  (b, s) <> (b', s') -> gget (gset g b s v) b' s' = gget g b' s'.
Proof.
  intros Hne. unfold gget, gset. rewrite list_lookup_total_alter.
  destruct (decide (b = b' /\ (b < length g)%nat)) as [[-> Hlt]|Hb]; [|done].
  apply list_lookup_total_insert_ne. congruence.
Qed.

Lemma grid_ext {A} `{Inhabited A} (g1 g2 : list (list A)) :
  wf_grid g1 -> wf_grid g2 ->
  (forall b s, (b < NUM_BANKS)%nat -> (s < NUM_SW)%nat ->
               gget g1 b s = gget g2 b s) ->
  g1 = g2.
Proof.
  intros Hw1 Hw2 Hall. apply list_eq_same_length with NUM_BANKS;
    [by destruct Hw2 | by destruct Hw1|].
  intros b r1 r2 Hb Hr1 Hr2.
  destruct (wf_grid_row g1 b Hw1 Hb) as (r1' & Hr1' & Hl1).
  destruct (wf_grid_row g2 b Hw2 Hb) as (r2' & Hr2' & Hl2).
  simplify_eq. apply list_eq_same_length with NUM_SW; [done|done|].
  intros s x y Hs Hx Hy. specialize (Hall b s Hb Hs). unfold gget in Hall.
  rewrite (list_lookup_total_correct _ _ _ Hr1),
          (list_lookup_total_correct _ _ _ Hr2),
          (list_lookup_total_correct _ _ _ Hx),
          (list_lookup_total_correct _ _ _ Hy) in Hall. done.
Qed.

(** Filling every cell of a grid, bank by bank. *)
Lemma fill_grid {A} `{Inhabited A} (f : nat -> nat -> A) (g : list (list A)) :
  wf_grid g ->
  let g' := for_upto NUM_BANKS (fun b =>
              for_upto NUM_SW (fun s g => gset g b s (f b s))) g in
  wf_grid g' /\
  forall b s, (b < NUM_BANKS)%nat -> (s < NUM_SW)%nat -> gget g' b s = f b s.
Proof.
  intros Hwf g'. subst g'.
  apply (for_upto_ind (fun n g' => wf_grid g' /\
           forall b s, (b < n)%nat -> (s < NUM_SW)%nat -> gget g' b s = f b s)).
  { split; [done|]. intros; lia. }
  intros b g1 Hb [Hw1 Hf1].
  set (inner := for_upto NUM_SW (fun s g => gset g b s (f b s)) g1).
  assert (wf_grid inner /\
          (forall b' s, (b' < b)%nat -> (s < NUM_SW)%nat -> gget inner b' s = f b' s) /\
          (forall s, (s < NUM_SW)%nat -> gget inner b s = f b s)) as (Hw & Ha & Hb').
  { subst inner.
    apply (for_upto_ind (fun n g' => wf_grid g' /\
           (forall b' s, (b' < b)%nat -> (s < NUM_SW)%nat -> gget g' b' s = f b' s) /\
           (forall s, (s < n)%nat -> gget g' b s = f b s))).
    { split_and!; [done|done|]. intros; lia. }
    intros s g2 Hs (Hw2 & Ha & Hb'). split_and!.
    - by apply wf_grid_gset.
    - intros b' s' Hlt Hs'. rewrite gget_gset_ne; [by apply Ha|]. intros [= -> ->]. lia.
    - intros s' Hs'. destruct (decide (s' = s)) as [->|].
      + by apply gget_gset_eq.
      + rewrite gget_gset_ne; [apply Hb'; lia|]. intros [= ->]. done. }
  split; [done|].
  intros b' s Hlt Hs. destruct (decide (b' = b)) as [->|]; [by apply Hb'|].
  apply Ha; [lia|done].
Qed.

(** ** EEPROM cells: reading what was written *)

Lemma slotAddr_eq b s :
  (b < NUM_BANKS)%nat -> (s < NUM_SW)%nat ->
  slotAddr b s = 4 + 9 * (6 * Z.of_nat b + Z.of_nat s).
Proof.
  unfold slotAddr, NUM_BANKS, NUM_SW, EEPROM_DATA_ADDR. intros Hb Hs.
  change (Z.of_nat 6) with 6.
  rewrite (Z.mod_small (Z.of_nat b * 6 + Z.of_nat s)) by lia.
  rewrite Z.mod_small by lia. lia.
Qed.

Lemma EEPROM_update_length a v e : length (EEPROM_update a v e) = length e.
Proof. apply length_insert. Qed.

Lemma EEPROM_read_update_eq a v e :
  (Z.to_nat a < length e)%nat -> EEPROM_read a (EEPROM_update a v e) = u8 v.
Proof.
  intros Hlt. unfold EEPROM_read, EEPROM_update.
  by rewrite list_lookup_insert_eq.
Qed.

Lemma EEPROM_read_update_ne a a' v e :
  0 <= a -> 0 <= a' -> a <> a' ->
  EEPROM_read a (EEPROM_update a' v e) = EEPROM_read a e.
Proof.
  intros Ha Ha' Hne. unfold EEPROM_read, EEPROM_update.
  rewrite list_lookup_insert_ne; [done|lia].
Qed.

Lemma eepromWriteSlot_length b s slot e :
  length (eepromWriteSlot b s slot e) = length e.
Proof. unfold eepromWriteSlot. by rewrite !EEPROM_update_length. Qed.

Ltac cells :=
  repeat first
    [ rewrite EEPROM_read_update_eq by (rewrite ?EEPROM_update_length; lia)
    | rewrite EEPROM_read_update_ne by lia ].

Lemma eepromWriteSlot_holds b s slot e :
  0 <= slotAddr b s -> (Z.to_nat (slotAddr b s + 8) < length e)%nat ->
  holdsSlot (eepromWriteSlot b s slot e) (slotAddr b s) slot.
Proof.
  unfold eepromWriteSlot, holdsSlot. generalize (slotAddr b s) as a.
  intros a Ha Hlen. cbv zeta. split_and!; cells; done.
Qed.

Lemma eepromWriteSlot_other b s slot e a' :
  0 <= slotAddr b s -> 0 <= a' ->
  a' < slotAddr b s \/ slotAddr b s + 9 <= a' ->
  EEPROM_read a' (eepromWriteSlot b s slot e) = EEPROM_read a' e.
Proof.
  unfold eepromWriteSlot. generalize (slotAddr b s) as a.
  intros a Ha Ha' Hout. cbv zeta. cells. done.
Qed.

Lemma holdsSlot_other b s slot e a slot' :
  0 <= slotAddr b s -> 0 <= a ->
  a + 9 <= slotAddr b s \/ slotAddr b s + 9 <= a ->
  holdsSlot e a slot' -> holdsSlot (eepromWriteSlot b s slot e) a slot'.
Proof.
  intros Hb Ha Hout H. unfold holdsSlot in *.
  rewrite !eepromWriteSlot_other by lia. exact H.
Qed.

Lemma EEPROM_get32_put32 e :
  (4 <= length e)%nat ->
  EEPROM_get32 EEPROM_MAGIC_ADDR (EEPROM_put32 EEPROM_MAGIC_ADDR EEPROM_MAGIC e)
  = EEPROM_MAGIC.
Proof.
  intros Hlen. unfold EEPROM_get32, EEPROM_put32, EEPROM_MAGIC_ADDR.
  cells. reflexivity.
Qed.

Lemma EEPROM_put32_length a v e : length (EEPROM_put32 a v e) = length e.
Proof. unfold EEPROM_put32. by rewrite !EEPROM_update_length. Qed.

(** What [saveAllToEEPROM] leaves in the cells. *)
Lemma save_image (g : list (list Slot)) (e : list Z) :
  (220 <= length e)%nat ->
  let e' := for_upto NUM_BANKS (fun b =>
              for_upto NUM_SW (fun s e =>
                eepromWriteSlot b s (gget g b s) e))
              (EEPROM_put32 EEPROM_MAGIC_ADDR EEPROM_MAGIC e) in
  length e' = length e /\
  EEPROM_get32 EEPROM_MAGIC_ADDR e' = EEPROM_MAGIC /\
  forall b s, (b < NUM_BANKS)%nat -> (s < NUM_SW)%nat ->
              holdsSlot e' (slotAddr b s) (gget g b s).
Proof.
  intros Hlen e'.
  set (e1 := EEPROM_put32 EEPROM_MAGIC_ADDR EEPROM_MAGIC e) in *.
  assert (length e' = length e /\
          (forall a, 0 <= a < 4 -> EEPROM_read a e' = EEPROM_read a e1) /\
          forall b s, (b < NUM_BANKS)%nat -> (s < NUM_SW)%nat ->
                      holdsSlot e' (slotAddr b s) (gget g b s)) as (H1 & H2 & H3).
  { subst e'.
    apply (for_upto_ind (fun n e' => length e' = length e /\
             (forall a, 0 <= a < 4 -> EEPROM_read a e' = EEPROM_read a e1) /\
             forall b s, (b < n)%nat -> (s < NUM_SW)%nat ->
                         holdsSlot e' (slotAddr b s) (gget g b s))).
    { split_and!; [apply EEPROM_put32_length|done|intros; lia]. }
    intros b e2 Hb (L2 & M2 & S2).
    set (inner := for_upto NUM_SW (fun s e => eepromWriteSlot b s (gget g b s) e) e2).
    assert (length inner = length e /\
            (forall a, 0 <= a < 4 -> EEPROM_read a inner = EEPROM_read a e1) /\
            (forall b' s, (b' < b)%nat -> (s < NUM_SW)%nat ->
                          holdsSlot inner (slotAddr b' s) (gget g b' s)) /\
            (forall s, (s < NUM_SW)%nat ->
                       holdsSlot inner (slotAddr b s) (gget g b s)))
      as (L & M & Sa & Sb).
    { subst inner.
      apply (for_upto_ind (fun n e' => length e' = length e /\
               (forall a, 0 <= a < 4 -> EEPROM_read a e' = EEPROM_read a e1) /\
               (forall b' s, (b' < b)%nat -> (s < NUM_SW)%nat ->
                             holdsSlot e' (slotAddr b' s) (gget g b' s)) /\
               (forall s, (s < n)%nat ->
                          holdsSlot e' (slotAddr b s) (gget g b s)))).
      { split_and!; [done|done|done|intros; lia]. }
      intros s e3 Hs (L3 & M3 & Sa3 & Sb3).
      pose proof (slotAddr_eq b s Hb Hs) as Eb.
      unfold NUM_BANKS, NUM_SW in *. split_and!.
      - by rewrite eepromWriteSlot_length.
      - intros a Ha. rewrite eepromWriteSlot_other by lia. by apply M3.
      - intros b' s' Hb' Hs'.
        pose proof (slotAddr_eq b' s' ltac:(unfold NUM_BANKS; lia) Hs') as Eb'.
        apply holdsSlot_other; [lia|lia|lia|]. by apply Sa3.
      - intros s' Hs'. destruct (decide (s' = s)) as [->|Hne].
        + apply eepromWriteSlot_holds; lia.
        + pose proof (slotAddr_eq b s' Hb ltac:(unfold NUM_SW; lia)) as Eb'.
          apply holdsSlot_other; [lia|lia|lia|]. apply Sb3. lia. }
    split_and!; [done|done|].
    intros b' s Hlt Hs. destruct (decide (b' = b)) as [->|]; [by apply Sb|].
    apply Sa; [lia|done]. }
  split_and!; [done| |done].
  rewrite <- (EEPROM_get32_put32 e) by lia. fold e1.
  unfold EEPROM_get32, EEPROM_MAGIC_ADDR. rewrite !H2 by lia. done.
Qed.

(** ** Decoding a stored slot *)

Lemma u8_small x : 0 <= x < 256 -> u8 x = x.
Proof. intros H. unfold u8. by apply Z.mod_small. Qed.

Lemma byte_of_char_range c : 0 <= byte_of_char c < 256.
Proof.
  unfold byte_of_char. pose proof (N_ascii_bounded c). lia.
Qed.

Lemma char_of_byte_of_char c : char_of_byte (byte_of_char c) = c.
Proof.
  unfold char_of_byte, byte_of_char. rewrite N2Z.id. apply ascii_N_embedding.
Qed.

Lemma ascii_eqb_false (c d : ascii) : c <> d -> Ascii.eqb c d = false.
Proof. intros H. by apply Ascii.eqb_neq. Qed.

Lemma read_back b s slot e :
  holdsSlot e (slotAddr b s) slot -> storable slot ->
  eepromReadSlot b s e = slot.
Proof.
  intros (R0 & R1 & R2 & R3 & R4 & R5 & R6 & R7 & R8)
         ((c0 & c1 & c2 & c3 & Hl & Hc) & Ht & Hch & Hn & Hp & Hr).
  unfold eepromReadSlot. cbv zeta.
  rewrite R0, R1, R2, R3, R4, R5, R6, R7, R8, Hl. cbn [lookup_total list_lookup_total].
  rewrite !(u8_small (byte_of_char _)) by apply byte_of_char_range.
  rewrite !char_of_byte_of_char.
  unfold ACT_CC_ONE_SHOT, ACT_NONE in *.
  rewrite !u8_small by lia.
  repeat (apply Forall_cons in Hc as [[? ?] Hc]).
  rewrite !ascii_eqb_false by done. cbn [orb].
  destruct (Z.ltb_spec (ch slot) 1); [lia|].
  destruct (Z.ltb_spec 16 (ch slot)); [lia|].
  destruct (Z.ltb_spec 6 (type slot)); [lia|]. cbn [orb].
  destruct slot; simpl in *. by subst.
Qed.

(** What [loadAllFromEEPROM] does to a state whose marker matches. *)
Lemma load_grid st :
  wf_grid (cfg (conf st)) ->
  EEPROM_get32 EEPROM_MAGIC_ADDR (eeprom st) = EEPROM_MAGIC ->
  exists g,
    loadAllFromEEPROM st
    = (with_conf (with_cfg g (conf st)) st, true, [SerialLine "OK,LOADED"]) /\
    wf_grid g /\
    forall b s, (b < NUM_BANKS)%nat -> (s < NUM_SW)%nat ->
                gget g b s = eepromReadSlot b s (eeprom st).
Proof.
  intros Hwf Hm. unfold loadAllFromEEPROM. rewrite Hm, Z.eqb_refl. cbn [negb].
  eexists. split; [reflexivity|].
  apply (fill_grid (fun b s => eepromReadSlot b s (eeprom st)) _ Hwf).
Qed.

Lemma wf_grid_default e : wf_grid (cfg (setDefaultConfig (conf (boot e)))).
Proof.
  split; [vm_compute; reflexivity|].
  vm_compute. repeat constructor.
Qed.

(** ** What a SET line stores *)

Lemma fields_sub s f c : f ∈ fields s -> c ∈ f -> c ∈ s.
Proof.
  revert f. induction s as [|a s IH]; intros f Hf Hc; simpl in Hf.
  - apply list_elem_of_singleton in Hf as ->. done.
  - destruct (Ascii.eqb a ",").
    + apply elem_of_cons in Hf as [->|Hf]; [by apply elem_of_nil in Hc|].
      apply list_elem_of_further. by eapply IH.
    + destruct (fields s) as [|f0 fs] eqn:Ef.
      * apply list_elem_of_singleton in Hf as ->.
        apply list_elem_of_singleton in Hc as ->. apply list_elem_of_here.
      * apply elem_of_cons in Hf as [->|Hf].
        -- apply elem_of_cons in Hc as [->|Hc]; [apply list_elem_of_here|].
           apply list_elem_of_further. eapply IH; [apply list_elem_of_here|done].
        -- apply list_elem_of_further. eapply IH; [|done].
           by apply list_elem_of_further.
Qed.

Lemma skip_spaces_sub s c : c ∈ skip_spaces s -> c ∈ s.
Proof.
  induction s as [|a s IH]; simpl; [done|].
  destruct (Ascii.eqb a SPACE); [|done]. intros H. apply list_elem_of_further. auto.
Qed.

Lemma trimmed_sub f c : c ∈ trimmed f -> c ∈ f.
Proof.
  unfold trimmed, trim_trailing. rewrite !list_elem_of_In, <- in_rev.
  rewrite <- !list_elem_of_In. intros H%skip_spaces_sub.
  rewrite list_elem_of_In, <- in_rev, <- list_elem_of_In in H.
  by apply skip_spaces_sub.
Qed.

Lemma drop_sub {A} n (l : list A) x : x ∈ drop n l -> x ∈ l.
Proof.
  revert l. induction n as [|n IH]; intros [|a l]; simpl; try done.
  intros H. apply list_elem_of_further. auto.
Qed.

Lemma tokens_sub line t c : t ∈ tokens line -> c ∈ t -> c ∈ line.
Proof.
  unfold tokens. rewrite list_elem_of_In, in_map_iff.
  intros (f & <- & Hf%list_elem_of_In) Hc.
  eapply drop_sub, fields_sub; [done|]. by apply trimmed_sub.
Qed.

Lemma setSlot_shaped tLab tType tCh tNum tVP tVR :
  NUL ∉ tLab -> setShaped (setSlot tLab tType tCh tNum tVP tVR).
Proof.
  intros Hnul. unfold setShaped, setSlot. cbn [label type ch num vPress vRelease].
  assert (forall i : nat,
            (let c := if (i <? length tLab)%nat then tLab !!! i else SPACE in
             if Ascii.eqb c "_" then SPACE else c) <> NUL) as Hc.
  { intros i. cbv zeta. destruct (Ascii.eqb _ "_"); [done|].
    destruct (Nat.ltb_spec i (length tLab)); [|done].
    intros E. apply Hnul. rewrite <- E. by apply list_elem_of_lookup_total_2. }
  unfold ACT_CC_ONE_SHOT, ACT_NONE.
  split_and!.
  1:{ cbn [seq map app]. eexists _, _, _, _. split; [reflexivity|].
      repeat constructor; apply Hc. }
  all: repeat match goal with
       | |- context [Z.ltb ?a ?b] => destruct (Z.ltb_spec a b)
       end; cbn [orb]; rewrite u8_small by lia; lia.
Qed.

Lemma setTarget_range line b s :
  setTarget line = Some (b, s) -> (b < NUM_BANKS)%nat /\ (s < NUM_SW)%nat.
Proof.
  unfold setTarget, NUM_BANKS, NUM_SW. change (Z.of_nat 4) with 4.
  change (Z.of_nat 6) with 6. destruct (_ <=? _)%nat; [|done].
  destruct (_ || _) eqn:E; [done|]. intros [= <- <-].
  rewrite !orb_false_iff in E. unfold u8.
  rewrite !Z.mod_small by lia. lia.
Qed.

(** The configuration after [applySetLine]: one shaped slot written at the
    target, or nothing written at all. *)
Lemma applySetLine_cfg line c :
  match setTarget line with
  | Some (b, s) =>
      exists slot,
        cfg (fst (applySetLine line c)) = gset (cfg c) b s slot /\
        (NUL ∉ line -> setShaped slot)
  | None => fst (applySetLine line c) = c
  end.
Proof.
  pose proof (applySetLine_tokens line c) as Ht.
  pose proof (tokens_sub line) as Hsub.
  unfold setTarget.
  destruct (tokens line) as [|t0 [|t1 [|t2 [|t3 [|t4 [|t5 [|t6 [|t7 rest]]]]]]]];
    cbn [length Nat.leb]; try (by rewrite Ht).
  cbv zeta in Ht. cbn [lookup_total list_lookup_total].
  destruct (_ || _); [by rewrite Ht|].
  rewrite Ht. cbn [fst cfg with_togState with_cfg].
  eexists. split; [reflexivity|].
  intros Hnul. apply setSlot_shaped. intros Hin. apply Hnul.
  apply (Hsub t2); [|done]. repeat constructor.
Qed.

Lemma processSerialLine_set line st :
  streq (take 4 line) "SET," = true ->
  processSerialLine line st
  = (with_conf (fst (applySetLine line (conf st))) st,
     snd (applySetLine line (conf st))).
Proof.
  intros Hset. unfold processSerialLine. destruct line as [|c0 line]; [done|].
  rewrite Hset. by destruct (applySetLine _ _).
Qed.

(** A run of SET lines: the slots that some line targets end up shaped,
    shaped slots stay shaped, and the EEPROM is not touched. *)
Lemma sets_run (sets : list (list ascii)) st :
  wf_grid (cfg (conf st)) ->
  Forall (fun l => streq (take 4 l) "SET," = true /\ NUL ∉ l) sets ->
  let st1 := fst (emit_fold processSerialLine sets st) in
  wf_grid (cfg (conf st1)) /\ eeprom st1 = eeprom st /\
  forall b s, (b < NUM_BANKS)%nat -> (s < NUM_SW)%nat ->
    setShaped (gget (cfg (conf st)) b s) \/
      (exists l, l ∈ sets /\ setTarget l = Some (b, s)) ->
    setShaped (gget (cfg (conf st1)) b s).
Proof.
  revert st. induction sets as [|l sets IH]; intros st Hwf Hall; cbn [emit_fold fst].
  { split_and!; [done|done|]. intros b s _ _ [H|(l & Hl & _)]; [done|].
    by apply elem_of_nil in Hl. }
  apply Forall_cons in Hall as [[Hset Hnul] Hall].
  rewrite (processSerialLine_set l st Hset).
  set (st' := with_conf (fst (applySetLine l (conf st))) st).
  pose proof (applySetLine_cfg l (conf st)) as Hc.
  assert (wf_grid (cfg (conf st')) /\ eeprom st' = eeprom st /\
          forall b s, (b < NUM_BANKS)%nat -> (s < NUM_SW)%nat ->
            setShaped (gget (cfg (conf st)) b s) \/ setTarget l = Some (b, s) ->
            setShaped (gget (cfg (conf st')) b s)) as (W & E & Sh).
  { subst st'. cbn [conf eeprom with_conf].
    destruct (setTarget l) as [[b0 s0]|] eqn:Et.
    - destruct Hc as (slot & -> & Hslot).
      destruct (setTarget_range l b0 s0 Et) as [Hb0 Hs0].
      split_and!; [by apply wf_grid_gset|done|].
      intros b s Hb Hs Hor. destruct (decide ((b0, s0) = (b, s))) as [[= -> ->]|Hne].
      + rewrite gget_gset_eq by done. by apply Hslot.
      + rewrite gget_gset_ne by done. destruct Hor as [|[= -> ->]]; done.
    - rewrite Hc. split_and!; [done|done|]. intros b s _ _ [|]; done. }
  destruct (emit_fold processSerialLine sets st') as [st1 out1] eqn:Er.
  specialize (IH st' W Hall). rewrite Er in IH. cbn [fst] in IH.
  destruct IH as (W1 & E1 & Sh1). cbn [fst].
  split_and!; [done|congruence|].
  intros b s Hb Hs Hor. apply Sh1; [done|done|].
  destruct Hor as [H|(l' & Hl' & Ht)].
  - left. apply Sh; auto.
  - apply elem_of_cons in Hl' as [->|Hl'].
    + left. apply Sh; auto.
    + right. eauto.
Qed.

(** ** The one-word commands *)

Lemma processSerialLine_SAVE st :
  processSerialLine (list_ascii_of_string "SAVE") st = saveAllToEEPROM st.
Proof. reflexivity. Qed.

Lemma processSerialLine_LOAD st :
  processSerialLine (list_ascii_of_string "LOAD") st
  = (let '(st', ok, out) := loadAllFromEEPROM st in
     if negb ok then (st', out ++ [SerialLine "ERR,NO_EEPROM_CONFIG"])
     else (st', out ++ [drawLabelsForBank (currentBank (conf st'))
                                          (cfg (conf st'))])).
Proof. reflexivity. Qed.

Lemma processSerialLine_DUMP st :
  processSerialLine (list_ascii_of_string "DUMP") st = (st, dumpConfig (conf st)).
Proof. reflexivity. Qed.

Lemma dumpConfig_cfg c1 c2 : cfg c1 = cfg c2 -> dumpConfig c1 = dumpConfig c2.
Proof. intros H. unfold dumpConfig. by rewrite H. Qed.

Lemma setShaped_storable s :
  setShaped s -> char_of_byte 255 ∉ label s -> storable s.
Proof.
  intros ((c0 & c1 & c2 & c3 & Hl & Hc) & Ht & Hch & Hn & Hp & Hr) Hff.
  unfold storable. split_and!; try lia.
  exists c0, c1, c2, c3. split; [done|].
  rewrite Hl in Hff.
  repeat (apply Forall_cons in Hc as [? Hc]).
  repeat constructor; try done; intros ->; apply Hff; repeat constructor.
Qed.

(** Start-up from an image that holds a stored configuration. *)
Lemma setup_load pins ms e :
  EEPROM_get32 EEPROM_MAGIC_ADDR e = EEPROM_MAGIC ->
  let st := fst (setup pins ms (boot e)) in
  eeprom st = e /\ wf_grid (cfg (conf st)) /\
  forall b s, (b < NUM_BANKS)%nat -> (s < NUM_SW)%nat ->
              gget (cfg (conf st)) b s = eepromReadSlot b s e.
Proof.
  intros Hm. unfold setup.
  match goal with |- context [loadAllFromEEPROM ?s] => set (st0 := s) end.
  destruct (load_grid st0 (wf_grid_default e) Hm) as (g & Hl & Hw & Hg).
  rewrite Hl. cbn [fst]. done.
Qed.

(** ** The slot a SET line leaves, and the line DUMP prints for it *)

Lemma applySetLine_slot line c b s :
  setTarget line = Some (b, s) ->
  let toks := tokens line in
  cfg (fst (applySetLine line c))
  = gset (cfg c) b s
      (setSlot (toks !!! 2%nat) (toks !!! 3%nat) (toks !!! 4%nat)
               (toks !!! 5%nat) (toks !!! 6%nat) (toks !!! 7%nat)).
Proof.
  pose proof (applySetLine_tokens line c) as Ht.
  intros Hs toks. subst toks. unfold setTarget in Hs.
  destruct (tokens line) as [|t0 [|t1 [|t2 [|t3 [|t4 [|t5 [|t6 [|t7 rest]]]]]]]];
    cbn [length Nat.leb] in Hs; try done.
  cbv zeta in Ht. cbn [lookup_total list_lookup_total] in *.
  destruct (_ || _); [done|]. injection Hs as <- <-.
  by rewrite Ht.
Qed.

(** Lines that target other slots leave a slot as it is. *)
Lemma sets_keep (post : list (list ascii)) b s : forall st,
  Forall (fun l => streq (take 4 l) "SET," = true) post ->
  Forall (fun l => setTarget l <> Some (b, s)) post ->
  gget (cfg (conf (fst (emit_fold processSerialLine post st)))) b s
  = gget (cfg (conf st)) b s.
Proof.
  induction post as [|l post IH]; intros st Hset Hne; [done|].
  apply Forall_cons in Hset as [Hl Hset]. apply Forall_cons in Hne as [Hn Hne].
  cbn [emit_fold]. rewrite (processSerialLine_set l st Hl).
  specialize (IH (with_conf (fst (applySetLine l (conf st))) st) Hset Hne).
  destruct (emit_fold processSerialLine post _) as [st2 e2]. cbn [fst] in *.
  rewrite IH. cbn [conf with_conf].
  pose proof (applySetLine_cfg l (conf st)) as Hc.
  destruct (setTarget l) as [[b0 s0]|].
  - destruct Hc as (slot & -> & _). apply gget_gset_ne. congruence.
  - by rewrite Hc.
Qed.

(** The last line that targets a slot decides what the slot holds. *)
Lemma sets_last (pre post : list (list ascii)) l b s st :
  wf_grid (cfg (conf st)) ->
  Forall (fun l => streq (take 4 l) "SET," = true /\ NUL ∉ l) (pre ++ l :: post) ->
  setTarget l = Some (b, s) ->
  Forall (fun l' => setTarget l' <> Some (b, s)) post ->
  let toks := tokens l in
  gget (cfg (conf (fst (emit_fold processSerialLine (pre ++ l :: post) st)))) b s
  = setSlot (toks !!! 2%nat) (toks !!! 3%nat) (toks !!! 4%nat)
            (toks !!! 5%nat) (toks !!! 6%nat) (toks !!! 7%nat).
Proof.
  intros Hwf Hall Ht Hpost toks.
  apply Forall_app in Hall as [Hpre Hall].
  apply Forall_cons in Hall as [[Hl _] Hrest].
  destruct (sets_run pre st Hwf Hpre) as (W1 & _ & _).
  rewrite emit_fold_app.
  destruct (emit_fold processSerialLine pre st) as [st1 e1]. cbn [fst] in W1.
  cbn [emit_fold]. rewrite (processSerialLine_set l st1 Hl).
  pose proof (sets_keep post b s (with_conf (fst (applySetLine l (conf st1))) st1))
    as Hk.
  destruct (emit_fold processSerialLine post _) as [st2 e2]. cbn [fst] in *.
  rewrite Hk; [|eapply Forall_impl; [exact Hrest|]; by intros ? [? _]|done].
  cbn [conf with_conf]. rewrite (applySetLine_slot l (conf st1) b s Ht).
  destruct (setTarget_range l b s Ht). by rewrite gget_gset_eq.
Qed.

Lemma dumpConfig_line c b s :
  (b < NUM_BANKS)%nat -> (s < NUM_SW)%nat ->
  dumpConfig c !! (6 * b + s)%nat
  = Some (SerialLine (dumpLine b s (gget (cfg c) b s))).
Proof.
  intros Hb Hs. unfold NUM_BANKS, NUM_SW in *.
  destruct b as [|[|[|[|b]]]]; [| | | |lia];
    destruct s as [|[|[|[|[|[|s]]]]]]; try lia; reflexivity.
Qed.

(** ** The running checks are sound *)

Lemma forallb_elem {A} (f : A -> bool) (l : list A) x :
  forallb f l = true -> x ∈ l -> f x = true.
Proof.
  intros H Hx. rewrite forallb_forall in H. apply H. by apply list_elem_of_In.
Qed.

Lemma nulFree_sound l : nulFree l = true -> NUL ∉ l.
Proof.
  intros H Hin. apply (forallb_elem _ _ _ H) in Hin.
  by rewrite Ascii.eqb_refl in Hin.
Qed.

Lemma setsChecked_sound sets :
  setsChecked sets = true ->
  Forall (fun l => streq (take 4 l) "SET," = true /\ NUL ∉ l) sets /\
  Forall (fun l => is_Some (setTarget l)) sets.
Proof.
  intros H. split; apply Forall_forall; intros l Hl;
    apply (forallb_elem _ _ _ H) in Hl;
    apply andb_true_iff in Hl as [Hl Ht]; apply andb_true_iff in Hl as [Hs Hn].
  - split; [done|by apply nulFree_sound].
  - by destruct (setTarget l).
Qed.

Lemma seq_elem n i : (i < n)%nat -> i ∈ seq 0 n.
Proof. intros Hi. apply list_elem_of_In, in_seq. lia. Qed.

Lemma setsCover_sound sets :
  setsCover sets = true ->
  forall b s, (b < NUM_BANKS)%nat -> (s < NUM_SW)%nat ->
              exists l, l ∈ sets /\ setTarget l = Some (b, s).
Proof.
  intros H b s Hb Hs.
  apply (forallb_elem _ _ b) in H; [|by apply seq_elem].
  apply (forallb_elem _ _ s) in H; [|by apply seq_elem].
  apply existsb_exists in H as (l & Hl & Ht). exists l.
  split; [by apply list_elem_of_In|].
  unfold targets in Ht. destruct (setTarget l) as [[b' s']|]; [|done].
  apply andb_true_iff in Ht as [->%Nat.eqb_eq ->%Nat.eqb_eq]. done.
Qed.

Lemma noErased_sound g :
  noErased g = true ->
  forall b s, (b < NUM_BANKS)%nat -> (s < NUM_SW)%nat ->
              char_of_byte 255 ∉ label (gget g b s).
Proof.
  intros H b s Hb Hs Hin.
  apply (forallb_elem _ _ b) in H; [|by apply seq_elem].
  apply (forallb_elem _ _ s) in H; [|by apply seq_elem].
  apply (forallb_elem _ _ _ H) in Hin. by rewrite Ascii.eqb_refl in Hin.
Qed.

(** ** The state [setup] leaves *)

Lemma loadAllFromEEPROM_sw st : sw (fst (fst (loadAllFromEEPROM st))) = sw st.
Proof. unfold loadAllFromEEPROM. by destruct (negb _). Qed.

Lemma setup_sw pins ms e :
  sw (fst (setup pins ms (boot e)))
  = mkSwitches (map (fun i : nat => pins !!! i) (seq 0 NUM_SW))
               (map (fun i : nat => pins !!! i) (seq 0 NUM_SW))
               (map (fun i : nat => pins !!! i) (seq 0 NUM_SW))
               (map (fun i : nat => ms !!! i) (seq 0 NUM_SW))
               (replicate NUM_SW false) (replicate NUM_SW 0)
               (replicate NUM_SW false) false false.
Proof.
  unfold setup.
  match goal with |- context [loadAllFromEEPROM ?s] =>
    pose proof (loadAllFromEEPROM_sw s) as H;
    destruct (loadAllFromEEPROM s) as [[st' ok] out] end.
  cbn [fst] in *. rewrite H. reflexivity.
Qed.

Lemma setup_wf pins ms e : wf_sw (sw (fst (setup pins ms (boot e)))).
Proof. rewrite setup_sw. repeat split. Qed.

Lemma setup_arbInv pins ms e : arbInv (sw (fst (setup pins ms (boot e)))) = true.
Proof.
  rewrite setup_sw. unfold arbInv, chord45, chord56, flagsClear, flagsSound.
  cbn. by destruct (pins !!! 3%nat), (pins !!! 4%nat), (pins !!! 5%nat).
Qed.

(** * Further properties of the configuration store *)

(** X1.  Layout of the stored records: the record of bank [b], switch [s]
    starts at cell [4 + 9 * (6 * b + s)], lies after the marker and inside
    the first 220 cells, and the records of two different slots do not
    overlap. *)
Theorem X1_slot_records_do_not_overlap b s b' s' :
  (b < NUM_BANKS)%nat -> (s < NUM_SW)%nat ->
  (b' < NUM_BANKS)%nat -> (s' < NUM_SW)%nat ->
  slotAddr b s = 4 + 9 * (6 * Z.of_nat b + Z.of_nat s) /\
  EEPROM_DATA_ADDR <= slotAddr b s /\ slotAddr b s + 9 <= 220 /\
  ((b, s) <> (b', s') ->
   slotAddr b s + 9 <= slotAddr b' s' \/ slotAddr b' s' + 9 <= slotAddr b s).
Proof.
  intros Hb Hs Hb' Hs'.
  rewrite (slotAddr_eq b s Hb Hs), (slotAddr_eq b' s' Hb' Hs').
  unfold NUM_BANKS, NUM_SW, EEPROM_DATA_ADDR in *.
  split_and!; try lia.
  intros Hne.
  assert (b <> b' \/ s <> s') as [?|?]; [|lia|lia].
  destruct (decide (b = b')) as [->|]; [|by left].
  right. intros ->. done.
Qed.

Lemma EEPROM_update_lookup_ne a v e (n : nat) :
  n <> Z.to_nat a -> EEPROM_update a v e !! n = e !! n.
Proof. intros Hne. unfold EEPROM_update. by rewrite list_lookup_insert_ne. Qed.

Lemma eepromWriteSlot_lookup_above b s slot e (n : nat) :
  (b < NUM_BANKS)%nat -> (s < NUM_SW)%nat -> (220 <= n)%nat ->
  eepromWriteSlot b s slot e !! n = e !! n.
Proof.
  intros Hb Hs Hn. pose proof (slotAddr_eq b s Hb Hs) as Ea.
  unfold NUM_BANKS, NUM_SW in *.
  unfold eepromWriteSlot. cbv zeta.
  rewrite !EEPROM_update_lookup_ne by lia. done.
Qed.

Lemma save_cells_above (g : list (list Slot)) (e : list Z) (n : nat) :
  (220 <= n)%nat ->
  for_upto NUM_BANKS (fun b =>
    for_upto NUM_SW (fun s e => eepromWriteSlot b s (gget g b s) e))
    (EEPROM_put32 EEPROM_MAGIC_ADDR EEPROM_MAGIC e) !! n = e !! n.
Proof.
  intros Hn.
  apply (for_upto_ind (fun _ e' => e' !! n = e !! n)).
  { unfold EEPROM_put32, EEPROM_MAGIC_ADDR.
    rewrite !EEPROM_update_lookup_ne by lia. done. }
  intros b e1 Hb H1.
  apply (for_upto_ind (fun _ e' => e' !! n = e !! n)); [done|].
  intros s e2 Hs H2. by rewrite eepromWriteSlot_lookup_above.
Qed.

(** X2.  SAVE keeps to its cells: on an EEPROM of at least 220 cells,
    [saveAllToEEPROM] keeps the size of the image, leaves every cell from
    220 on as it was, writes the marker, touches nothing but the EEPROM and
    answers [OK,SAVED]. *)
Theorem X2_save_keeps_to_its_cells st :
  (220 <= length (eeprom st))%nat ->
  let r := saveAllToEEPROM st in
  length (eeprom (fst r)) = length (eeprom st) /\
  drop 220 (eeprom (fst r)) = drop 220 (eeprom st) /\
  EEPROM_get32 EEPROM_MAGIC_ADDR (eeprom (fst r)) = EEPROM_MAGIC /\
  conf (fst r) = conf st /\ sw (fst r) = sw st /\
  snd r = [SerialLine "OK,SAVED"].
Proof.
  intros Hlen. unfold saveAllToEEPROM. cbn [fst snd eeprom conf sw with_eeprom].
  destruct (save_image (cfg (conf st)) (eeprom st) Hlen) as (L & M & _).
  split_and!; try done.
  apply list_eq. intros i. rewrite !lookup_drop. apply save_cells_above. lia.
Qed.

(** X3.  Store round trip: when every slot of the grid is storable (four
    label characters that are neither NUL nor 0xFF, a known type, a channel
    in 1..16, byte values), saving it and loading the saved image into any
    state gives back exactly that grid. *)
Theorem X3_save_then_load_restores_grid st st2 :
  wf_grid (cfg (conf st)) -> (220 <= length (eeprom st))%nat ->
  (forall b s, (b < NUM_BANKS)%nat -> (s < NUM_SW)%nat ->
               storable (gget (cfg (conf st)) b s)) ->
  wf_grid (cfg (conf st2)) ->
  eeprom st2 = eeprom (fst (saveAllToEEPROM st)) ->
  snd (fst (loadAllFromEEPROM st2)) = true /\
  cfg (conf (fst (fst (loadAllFromEEPROM st2)))) = cfg (conf st).
Proof.
  intros Hwf Hlen Hst Hwf2 He.
  destruct (save_image (cfg (conf st)) (eeprom st) Hlen) as (L & M & Hh).
  unfold saveAllToEEPROM in He. cbn [fst eeprom with_eeprom] in He.
  rewrite <- He in M, Hh.
  destruct (load_grid st2 Hwf2 M) as (g & Hl & Wg & Hg).
  rewrite Hl. cbn [fst snd conf cfg with_conf with_cfg]. split; [done|].
  apply grid_ext; [done|done|].
  intros b s Hb Hs. rewrite Hg by done. apply read_back; [by apply Hh|by apply Hst].
Qed.

Lemma EEPROM_read_byte a e : byteImage e -> 0 <= EEPROM_read a e < 256.
Proof.
  intros Hb. unfold EEPROM_read. destruct (e !! Z.to_nat a) as [x|] eqn:E; simpl.
  - by apply (Forall_lookup_1 _ _ _ _ Hb E).
  - lia.
Qed.

Lemma eepromReadSlot_storable b s e : byteImage e -> storable (eepromReadSlot b s e).
Proof.
  intros Hb. unfold storable, eepromReadSlot. cbv zeta.
  cbn [label type ch num vPress vRelease].
  assert (forall c, (if Ascii.eqb c (char_of_byte 255) || Ascii.eqb c NUL
                     then SPACE else c) <> NUL /\
                    (if Ascii.eqb c (char_of_byte 255) || Ascii.eqb c NUL
                     then SPACE else c) <> char_of_byte 255) as Hfix.
  { intros c. destruct (Ascii.eqb_spec c (char_of_byte 255)); [done|].
    destruct (Ascii.eqb_spec c NUL); done. }
  unfold ACT_CC_ONE_SHOT, ACT_NONE.
  pose proof (EEPROM_read_byte (slotAddr b s + 4) e Hb).
  pose proof (EEPROM_read_byte (slotAddr b s + 5) e Hb).
  pose proof (EEPROM_read_byte (slotAddr b s + 6) e Hb).
  pose proof (EEPROM_read_byte (slotAddr b s + 7) e Hb).
  pose proof (EEPROM_read_byte (slotAddr b s + 8) e Hb).
  split_and!.
  1:{ eexists _, _, _, _. split; [reflexivity|]. repeat constructor; apply Hfix. }
  all: repeat match goal with
       | |- context [Z.ltb ?x ?y] => destruct (Z.ltb_spec x y)
       end; cbn [orb]; lia.
Qed.

(** X4.  Whatever bytes the EEPROM holds behind a matching marker, every
    slot that [loadAllFromEEPROM] decodes has four label characters that
    are neither NUL nor 0xFF followed by the terminator, a type in 0..6, a
    channel in 1..16 and number and values in 0..255; the toggle bits and
    the active bank are left as they were. *)
Theorem X4_load_sanitizes_every_slot st :
  byteImage (eeprom st) -> wf_grid (cfg (conf st)) ->
  EEPROM_get32 EEPROM_MAGIC_ADDR (eeprom st) = EEPROM_MAGIC ->
  let st' := fst (fst (loadAllFromEEPROM st)) in
  (forall b s, (b < NUM_BANKS)%nat -> (s < NUM_SW)%nat ->
               storable (gget (cfg (conf st')) b s)) /\
  togState (conf st') = togState (conf st) /\
  currentBank (conf st') = currentBank (conf st) /\
  eeprom st' = eeprom st.
Proof.
  intros Hb Hwf Hm. destruct (load_grid st Hwf Hm) as (g & Hl & Wg & Hg).
  rewrite Hl. cbn [fst conf cfg togState currentBank eeprom with_conf with_cfg].
  split_and!; try done.
  intros b s Hbk Hs. rewrite Hg by done. by apply eepromReadSlot_storable.
Qed.

(** * Further properties of the action executor *)

(** X5.  Bank navigation is a cycle on 1..4: from a bank in range, up and
    down both stay in range, each undoes the other, four moves in one
    direction come back to the start, and neither touches the slots or the
    toggle bits. *)
Theorem X5_bank_moves_cycle c :
  1 <= currentBank c <= 4 ->
  let up c := fst (doBankUp c) in
  let down c := fst (doBankDown c) in
  1 <= currentBank (up c) <= 4 /\ 1 <= currentBank (down c) <= 4 /\
  currentBank (down (up c)) = currentBank c /\
  currentBank (up (down c)) = currentBank c /\
  currentBank (up (up (up (up c)))) = currentBank c /\
  currentBank (down (down (down (down c)))) = currentBank c /\
  cfg (up c) = cfg c /\ togState (up c) = togState c /\
  cfg (down c) = cfg c /\ togState (down c) = togState c.
Proof.
  intros Hb. destruct c as [g t cb]. cbn [currentBank] in Hb.
  assert (cb = 1 \/ cb = 2 \/ cb = 3 \/ cb = 4) as [->|[->|[->| ->]]] by lia;
    vm_compute; repeat split; congruence.
Qed.

(** X6.  Only a control-change slot acts on release: for any other type of
    the active slot, [handleSwitchEvent] on a release emits nothing and
    leaves the configuration as it is. *)
Theorem X6_release_acts_only_for_control_change i c :
  type (activeSlot i c) <> ACT_CC ->
  handleSwitchEvent i false c = (c, []).
Proof.
  unfold activeSlot, handleSwitchEvent. cbv zeta. intros Hne.
  repeat match goal with
  | |- context [Z.eqb ?a ?b] => destruct (Z.eqb_spec a b)
  end; done.
Qed.

Lemma handleSwitchEvent_cfg i pressed c :
  cfg (fst (handleSwitchEvent i pressed c)) = cfg c.
Proof.
  unfold handleSwitchEvent. cbv zeta.
  repeat match goal with
  | |- context [Z.eqb ?a ?b] => destruct (Z.eqb_spec a b)
  end; destruct pressed; done.
Qed.

(** X7.  The executor never rewrites a slot, and when the fields of the
    active slot are in range (channel 1..16, number and values 0..127)
    every MIDI message it sends has a channel in 1..16 and data bytes in
    0..127. *)
Theorem X7_executor_sends_valid_midi i pressed c :
  let s := activeSlot i c in
  1 <= ch s <= 16 -> 0 <= num s <= 127 ->
  0 <= vPress s <= 127 -> 0 <= vRelease s <= 127 ->
  cfg (fst (handleSwitchEvent i pressed c)) = cfg c /\
  Forall midiSafe (snd (handleSwitchEvent i pressed c)).
Proof.
  intros s Hc Hn Hp Hr. split; [apply handleSwitchEvent_cfg|].
  subst s. unfold activeSlot in *. unfold handleSwitchEvent. cbv zeta.
  repeat match goal with
  | |- context [Z.eqb ?a ?b] => destruct (Z.eqb_spec a b)
  end; destruct pressed; cbn [fst snd doBankUp doBankDown];
    repeat constructor; try done; try lia;
    destruct (gget _ _ _ : bool); lia.
Qed.

(** X8.  A toggle slot alternates: with the toggle bit of the active slot
    clear, two presses in a row send the press value and then 0, and leave
    the bit clear again; the release in between sends nothing. *)
Theorem X8_toggle_alternates i c :
  (i < NUM_SW)%nat -> 1 <= currentBank c <= 4 -> wf_grid (togState c) ->
  type (activeSlot i c) = ACT_CC_TOGGLE ->
  gget (togState c) (Z.to_nat (u8 (currentBank c - 1))) i = false ->
  let s := activeSlot i c in
  let r1 := handleSwitchEvent i true c in
  let r2 := handleSwitchEvent i false (fst r1) in
  let r3 := handleSwitchEvent i true (fst r2) in
  snd r1 = [MidiCC (ch s) (num s) (vPress s)] /\
  snd r2 = [] /\
  snd r3 = [MidiCC (ch s) (num s) 0] /\
  fst r3 = c.
Proof.
  intros Hi Hb Hwf Ht Hbit s r1 r2 r3.
  assert (Z.to_nat (u8 (currentBank c - 1)) < NUM_BANKS)%nat as Hbk.
  { unfold u8, NUM_BANKS. rewrite Z.mod_small by lia. lia. }
  assert (forall pressed c', cfg c' = cfg c -> currentBank c' = currentBank c ->
            handleSwitchEvent i pressed c'
            = if pressed then
                let t := negb (gget (togState c') (Z.to_nat (u8 (currentBank c - 1))) i) in
                (with_togState (gset (togState c') (Z.to_nat (u8 (currentBank c - 1))) i t) c',
                 [sendCC (ch s) (num s)
                    (if gget (gset (togState c') (Z.to_nat (u8 (currentBank c - 1))) i t)
                             (Z.to_nat (u8 (currentBank c - 1))) i
                     then vPress s else 0)])
              else (c', [])) as Hstep.
  { intros pressed c' Hg Hcb. unfold handleSwitchEvent. cbv zeta.
    rewrite Hg, Hcb. fold (activeSlot i c). rewrite Ht.
    destruct pressed; reflexivity. }
  unfold r3, r2, r1.
  rewrite (Hstep true c eq_refl eq_refl). cbv zeta. cbn [fst snd].
  rewrite Hbit. cbn [negb]. rewrite gget_gset_eq by done.
  rewrite (Hstep false) by done. cbn [fst snd].
  rewrite (Hstep true) by done. cbv zeta. cbn [fst snd togState with_togState].
  rewrite !gget_gset_eq by (try apply wf_grid_gset; done). cbn [negb].
  split_and!; try done.
  destruct c as [g t cb]. unfold with_togState. cbn in *. f_equal.
  apply grid_ext; [by do 2 apply wf_grid_gset|done|].
  intros b' s' Hb' Hs'.
  destruct (decide ((Z.to_nat (u8 (cb - 1)), i) = (b', s'))) as [[= <- <-]|Hne].
  - by rewrite gget_gset_eq by (try apply wf_grid_gset; done).
  - by rewrite !gget_gset_ne by done.
Qed.

(** * Further properties of the serial protocol *)

Lemma applySetLine_result line c :
  match setTarget line with
  | Some (b, s) =>
      exists slot,
        fst (applySetLine line c)
        = with_togState (gset (togState c) b s false)
            (with_cfg (gset (cfg c) b s slot) c) /\
        last (snd (applySetLine line c)) = Some (SerialLine "OK,SET") /\
        (NUL ∉ line -> setShaped slot) /\
        ("_"%char ∉ take 4 (label slot))
  | None => fst (applySetLine line c) = c
  end.
Proof.
  pose proof (applySetLine_tokens line c) as Ht.
  pose proof (tokens_sub line) as Hsub.
  unfold setTarget.
  destruct (tokens line) as [|t0 [|t1 [|t2 [|t3 [|t4 [|t5 [|t6 [|t7 rest]]]]]]]];
    cbn [length Nat.leb]; try (by rewrite Ht).
  cbv zeta in Ht. cbn [lookup_total list_lookup_total].
  destruct (_ || _); [by rewrite Ht|].
  rewrite Ht. cbn [fst snd].
  eexists. split_and!; [reflexivity| | |].
  - by destruct (_ =? _).
  - intros Hnul. apply setSlot_shaped. intros Hin. apply Hnul.
    apply (Hsub t2); [|done]. repeat constructor.
  - unfold setSlot. cbn [label seq map app take].
    assert (forall a : ascii, "_"%char <> if Ascii.eqb a "_" then SPACE else a) as Hu.
    { intros a. by destruct (Ascii.eqb_spec a "_"). }
    intros Hin.
    repeat (apply elem_of_cons in Hin as [Hin|Hin]; [by apply Hu in Hin|]).
    by apply elem_of_nil in Hin.
Qed.

(** X9.  A SET line that is accepted writes one slot and nothing else: the
    slot it targets gets a label without underscore, a type in 0..6, a
    channel in 1..16 and number and values in 0..127, whatever numbers the
    line carries, and its toggle bit is cleared; every other slot and
    toggle bit, the active bank, the switch state and the EEPROM are as
    before, and the answer ends with [OK,SET]. *)
Theorem X9_set_writes_one_clamped_slot line st b s :
  streq (take 4 line) "SET," = true -> NUL ∉ line ->
  setTarget line = Some (b, s) ->
  wf_grid (cfg (conf st)) -> wf_grid (togState (conf st)) ->
  let r := processSerialLine line st in
  setShaped (gget (cfg (conf (fst r))) b s) /\
  ("_"%char ∉ take 4 (label (gget (cfg (conf (fst r))) b s))) /\
  gget (togState (conf (fst r))) b s = false /\
  (forall b' s', (b, s) <> (b', s') ->
     gget (cfg (conf (fst r))) b' s' = gget (cfg (conf st)) b' s' /\
     gget (togState (conf (fst r))) b' s' = gget (togState (conf st)) b' s') /\
  currentBank (conf (fst r)) = currentBank (conf st) /\
  sw (fst r) = sw st /\ eeprom (fst r) = eeprom st /\
  last (snd r) = Some (SerialLine "OK,SET").
Proof.
  intros Hset Hnul Ht Wc Wt r. subst r.
  rewrite (processSerialLine_set line st Hset). cbn [fst snd].
  pose proof (applySetLine_result line (conf st)) as Hr. rewrite Ht in Hr.
  destruct Hr as (slot & -> & Hlast & Hshape & Hus).
  destruct (setTarget_range line b s Ht) as [Hb Hs].
  cbn [conf cfg togState currentBank sw eeprom with_conf with_cfg with_togState].
  rewrite !gget_gset_eq by done.
  split_and!; try done; [by apply Hshape|].
  intros b' s' Hne. by rewrite !gget_gset_ne.
Qed.

Lemma split_comma_field s : ","%char ∉ fst (split_comma s).
Proof.
  induction s as [|c s IH]; simpl; [apply not_elem_of_nil|].
  destruct (Ascii.eqb_spec c ","); [apply not_elem_of_nil|].
  destruct (split_comma s) as [f p]. simpl in *.
  intros [?|?]%elem_of_cons; [congruence|done].
Qed.

Lemma split_comma_cursor s :
  snd (split_comma s) = None <-> ","%char ∉ s.
Proof.
  induction s as [|c s IH]; simpl.
  - split; [intros _; apply not_elem_of_nil|done].
  - destruct (Ascii.eqb_spec c ",") as [->|Hne]; simpl.
    + split; [done|]. intros H. exfalso. apply H. apply list_elem_of_here.
    + destruct (split_comma s) as [f p]. simpl in *. rewrite IH.
      rewrite not_elem_of_cons. split; [by split|by intros [_ ?]].
Qed.

Lemma skip_spaces_head s c rest : skip_spaces s = c :: rest -> c <> SPACE.
Proof.
  induction s as [|a s IH]; simpl; [done|].
  destruct (Ascii.eqb_spec a SPACE); [done|]. by intros [= <- _].
Qed.

Lemma skip_spaces_suffix s : exists k, s = replicate k SPACE ++ skip_spaces s.
Proof.
  induction s as [|a s [k IH]]; simpl; [by exists 0%nat|].
  destruct (Ascii.eqb_spec a SPACE) as [->|]; [|by exists 0%nat].
  exists (S k). simpl. by rewrite <- IH.
Qed.

Lemma trim_trailing_last s c front :
  trim_trailing s = front ++ [c] -> c <> SPACE.
Proof.
  unfold trim_trailing. intros H.
  apply (f_equal (@rev ascii)) in H. rewrite rev_involutive, rev_app_distr in H.
  simpl in H. by apply skip_spaces_head in H.
Qed.

Lemma trim_trailing_prefix s : exists k, s = trim_trailing s ++ replicate k SPACE.
Proof.
  unfold trim_trailing. destruct (skip_spaces_suffix (rev s)) as [k Hk].
  exists k. apply (f_equal (@rev ascii)) in Hk.
  rewrite rev_involutive, rev_app_distr in Hk. rewrite Hk at 1. f_equal.
  clear. induction k as [|k IH]; simpl; [done|].
  rewrite IH. clear. induction k as [|k IH]; simpl; [done|]. by rewrite <- IH.
Qed.

(** X10.  [nextTok] on a live cursor: the token has no comma in it and
    neither starts nor ends with a space, all its characters come from the
    text at the cursor, and the cursor comes back exhausted exactly when
    that text has no comma; on an exhausted cursor there is no token. *)
Theorem X10_nextTok_gives_trimmed_fields (text : list ascii) :
  nextTok None = (None, None) /\
  exists tok, fst (nextTok (Some text)) = Some tok /\
    (","%char ∉ tok) /\
    (forall c rest, tok = c :: rest -> c <> SPACE) /\
    (forall c front, tok = front ++ [c] -> c <> SPACE) /\
    (forall c, c ∈ tok -> c ∈ text) /\
    (snd (nextTok (Some text)) = None <-> ","%char ∉ text).
Proof.
  split; [done|]. unfold nextTok.
  pose proof (split_comma_field text) as Hf.
  pose proof (split_comma_cursor text) as Hc.
  pose proof (fields_split text) as Hs.
  destruct (split_comma text) as [f p]. cbn [fst snd] in *.
  eexists. split; [reflexivity|].
  destruct (trim_trailing_prefix (skip_spaces f)) as [k Hk].
  destruct (skip_spaces_suffix f) as [j Hj].
  assert (forall c, c ∈ trim_trailing (skip_spaces f) -> c ∈ f) as Hsub.
  { intros c Hin. rewrite Hj, Hk. apply elem_of_app. right.
    apply elem_of_app. by left. }
  split_and!.
  - intros Hin. by apply Hf, Hsub.
  - intros c rest Ht. rewrite Ht in Hk.
    destruct (skip_spaces f) as [|a s'] eqn:E; [done|].
    simpl in Hk. injection Hk as -> _. by apply skip_spaces_head in E.
  - intros c front Ht. by apply trim_trailing_last in Ht.
  - intros c Hin. apply (fields_sub text f); [|by apply Hsub].
    destruct p; rewrite Hs; apply list_elem_of_here.
  - exact Hc.
Qed.

Lemma streq_eq a b : streq a b = true -> a = list_ascii_of_string b.
Proof.
  unfold streq. intros H%String.eqb_eq. rewrite <- H.
  by rewrite list_ascii_of_string_of_list_ascii.
Qed.

(** X11.  No command but SAVE writes the EEPROM, no command at all touches
    the switch state or the fill index of the line reader, and a line that
    is not a SET leaves the configuration's toggle bits and active bank as
    they are.  (What a SET line leaves in the line buffer is not stated:
    [nextTok] cuts the line up in place.) *)
Theorem X11_only_save_writes_the_eeprom line st :
  let st' := fst (processSerialLine line st) in
  sw st' = sw st /\ lineLen st' = lineLen st /\
  (line <> list_ascii_of_string "SAVE" -> eeprom st' = eeprom st) /\
  (streq (take 4 line) "SET," = false ->
   togState (conf st') = togState (conf st) /\
   currentBank (conf st') = currentBank (conf st)).
Proof.
  unfold processSerialLine. destruct line as [|c0 line]; [done|].
  destruct (streq (take 4 (c0 :: line)) "SET,").
  { destruct (applySetLine _ _); done. }
  destruct (streq (c0 :: line) "SAVE") eqn:Es.
  { apply streq_eq in Es. rewrite Es. done. }
  destruct (streq _ "LOAD").
  { unfold loadAllFromEEPROM. destruct (negb _); done. }
  destruct (streq _ "DUMP"); done.
Qed.

(** X12.  DUMP is read-only: it leaves the state as it is and prints 25
    lines, the line of bank [b], switch [s] at position [6 * b + s] and
    [OK,DUMP_DONE] last; a line that is empty does nothing, and a line that
    is none of the four commands is answered [ERR,UNKNOWN_CMD] with the
    state unchanged. *)
Theorem X12_dump_and_unknown_lines_change_nothing st :
  (let r := processSerialLine (list_ascii_of_string "DUMP") st in
   fst r = st /\ length (snd r) = 25%nat /\
   last (snd r) = Some (SerialLine "OK,DUMP_DONE") /\
   forall b s, (b < NUM_BANKS)%nat -> (s < NUM_SW)%nat ->
     snd r !! (6 * b + s)%nat
     = Some (SerialLine (dumpLine b s (gget (cfg (conf st)) b s)))) /\
  processSerialLine [] st = (st, []) /\
  (forall line, line <> [] -> streq (take 4 line) "SET," = false ->
     streq line "SAVE" = false -> streq line "LOAD" = false ->
     streq line "DUMP" = false ->
     processSerialLine line st = (st, [SerialLine "ERR,UNKNOWN_CMD"])).
Proof.
  split_and!.
  - rewrite processSerialLine_DUMP. cbn [fst snd]. split_and!; try done.
    intros b s Hb Hs. unfold NUM_BANKS, NUM_SW in *.
    destruct b as [|[|[|[|b]]]]; [| | | |lia];
      destruct s as [|[|[|[|[|[|s]]]]]]; try lia; reflexivity.
  - done.
  - intros line Hne H1 H2 H3 H4. unfold processSerialLine.
    destruct line; [done|]. by rewrite H1, H2, H3, H4.
Qed.

(** * Invariants of the whole sketch *)

Lemma emit_fold_inv {A S E} (Q : S -> Prop) (body : A -> S -> S * list E) xs s :
  (forall x s, Q s -> Q (fst (body x s))) -> Q s -> Q (fst (emit_fold body xs s)).
Proof.
  intros Hstep. revert s. induction xs as [|x xs IH]; intros s Hs; simpl; [done|].
  specialize (Hstep x s Hs). destruct (body x s) as [s1 e1]. simpl in Hstep.
  specialize (IH s1 Hstep). by destruct (emit_fold body xs s1).
Qed.

Lemma cstr_nul buf : NUL ∉ cstr buf.
Proof.
  induction buf as [|c buf IH]; simpl; [apply not_elem_of_nil|].
  destruct (Ascii.eqb_spec c NUL); [apply not_elem_of_nil|].
  apply not_elem_of_cons. by split.
Qed.

Section StateInvariant.

(** A property of the configuration and the EEPROM that the executor and
    the protocol keep. *)
Variable Q : Config -> list Z -> Prop.
Hypothesis keep_handle :
  forall i pressed c e, Q c e -> Q (fst (handleSwitchEvent i pressed c)) e.
Hypothesis keep_up : forall c e, Q c e -> Q (fst (doBankUp c)) e.
Hypothesis keep_down : forall c e, Q c e -> Q (fst (doBankDown c)) e.
Hypothesis keep_line :
  forall l st, NUL ∉ l -> onState Q st -> onState Q (fst (processSerialLine l st)).

Lemma kept_refl st : kept (onState Q) st st.
Proof. by unfold kept. Qed.

Lemma kept_trans st1 st2 st3 :
  kept (onState Q) st1 st2 -> kept (onState Q) st2 st3 -> kept (onState Q) st1 st3.
Proof.
  intros (A1 & B1 & C1 & D1) (A2 & B2 & C2 & D2).
  unfold kept. split_and!; [auto|congruence..].
Qed.

Lemma debounceSwitch_kept now pins i st :
  kept (onState Q) st (fst (debounceSwitch now pins i st)).
Proof.
  unfold debounceSwitch, kept, onState.
  repeat match goal with
  | |- context [if ?b then _ else _] => destruct b
  | |- context [let '(_, _) := handleSwitchEvent ?a ?b ?c in _] =>
      let H := fresh in
      pose proof (keep_handle a b c (eeprom st)) as H;
      destruct (handleSwitchEvent a b c)
  end; cbn [fst conf lineBuf lineLen eeprom with_sw with_conf with_conf_sw] in *;
  split_and!; auto.
Qed.

Lemma timeoutSwitch_kept now i st :
  kept (onState Q) st (fst (timeoutSwitch now i st)).
Proof.
  unfold timeoutSwitch, kept, onState.
  repeat match goal with
  | |- context [if ?b then _ else _] => destruct b
  | |- context [let '(_, _) := handleSwitchEvent ?a ?b ?c in _] =>
      let H := fresh in
      pose proof (keep_handle a b c (eeprom st)) as H;
      destruct (handleSwitchEvent a b c)
  end; cbn [fst conf lineBuf lineLen eeprom with_sw with_conf with_conf_sw] in *;
  split_and!; auto.
Qed.

Lemma chordBlocks_kept st : kept (onState Q) st (fst (chordBlocks st)).
Proof.
  unfold chordBlocks, kept, onState.
  pose proof (keep_down (conf st) (eeprom st)) as Hd.
  destruct (doBankDown (conf st)) as [cd ed].
  repeat match goal with
  | |- context [if ?b then _ else _] => destruct b
  | |- context [let '(_, _) := doBankUp ?c in _] =>
      let H := fresh in
      pose proof (keep_up c (eeprom st)) as H; destruct (doBankUp c)
  end; cbn [fst conf lineBuf lineLen eeprom with_sw with_conf with_conf_sw] in *;
  split_and!; auto.
Qed.

Lemma fold_kept {A} (body : A -> State -> State * list Event) xs st :
  (forall x s, kept (onState Q) s (fst (body x s))) ->
  kept (onState Q) st (fst (emit_fold body xs st)).
Proof.
  intros Hstep. revert st. induction xs as [|x xs IH]; intros st; simpl.
  { apply kept_refl. }
  specialize (Hstep x st). destruct (body x st) as [s1 e1]. simpl in Hstep.
  specialize (IH s1). destruct (emit_fold body xs s1) as [s2 e2]. simpl in *.
  by eapply kept_trans.
Qed.

Lemma serialChar_inv c st : onState Q st -> onState Q (fst (serialChar c st)).
Proof.
  intros HP. unfold serialChar.
  destruct (Ascii.eqb c _).
  - match goal with |- context [processSerialLine ?l ?s] =>
      pose proof (keep_line l s (cstr_nul _) HP) as H;
      destruct (processSerialLine l s) end.
    done.
  - by destruct (_ <? _)%nat.
Qed.

(** The switch side of a pass, after the serial side has run. *)
Lemma loop_split p st :
  exists st1, st1 = fst (emit_fold serialChar (rx p) st) /\
              kept (onState Q) st1 (fst (loop p st)).
Proof.
  unfold loop. destruct (emit_fold serialChar (rx p) st) as [s1 e1].
  exists s1. split; [done|].
  pose proof (fold_kept (debounceSwitch (now p) (pins p)) (seq 0 NUM_SW) s1
                (debounceSwitch_kept (now p) (pins p))) as K2.
  destruct (emit_fold (debounceSwitch (now p) (pins p)) (seq 0 NUM_SW) s1)
    as [s2 e2]. cbn [fst] in K2.
  pose proof (chordBlocks_kept s2) as K3.
  destruct (chordBlocks s2) as [s3 e3]. cbn [fst] in K3.
  destruct (chord45 (sw s3) || chord56 (sw s3)).
  { cbn [fst]. by eapply kept_trans. }
  pose proof (fold_kept (timeoutSwitch (now p)) [3; 4; 5]%nat s3
                (timeoutSwitch_kept (now p))) as K4.
  destruct (emit_fold (timeoutSwitch (now p)) [3; 4; 5]%nat s3) as [s4 e4].
  cbn [fst] in *. eapply kept_trans; [|exact K4]. by eapply kept_trans.
Qed.

Lemma loop_inv p st : onState Q st -> onState Q (fst (loop p st)).
Proof.
  intros HP. destruct (loop_split p st) as (st1 & -> & K & _).
  apply K. apply (emit_fold_inv (onState Q)); [|done].
  intros c s. apply serialChar_inv.
Qed.

Lemma run_inv ps st : onState Q st -> onState Q (fst (run ps st)).
Proof.
  intros HP. unfold run. apply (emit_fold_inv (onState Q)); [|done].
  intros p s. apply loop_inv.
Qed.

End StateInvariant.

(** ** The configuration stays in bounds *)

Lemma doBankUp_configOk c : configOk c -> configOk (fst (doBankUp c)).
Proof.
  intros [Hb Hg]. destruct c as [g t cb]. cbn [currentBank] in Hb.
  unfold configOk, gridsOk in *. cbn [cfg togState] in Hg.
  assert (cb = 1 \/ cb = 2 \/ cb = 3 \/ cb = 4) as [->|[->|[->| ->]]] by lia;
    (split; [vm_compute; split; congruence|exact Hg]).
Qed.

Lemma doBankDown_configOk c : configOk c -> configOk (fst (doBankDown c)).
Proof.
  intros [Hb Hg]. destruct c as [g t cb]. cbn [currentBank] in Hb.
  unfold configOk, gridsOk in *. cbn [cfg togState] in Hg.
  assert (cb = 1 \/ cb = 2 \/ cb = 3 \/ cb = 4) as [->|[->|[->| ->]]] by lia;
    (split; [vm_compute; split; congruence|exact Hg]).
Qed.

Lemma handleSwitchEvent_configOk i pressed c :
  configOk c -> configOk (fst (handleSwitchEvent i pressed c)).
Proof.
  intros Hc. pose proof (doBankUp_configOk c Hc). pose proof (doBankDown_configOk c Hc).
  unfold handleSwitchEvent. cbv zeta.
  repeat match goal with
  | |- context [Z.eqb ?a ?b] => destruct (Z.eqb_spec a b)
  end; destruct pressed; try done.
  destruct Hc as (Hb & Hg & Ht). cbn [fst]. split; [done|].
  split; [done|]. by apply wf_grid_gset.
Qed.

Lemma loadAllFromEEPROM_cases st :
  wf_grid (cfg (conf st)) ->
  (EEPROM_get32 EEPROM_MAGIC_ADDR (eeprom st) <> EEPROM_MAGIC /\
   loadAllFromEEPROM st = (st, false, [])) \/
  (exists g, loadAllFromEEPROM st
             = (with_conf (with_cfg g (conf st)) st, true, [SerialLine "OK,LOADED"]) /\
             wf_grid g /\
             forall b s, (b < NUM_BANKS)%nat -> (s < NUM_SW)%nat ->
                         gget g b s = eepromReadSlot b s (eeprom st)).
Proof.
  intros Hwf.
  destruct (Z.eqb_spec (EEPROM_get32 EEPROM_MAGIC_ADDR (eeprom st)) EEPROM_MAGIC)
    as [Hm|Hm].
  - right. by apply load_grid.
  - left. split; [done|]. unfold loadAllFromEEPROM.
    by rewrite (proj2 (Z.eqb_neq _ _) Hm).
Qed.

(** The four shapes of what a line does to the configuration and the
    EEPROM. *)
Lemma processSerialLine_cases l st :
  wf_grid (cfg (conf st)) ->
  let st' := fst (processSerialLine l st) in
  (conf st' = conf st /\ eeprom st' = eeprom st) \/
  (exists b s slot, (b < NUM_BANKS)%nat /\ (s < NUM_SW)%nat /\
     (NUL ∉ l -> setShaped slot) /\
     conf st' = with_togState (gset (togState (conf st)) b s false)
                  (with_cfg (gset (cfg (conf st)) b s slot) (conf st)) /\
     eeprom st' = eeprom st) \/
  (conf st' = conf st /\ st' = fst (saveAllToEEPROM st)) \/
  (exists g, conf st' = with_cfg g (conf st) /\ eeprom st' = eeprom st /\
     wf_grid g /\
     forall b s, (b < NUM_BANKS)%nat -> (s < NUM_SW)%nat ->
                 gget g b s = eepromReadSlot b s (eeprom st)).
Proof.
  intros Hwf st'. subst st'.
  destruct l as [|c0 l]; [by left|].
  destruct (streq (take 4 (c0 :: l)) "SET,") eqn:Eset.
  { rewrite (processSerialLine_set _ st Eset). cbn [fst conf eeprom with_conf].
    pose proof (applySetLine_result (c0 :: l) (conf st)) as Hr.
    destruct (setTarget (c0 :: l)) as [[b s]|] eqn:Et.
    - destruct Hr as (slot & -> & _ & Hs & _).
      destruct (setTarget_range _ b s Et) as [Hb Hs'].
      right. left. by exists b, s, slot.
    - rewrite Hr. by left. }
  unfold processSerialLine. rewrite Eset.
  destruct (streq (c0 :: l) "SAVE").
  { right. right. left. done. }
  destruct (streq _ "LOAD").
  { destruct (loadAllFromEEPROM_cases st Hwf) as [[_ ->]|(g & -> & Wg & Hg)].
    - by left.
    - do 3 right. exists g. done. }
  destruct (streq _ "DUMP"); by left.
Qed.

Lemma processSerialLine_configOk l st :
  configOk (conf st) -> configOk (conf (fst (processSerialLine l st))).
Proof.
  intros (Hb & Hg & Ht).
  destruct (processSerialLine_cases l st Hg)
    as [[-> _]|[(b & s & slot & _ & _ & _ & -> & _)|[[-> _]|(g & -> & _ & Wg & _)]]];
    try done; (split; [done|]); split; cbn [cfg togState with_cfg with_togState];
    try done; by apply wf_grid_gset.
Qed.

Lemma wf_togState_default e : wf_grid (togState (setDefaultConfig (conf (boot e)))).
Proof.
  split; [vm_compute; reflexivity|].
  vm_compute. repeat constructor.
Qed.

Lemma default_configOk e : configOk (setDefaultConfig (conf (boot e))).
Proof.
  split; [by vm_compute|].
  split; [apply wf_grid_default|apply wf_togState_default].
Qed.

Lemma loadAllFromEEPROM_configOk st :
  configOk (conf st) -> configOk (conf (fst (fst (loadAllFromEEPROM st)))).
Proof.
  intros Hc.
  destruct (loadAllFromEEPROM_cases st (proj1 (proj2 Hc))) as [[_ ->]|(g & -> & Wg & _)];
    cbn [fst]; [exact Hc|].
  destruct Hc as (Hb & Hg & Ht). split; [exact Hb|]. split; [exact Wg|exact Ht].
Qed.

Lemma setup_conf pins ms st :
  exists w, conf (fst (setup pins ms st))
            = conf (fst (fst (loadAllFromEEPROM
                                (with_conf_sw (setDefaultConfig (conf st)) w st)))).
Proof.
  unfold setup. eexists.
  match goal with |- context [loadAllFromEEPROM ?s] =>
    destruct (loadAllFromEEPROM s) as [[st1 ok] out] eqn:E end.
  cbn [fst]. rewrite E. reflexivity.
Qed.

Lemma setup_configOk pins ms e : configOk (conf (fst (setup pins ms (boot e)))).
Proof.
  destruct (setup_conf pins ms (boot e)) as [w ->].
  apply loadAllFromEEPROM_configOk. apply default_configOk.
Qed.

(** X13.  In every state the sketch can reach, from any EEPROM content,
    any contact levels and any serial input, the active bank is one of
    1..4 and both grids have their 4 x 6 shape, so the bank index the
    executor and the display compute is inside the arrays. *)
Theorem X13_configuration_stays_in_bounds pins ms e ps :
  let c := conf (reached pins ms e ps) in
  1 <= currentBank c <= 4 /\ wf_grid (cfg c) /\ wf_grid (togState c) /\
  (Z.to_nat (u8 (currentBank c - 1)) < NUM_BANKS)%nat.
Proof.
  assert (configOk (conf (reached pins ms e ps))) as (Hb & Hg & Ht).
  { unfold reached.
    apply (run_inv (fun c _ => configOk c)).
    - intros i pressed c _. apply handleSwitchEvent_configOk.
    - intros c _. apply doBankUp_configOk.
    - intros c _. apply doBankDown_configOk.
    - intros l st _. apply processSerialLine_configOk.
    - apply setup_configOk. }
  cbv zeta. split; [exact Hb|]. split; [exact Hg|]. split; [exact Ht|].
  unfold u8, NUM_BANKS. rewrite Z.mod_small by lia. lia.
Qed.

(** ** Every slot stays well formed *)

Lemma setShaped_slotOk s : setShaped s -> slotOk s.
Proof. intros (Hl & Ht & Hc & Hn & Hp & Hr). unfold slotOk. split_and!; try done; lia. Qed.

Lemma storable_slotOk s : storable s -> slotOk s.
Proof.
  intros ((c0 & c1 & c2 & c3 & Hl & Hc) & Ht & Hch & Hn & Hp & Hr).
  unfold slotOk. split_and!; try done; try lia.
  exists c0, c1, c2, c3. split; [done|].
  eapply Forall_impl; [exact Hc|]. by intros c [? _].
Qed.

Lemma default_slotsOk e : slotsOk (setDefaultConfig (conf (boot e))).
Proof.
  intros b s Hb Hs. unfold NUM_BANKS, NUM_SW in *.
  destruct b as [|[|[|[|b]]]]; [| | | |lia];
    destruct s as [|[|[|[|[|[|s]]]]]]; try lia;
    (match goal with |- slotOk ?x => set (slot := x) end;
     vm_compute in slot; subst slot; unfold slotOk, ACT_CC_ONE_SHOT;
     cbn [label type ch num vPress vRelease];
     split_and!; try lia;
     eexists _, _, _, _; (split; [reflexivity|]); repeat constructor; done).
Qed.

Lemma EEPROM_update_byteImage a v e : byteImage e -> byteImage (EEPROM_update a v e).
Proof.
  intros Hb. unfold byteImage, EEPROM_update. apply Forall_insert; [done|].
  unfold u8. apply Z.mod_pos_bound. lia.
Qed.

Lemma saveAllToEEPROM_byteImage st :
  byteImage (eeprom st) -> byteImage (eeprom (fst (saveAllToEEPROM st))).
Proof.
  intros Hb. unfold saveAllToEEPROM. cbn [fst eeprom with_eeprom].
  apply (for_upto_ind (fun _ e' => byteImage e')).
  { unfold EEPROM_put32. by repeat apply EEPROM_update_byteImage. }
  intros b e1 _ H1.
  apply (for_upto_ind (fun _ e' => byteImage e')); [done|].
  intros s e2 _ H2. unfold eepromWriteSlot. cbv zeta.
  by repeat apply EEPROM_update_byteImage.
Qed.

Lemma doBankUp_cfg c : cfg (fst (doBankUp c)) = cfg c.
Proof. by destruct c. Qed.

Lemma doBankDown_cfg c : cfg (fst (doBankDown c)) = cfg c.
Proof. by destruct c. Qed.

Lemma slotsOk_cfg c c' : cfg c' = cfg c -> slotsOk c -> slotsOk c'.
Proof. intros E H b s Hb Hs. rewrite E. by apply H. Qed.

Lemma slotsOk_gset c g b s slot :
  wf_grid (cfg c) -> (b < NUM_BANKS)%nat -> (s < NUM_SW)%nat ->
  slotOk slot -> slotsOk c -> g = gset (cfg c) b s slot ->
  forall b' s', (b' < NUM_BANKS)%nat -> (s' < NUM_SW)%nat -> slotOk (gget g b' s').
Proof.
  intros Hwf Hb Hs Hslot Hall -> b' s' Hb' Hs'.
  destruct (decide ((b, s) = (b', s'))) as [[= <- <-]|Hne].
  - by rewrite gget_gset_eq.
  - rewrite gget_gset_ne by done. by apply Hall.
Qed.

Lemma processSerialLine_slotsOk l st :
  NUL ∉ l ->
  configOk (conf st) /\ slotsOk (conf st) /\ byteImage (eeprom st) ->
  let st' := fst (processSerialLine l st) in
  configOk (conf st') /\ slotsOk (conf st') /\ byteImage (eeprom st').
Proof.
  intros Hnul (Hc & Hs & Hb) st'. subst st'.
  split; [by apply processSerialLine_configOk|].
  destruct (processSerialLine_cases l st (proj1 (proj2 Hc)))
    as [[-> ->]|[(b & s & slot & Hb' & Hs' & Hsh & -> & ->)
       |[[-> ->]|(g & -> & -> & Wg & Hg)]]]; try done.
  - split; [|done]. intros b' s' ? ?.
    cbn [cfg with_cfg with_togState].
    apply (slotsOk_gset (conf st) _ b s slot);
      [apply Hc|done|done|by apply setShaped_slotOk, Hsh|done|reflexivity|done|done].
  - split; [done|]. by apply saveAllToEEPROM_byteImage.
  - split; [|done]. intros b s ? ?. cbn [cfg with_cfg]. rewrite Hg by done.
    by apply storable_slotOk, eepromReadSlot_storable.
Qed.

Lemma loadAllFromEEPROM_slotsOk st :
  wf_grid (cfg (conf st)) -> slotsOk (conf st) -> byteImage (eeprom st) ->
  slotsOk (conf (fst (fst (loadAllFromEEPROM st)))) /\
  eeprom (fst (fst (loadAllFromEEPROM st))) = eeprom st.
Proof.
  intros Hwf Hs Hb.
  destruct (loadAllFromEEPROM_cases st Hwf) as [[_ ->]|(g & -> & Wg & Hg)];
    cbn [fst]; [done|].
  split; [|done]. intros b s ? ?. cbn [conf cfg with_conf with_cfg].
  rewrite Hg by done. by apply storable_slotOk, eepromReadSlot_storable.
Qed.

Lemma setup_state pins ms st :
  exists w, let st0 := with_conf_sw (setDefaultConfig (conf st)) w st in
            fst (setup pins ms st) = fst (fst (loadAllFromEEPROM st0)).
Proof.
  unfold setup. eexists. cbv zeta.
  match goal with |- context [loadAllFromEEPROM ?s] =>
    destruct (loadAllFromEEPROM s) as [[st1 ok] out] eqn:E end.
  cbn [fst]. rewrite E. reflexivity.
Qed.

Lemma print4_label s : slotOk s -> print4 (label s) = take 4 (label s).
Proof.
  intros ((c0 & c1 & c2 & c3 & -> & Hc) & _).
  repeat (apply Forall_cons in Hc as [? Hc]).
  unfold print4. cbn [seq map take lookup_total list_lookup_total].
  by rewrite !ascii_eqb_false.
Qed.

(** X14.  Started from an EEPROM of bytes, in every state the sketch can
    reach, whatever was stored and whatever arrives on the serial line,
    every slot has four label characters before its terminator (so the
    display prints the label as it is), a type in 0..6, a channel in 1..16
    and bytes for number and values; the EEPROM still holds bytes; and every
    MIDI message the executor would send has a channel in 1..16 and bytes
    for its data. *)
Theorem X14_reachable_slots_are_well_formed pins ms e ps :
  byteImage e ->
  let st := reached pins ms e ps in
  byteImage (eeprom st) /\
  (forall b s, (b < NUM_BANKS)%nat -> (s < NUM_SW)%nat ->
     slotOk (gget (cfg (conf st)) b s) /\
     print4 (label (gget (cfg (conf st)) b s))
     = take 4 (label (gget (cfg (conf st)) b s))) /\
  (forall i pressed, (i < NUM_SW)%nat ->
     Forall chanSafe (snd (handleSwitchEvent i pressed (conf st)))).
Proof.
  intros Hbytes st.
  assert (configOk (conf st) /\ slotsOk (conf st) /\ byteImage (eeprom st))
    as (Hc & Hs & Hb).
  { subst st. unfold reached.
    apply (run_inv (fun c e' => configOk c /\ slotsOk c /\ byteImage e')).
    - intros i pressed c e' (Hc & Hs & Hb). split; [by apply handleSwitchEvent_configOk|].
      split; [|done]. eapply slotsOk_cfg; [apply handleSwitchEvent_cfg|done].
    - intros c e' (Hc & Hs & Hb). split; [by apply doBankUp_configOk|].
      split; [|done]. eapply slotsOk_cfg; [apply doBankUp_cfg|done].
    - intros c e' (Hc & Hs & Hb). split; [by apply doBankDown_configOk|].
      split; [|done]. eapply slotsOk_cfg; [apply doBankDown_cfg|done].
    - intros l s Hnul. by apply processSerialLine_slotsOk.
    - unfold onState. split; [apply setup_configOk|].
      destruct (setup_state pins ms (boot e)) as [w ->].
      set (st0 := with_conf_sw (setDefaultConfig (conf (boot e))) w (boot e)).
      destruct (loadAllFromEEPROM_slotsOk st0) as [Hs ->];
        [apply wf_grid_default|apply default_slotsOk|done|by split]. }
  split; [done|]. split.
  { intros b s Hb' Hs'. split; [by apply Hs|]. by apply print4_label, Hs. }
  intros i pressed Hi.
  destruct Hc as (Hbank & _ & _).
  assert (slotOk (activeSlot i (conf st))) as (_ & _ & Hch & Hn & Hp & Hr).
  { apply Hs; [|done]. unfold u8, NUM_BANKS. rewrite Z.mod_small by lia. lia. }
  unfold activeSlot in *. unfold handleSwitchEvent. cbv zeta.
  repeat match goal with
  | |- context [Z.eqb ?a ?b] => destruct (Z.eqb_spec a b)
  end; destruct pressed; cbn [fst snd doBankUp doBankDown];
    repeat constructor; try done; try lia;
    destruct (gget _ _ _ : bool); lia.
Qed.

(** ** The line reader *)

Lemma processSerialLine_frame l st :
  let st' := fst (processSerialLine l st) in
  sw st' = sw st /\ length (lineBuf st') = length (lineBuf st) /\
  lineLen st' = lineLen st.
Proof.
  unfold processSerialLine. destruct l as [|c0 l]; [done|].
  destruct (streq (take 4 (c0 :: l)) "SET,").
  { destruct (applySetLine _ _); done. }
  destruct (streq (c0 :: l) "SAVE"); [done|].
  destruct (streq _ "LOAD").
  { unfold loadAllFromEEPROM. destruct (negb _); done. }
  destruct (streq _ "DUMP"); done.
Qed.

Lemma serialChar_lineOk c st : lineOk st -> lineOk (fst (serialChar c st)).
Proof.
  intros [Hlen Hbuf]. unfold serialChar, lineOk, LINEBUF_SIZE in *.
  destruct (Ascii.eqb c _).
  - match goal with |- context [processSerialLine ?l ?s] =>
      destruct (processSerialLine_frame l s) as (_ & Eb & _);
      destruct (processSerialLine l s) as [st1 out] end.
    cbn [fst lineBuf lineLen with_line] in *. split; [lia|].
    rewrite Eb. destruct (_ && _); by rewrite !length_insert.
  - destruct (Nat.ltb_spec (lineLen st) (220 - 1)); cbn [fst lineBuf lineLen with_line].
    + split; [lia|]. by rewrite length_insert.
    + split; [lia|done].
Qed.

Lemma loadAllFromEEPROM_frame st :
  let st' := fst (fst (loadAllFromEEPROM st)) in
  sw st' = sw st /\ lineBuf st' = lineBuf st /\ lineLen st' = lineLen st /\
  eeprom st' = eeprom st /\ togState (conf st') = togState (conf st) /\
  currentBank (conf st') = currentBank (conf st).
Proof. unfold loadAllFromEEPROM. destruct (negb _); done. Qed.

(** X15.  The line reader never leaves its buffer: in every state the
    sketch can reach the buffer has its 220 cells and the fill index is
    below 220, so the index the reader writes at is always a cell of the
    buffer and the clamp on a newline never has to act. *)
Theorem X15_line_reader_stays_in_its_buffer pins ms e ps :
  let st := reached pins ms e ps in
  (lineLen st < LINEBUF_SIZE)%nat /\ length (lineBuf st) = LINEBUF_SIZE /\
  (if (LINEBUF_SIZE <=? lineLen st)%nat then (LINEBUF_SIZE - 1)%nat else lineLen st)
  = lineLen st.
Proof.
  assert (lineOk (reached pins ms e ps)) as [Hl Hb].
  { unfold reached, run. apply (emit_fold_inv lineOk).
    - intros p st Hst.
      destruct (loop_split (fun _ _ => True) ltac:(done) ltac:(done) ltac:(done)
                           p st) as (st1 & -> & _ & Eb & El & _).
      unfold lineOk. rewrite Eb, El.
      apply (emit_fold_inv lineOk); [|done]. intros c s. apply serialChar_lineOk.
    - destruct (setup_state pins ms (boot e)) as [w ->].
      match goal with |- context [loadAllFromEEPROM ?s] =>
        destruct (loadAllFromEEPROM_frame s) as (_ & Eb & El & _) end.
      unfold lineOk. rewrite Eb, El.
      cbn [lineLen lineBuf with_conf_sw with_sw with_conf boot].
      split; [unfold LINEBUF_SIZE; lia|apply length_replicate]. }
  cbv zeta. split; [done|]. split; [done|].
  destruct (Nat.leb_spec LINEBUF_SIZE (lineLen (reached pins ms e ps))); [lia|done].
Qed.

Lemma insert_middle {A} (pre : list A) x y rest :
  <[length pre := y]> (pre ++ x :: rest) = pre ++ y :: rest.
Proof. induction pre as [|a pre IH]; simpl; [done|]. by rewrite IH. Qed.

Lemma lookup_total_middle {A} `{Inhabited A} (pre : list A) x rest :
  (pre ++ x :: rest) !!! length pre = x.
Proof. induction pre as [|a pre IH]; simpl; done. Qed.

Lemma cstr_app_nul l rest : NUL ∉ l -> cstr (l ++ NUL :: rest) = l.
Proof.
  induction l as [|c l IH]; intros Hn; simpl; [done|].
  apply not_elem_of_cons in Hn as [Hc Hn].
  rewrite ascii_eqb_false by done. by rewrite IH.
Qed.

Lemma serialChar_store c st pre x rest :
  c <> "010"%char -> lineBuf st = pre ++ x :: rest -> lineLen st = length pre ->
  (length pre < LINEBUF_SIZE - 1)%nat ->
  serialChar c st = (with_line ((pre ++ [c]) ++ rest) (S (length pre)) st, []).
Proof.
  intros Hc Eb El Hlt. unfold serialChar.
  rewrite (ascii_eqb_false c _ Hc), El, Eb.
  destruct (Nat.ltb_spec (length pre) (LINEBUF_SIZE - 1)); [|lia].
  by rewrite insert_middle, <- app_assoc.
Qed.

Lemma serial_accumulate l : forall st pre rest,
  "010"%char ∉ l -> lineBuf st = pre ++ rest -> lineLen st = length pre ->
  (length pre + length l < LINEBUF_SIZE)%nat -> (length l <= length rest)%nat ->
  exists rest',
    emit_fold serialChar l st
    = (with_line ((pre ++ l) ++ rest') (length pre + length l)%nat st, []) /\
    (length l + length rest' = length rest)%nat.
Proof.
  induction l as [|c l IH]; intros st pre rest Hlf Eb El Hlen Hrest.
  { exists rest. cbn [emit_fold length]. rewrite app_nil_r, Nat.add_0_r, <- Eb, <- El.
    by destruct st. }
  apply not_elem_of_cons in Hlf as [Hc Hlf]. cbn [length] in *.
  destruct rest as [|x rest]; [cbn in Hrest; lia|]. cbn [length] in Hrest.
  cbn [emit_fold]. unfold LINEBUF_SIZE in *.
  rewrite (serialChar_store c st pre x rest) by (unfold LINEBUF_SIZE; auto with lia).
  set (st1 := with_line ((pre ++ [c]) ++ rest) (S (length pre)) st).
  destruct (IH st1 (pre ++ [c]) rest) as (rest' & E & Hr); try done.
  { subst st1. cbn. rewrite length_app. cbn. lia. }
  { rewrite length_app. cbn. lia. }
  { lia. }
  rewrite E. exists rest'. split; [|cbn [length]; lia].
  subst st1. rewrite length_app. cbn [length]. unfold with_line.
  cbn [conf sw eeprom]. rewrite <- !app_assoc. cbn [app].
  do 2 f_equal. lia.
Qed.

Lemma processSerialLine_with_line l buf n st :
  processSerialLine l (with_line buf n st)
  = (with_line buf n (fst (processSerialLine l st)), snd (processSerialLine l st)).
Proof.
  unfold processSerialLine. destruct l as [|c0 l]; [done|].
  destruct (streq (take 4 (c0 :: l)) "SET,").
  { cbn [conf with_line]. destruct (applySetLine _ _); done. }
  destruct (streq (c0 :: l) "SAVE"); [done|].
  destruct (streq _ "LOAD").
  { unfold loadAllFromEEPROM. cbn [eeprom with_line]. destruct (negb _); done. }
  destruct (streq _ "DUMP"); done.
Qed.

Lemma stripCR_snoc front c :
  stripCR (front ++ [c]) = if Ascii.eqb c "013"%char then front else front ++ [c].
Proof. unfold stripCR. rewrite rev_app_distr. cbn. by rewrite rev_involutive. Qed.

(** The newline that ends a line held in the buffer. *)
Lemma serialChar_newline l rest st0 :
  NUL ∉ l -> (length l < LINEBUF_SIZE)%nat -> rest <> [] ->
  let st := with_line (l ++ rest) (length l) st0 in
  let r := serialChar "010"%char st in
  let r0 := processSerialLine (stripCR l) st0 in
  conf (fst r) = conf (fst r0) /\ eeprom (fst r) = eeprom (fst r0) /\
  sw (fst r) = sw st0 /\ lineLen (fst r) = 0%nat /\
  length (lineBuf (fst r)) = length (l ++ rest) /\
  snd r = map Out (snd r0).
Proof.
  intros Hnul Hlen Hrest st r r0.
  destruct rest as [|x rest]; [done|].
  assert (exists buf, length buf = length (l ++ x :: rest) /\
            r = (with_line buf 0%nat (fst r0), map Out (snd r0)))
    as (buf & Hbuf & Er).
  { subst r st. unfold serialChar. cbn [lineLen lineBuf with_line].
    change (Ascii.eqb "010" "010") with true. cbv iota.
    destruct (Nat.leb_spec LINEBUF_SIZE (length l)); [lia|].
    rewrite insert_middle.
    destruct l as [|a l' _] using rev_ind.
    - cbn [length Nat.ltb Nat.leb andb app]. cbn [cstr].
      change (Ascii.eqb NUL NUL) with true. cbv iota.
      change (processSerialLine [] _) with
        (with_line (NUL :: rest) 0%nat st0, @nil Effect).
      eexists. split; [|reflexivity]. done.
    - assert (length (l' ++ [a]) = S (length l')) as En.
      { rewrite length_app. cbn. lia. }
      rewrite !En. replace (S (length l') - 1)%nat with (length l') by lia.
      change (0 <? S (length l'))%nat with true. cbn [andb].
      rewrite <- (app_assoc l' [a] (NUL :: rest)). cbn [app].
      rewrite lookup_total_middle.
      subst r0. rewrite stripCR_snoc.
      apply not_elem_of_app in Hnul as [Hn1 Hn2].
      destruct (Ascii.eqb a "013").
      + rewrite insert_middle, cstr_app_nul by done.
        rewrite !processSerialLine_with_line. cbn [fst snd].
        exists (l' ++ NUL :: NUL :: rest). split; [|reflexivity].
        rewrite !length_app. cbn. lia.
      + change (l' ++ a :: NUL :: rest) with (l' ++ [a] ++ NUL :: rest).
        rewrite app_assoc, cstr_app_nul by (by apply not_elem_of_app).
        rewrite !processSerialLine_with_line. cbn [fst snd].
        exists ((l' ++ [a]) ++ NUL :: rest). split; [|reflexivity].
        rewrite !length_app. cbn. lia. }
  rewrite Er. cbn [fst snd conf eeprom sw lineLen lineBuf with_line].
  destruct (processSerialLine_frame (stripCR l) st0) as (Es & _).
  split_and!; done.
Qed.

(** X16.  A line that fits is delivered whole: with the reader at the
    start of its buffer, the characters of a line of fewer than 220
    characters (none of them NUL or a newline) followed by a newline have
    the effect of [processSerialLine] on that line, less the carriage
    return it may end with; the answers are what is printed, the switch
    state is not touched, and the reader is back at the start. *)
Theorem X16_reader_delivers_the_line (l : list ascii) st :
  lineLen st = 0%nat -> length (lineBuf st) = LINEBUF_SIZE ->
  (length l < LINEBUF_SIZE)%nat -> NUL ∉ l -> "010"%char ∉ l ->
  let r := emit_fold serialChar (l ++ ["010"%char]) st in
  let r0 := processSerialLine (stripCR l) st in
  conf (fst r) = conf (fst r0) /\ eeprom (fst r) = eeprom (fst r0) /\
  sw (fst r) = sw st /\ lineLen (fst r) = 0%nat /\
  length (lineBuf (fst r)) = LINEBUF_SIZE /\
  snd r = map Out (snd r0).
Proof.
  intros El Eb Hlen Hnul Hlf r r0. subst r.
  destruct (serial_accumulate l st [] (lineBuf st)) as (rest & E & Hr);
    try done; [unfold LINEBUF_SIZE in *; cbn [length]; lia..|].
  rewrite emit_fold_app, E. cbn [app length Nat.add emit_fold] in *.
  assert (rest <> []) as Hne.
  { intros ->. cbn in Hr. lia. }
  pose proof (serialChar_newline l rest st Hnul Hlen Hne) as H.
  cbv zeta in H.
  destruct (serialChar "010" (with_line (l ++ rest) (length l) st)) as [s1 e1].
  cbn [fst snd app] in *.
  destruct H as (H1 & H2 & H3 & H4 & H5 & H6).
  split_and!; try done.
  - rewrite H5, length_app. lia.
  - by rewrite app_nil_r.
Qed.

(** ** Start-up *)

Lemma setup_unfold pins ms st :
  exists w,
    w = for_upto NUM_SW (fun (i : nat) (w : Switches) =>
          let w := with_rawState (<[i := pins !!! i]> (rawState w)) w in
          let w := with_stableState (<[i := rawState w !!! i]> (stableState w)) w in
          let w := with_lastRaw (<[i := rawState w !!! i]> (lastRaw w)) w in
          with_lastChangeMs (<[i := ms !!! i]> (lastChangeMs w)) w) (sw st) /\
    let st0 := with_conf_sw (setDefaultConfig (conf st)) w st in
    setup pins ms st
    = (fst (fst (loadAllFromEEPROM st0)),
       snd (loadAllFromEEPROM st0)
       ++ [drawLabelsForBank (currentBank (conf (fst (fst (loadAllFromEEPROM st0)))))
                             (cfg (conf (fst (fst (loadAllFromEEPROM st0)))));
           SerialLine "OK,READY"]).
Proof.
  unfold setup.
  match goal with |- context [with_conf_sw _ ?x _] => set (w := x) end.
  exists w. split; [reflexivity|]. cbv zeta.
  destruct (loadAllFromEEPROM _) as [[st1 ok] out]. reflexivity.
Qed.

(** X17.  What [setup] leaves behind, for any contact levels and any EEPROM
    content: each switch starts with its raw, last and stable state equal to
    the level sampled (a switch held at power-up is taken as already
    pressed), no arbitration flag and no latch set; bank 1 is active and all
    toggle bits are clear; the EEPROM is not written.  Without the marker
    every bank holds the default slots, and the last lines of output are
    the default labels and [OK,READY]; with the marker every slot is the one
    decoded from the EEPROM and [OK,LOADED] comes first. *)
Theorem X17_setup_samples_and_falls_back pins ms e :
  let r := setup pins ms (boot e) in
  let st := fst r in
  (forall i : nat, (i < NUM_SW)%nat ->
     view i (sw st) = mkView (pins !!! i) (pins !!! i) (pins !!! i) (ms !!! i)
                             false 0 false) /\
  chord45Latched (sw st) = false /\ chord56Latched (sw st) = false /\
  currentBank (conf st) = 1 /\
  (forall b s : nat, (b < NUM_BANKS)%nat -> (s < NUM_SW)%nat ->
     gget (togState (conf st)) b s = false) /\
  eeprom st = e /\ lineLen st = 0%nat /\
  (EEPROM_get32 EEPROM_MAGIC_ADDR e <> EEPROM_MAGIC ->
     (forall b s : nat, (b < NUM_BANKS)%nat -> (s < NUM_SW)%nat ->
        gget (cfg (conf st)) b s = defaultSlot s) /\
     snd r = [LcdLabels (map str ["----"; "----"; "----"; "----"; "DWN "; "UP  "]);
              SerialLine "OK,READY"]) /\
  (EEPROM_get32 EEPROM_MAGIC_ADDR e = EEPROM_MAGIC ->
     (forall b s : nat, (b < NUM_BANKS)%nat -> (s < NUM_SW)%nat ->
        gget (cfg (conf st)) b s = eepromReadSlot b s e) /\
     snd r = [SerialLine "OK,LOADED"; drawLabelsForBank 1 (cfg (conf st));
              SerialLine "OK,READY"]).
Proof.
  intros r st. subst st r.
  pose proof (setup_sw pins ms e) as Hsw.
  destruct (setup_unfold pins ms (boot e)) as (w & Ew & E0). cbv zeta in E0.
  rewrite E0 in Hsw |- *. cbn [fst snd] in Hsw |- *.
  set (st0 := with_conf_sw (setDefaultConfig (conf (boot e))) w (boot e)) in *.
  destruct (loadAllFromEEPROM_frame st0) as (Es & _ & El & Ee & Et & Eb).
  cbv zeta in Es, El, Ee, Et, Eb. rewrite Es in Hsw. rewrite Es, El, Ee, Et, Eb.
  change (sw st0) with w in Hsw |- *.
  assert (eeprom st0 = e) as He by done.
  assert (conf st0 = setDefaultConfig (conf (boot e))) as Hc by done.
  assert (forall b s : nat, (b < NUM_BANKS)%nat -> (s < NUM_SW)%nat ->
            gget (cfg (conf st0)) b s = defaultSlot s /\
            gget (togState (conf st0)) b s = false) as Hdef.
  { rewrite Hc. intros b s Hb Hs. unfold NUM_BANKS, NUM_SW in *.
    destruct b as [|[|[|[|b]]]]; [| | | |lia];
      destruct s as [|[|[|[|[|[|s]]]]]]; try lia; split; vm_compute; reflexivity. }
  split_and!.
  - intros i Hi. rewrite Hsw. unfold NUM_SW in *.
    destruct i as [|[|[|[|[|[|i]]]]]]; try lia; reflexivity.
  - by rewrite Hsw.
  - by rewrite Hsw.
  - rewrite Hc. by vm_compute.
  - intros b s Hb Hs. by apply Hdef.
  - done.
  - done.
  - intros Hm.
    assert (wf_grid (cfg (conf st0))) as Hwf by (rewrite Hc; apply wf_grid_default).
    destruct (loadAllFromEEPROM_cases st0 Hwf) as [[_ E]|(g & E & _ & Hg)].
    + rewrite E. cbn [fst snd app]. split; [intros b s ? ?; by apply Hdef|].
      rewrite Hc. by vm_compute.
    + exfalso. unfold loadAllFromEEPROM in E. rewrite He in E.
      rewrite (proj2 (Z.eqb_neq _ _) Hm) in E. done.
  - intros Hm.
    assert (wf_grid (cfg (conf st0))) as Hwf by (rewrite Hc; apply wf_grid_default).
    rewrite <- He in Hm.
    destruct (load_grid st0 Hwf Hm) as (g & E & _ & Hg).
    rewrite E. cbn [fst snd app conf cfg with_conf with_cfg currentBank].
    rewrite He in Hg. split; [done|].
    by do 2 f_equal.
Qed.

(** * Further properties of the switch side *)

(** X18.  In every state the sketch can reach, whatever the contacts and
    the serial line did, the seven per-switch arrays have their six cells
    and the arbiter is consistent: a chord latch is set only while its pair
    is jointly stable-pressed; while a chord is held none of switches 3, 4,
    5 has a pending or a sent press; and such a switch has a pending or a
    sent press only while it is stable-pressed, never both.  After at least
    one pass each latch is set exactly when its pair is jointly
    stable-pressed. *)
Theorem X18_arbiter_is_consistent_in_every_state pins ms e ps :
  let w := sw (reached pins ms e ps) in
  wf_sw w /\ arbInv w = true /\ (ps <> [] -> latchesSettled w = true).
Proof.
  cbv zeta. unfold reached.
  pose proof (setup_wf pins ms e) as W0.
  pose proof (setup_arbInv pins ms e) as A0.
  split; [by apply run_wf|]. split; [by apply run_arbInv|].
  intros Hne. destruct ps as [|p ps _] using rev_ind; [done|].
  rewrite run_app. cbn [fst]. rewrite run_cons. cbn [fst].
  apply loop_latchesSettled. by apply run_wf.
Qed.

Lemma sw_ext w1 w2 :
  wf_sw w1 -> wf_sw w2 ->
  (forall i, (i < NUM_SW)%nat -> view i w1 = view i w2) ->
  chord45Latched w1 = chord45Latched w2 ->
  chord56Latched w1 = chord56Latched w2 ->
  w1 = w2.
Proof.
  intros (A1 & A2 & A3 & A4 & A5 & A6 & A7) (B1 & B2 & B3 & B4 & B5 & B6 & B7) Hv H45 H56.
  destruct w1 as [r1 s1 l1 c1 p1 a1 t1 x1 y1], w2 as [r2 s2 l2 c2 p2 a2 t2 x2 y2].
  cbn in *. subst x2 y2.
  assert (forall (A : Type) `{Inhabited A} (u v : list A),
            length u = NUM_SW -> length v = NUM_SW ->
            (forall i, (i < NUM_SW)%nat -> u !!! i = v !!! i) -> u = v) as Hext.
  { intros A ? u v Hu Hv' Huv. apply (list_eq_same_length _ _ NUM_SW); [done|done|].
    intros i x y Hi Hx Hy. specialize (Huv i Hi).
    rewrite (list_lookup_total_correct _ _ _ Hx),
            (list_lookup_total_correct _ _ _ Hy) in Huv. done. }
  f_equal; first [apply (Hext bool _)|apply (Hext Z _)]; try done;
    intros i Hi; specialize (Hv i Hi); unfold view in Hv;
    cbn [rawState stableState lastRaw lastChangeMs pendingPress pendingAt sentPress]
      in Hv; by injection Hv.
Qed.

(** X19.  The switch side of a pass does not depend on the serial line or
    on the configuration: two passes with the same contact levels and the
    same clock, from states with the same switch state, leave the same
    switch state, call [handleSwitchEvent] for the same switches with the
    same arguments in the same order, and fire the same chords, whatever
    bytes arrive and whatever the slots, the bank, the line buffer and the
    EEPROM hold. *)
Theorem X19_switch_side_ignores_serial_and_configuration rx rx' pins now st st' :
  wf_sw (sw st) -> sw st' = sw st ->
  let r := loop (mkPoll rx pins now) st in
  let r' := loop (mkPoll rx' pins now) st' in
  sw (fst r) = sw (fst r') /\
  dispatches (snd r) = dispatches (snd r') /\
  chordDowns (snd r) = chordDowns (snd r') /\
  chordUps (snd r) = chordUps (snd r').
Proof.
  intros Hwf Hsw r r'. subst r r'.
  assert (wf_sw (sw st')) as Hwf' by (by rewrite Hsw).
  destruct (loop_spec (mkPoll rx pins now) st Hwf) as (W & V & L45 & L56 & D & CD & CU).
  destruct (loop_spec (mkPoll rx' pins now) st' Hwf') as (W' & V' & L45' & L56' & D' & CD' & CU').
  cbv zeta in *. rewrite Hsw in *.
  split_and!.
  - apply sw_ext; try done.
    + intros i Hi. by rewrite V, V'.
    + by rewrite L45, L45'.
    + by rewrite L56, L56'.
  - by rewrite D, D'.
  - by rewrite CD, CD'.
  - by rewrite CU, CU'.
Qed.

(** * The display follows the configuration *)

Lemma lcdAfter_app effs1 effs2 shown :
  lcdAfter (effs1 ++ effs2) shown = lcdAfter effs2 (lcdAfter effs1 shown).
Proof. unfold lcdAfter. by rewrite fold_left_app. Qed.

Lemma effectsOf_app evs1 evs2 : effectsOf (evs1 ++ evs2) = effectsOf evs1 ++ effectsOf evs2.
Proof. unfold effectsOf. by rewrite flat_map_app. Qed.

Lemma effectsOf_Out out : effectsOf (map Out out) = out.
Proof. induction out as [|e out IH]; simpl; [done|]. by rewrite IH. Qed.

Lemma doBankUp_lcd c shown :
  lcdInv c shown -> lcdInv (fst (doBankUp c)) (lcdAfter (snd (doBankUp c)) shown).
Proof.
  intros [Hc _]. split; [by apply doBankUp_configOk|]. by destruct c.
Qed.

Lemma doBankDown_lcd c shown :
  lcdInv c shown -> lcdInv (fst (doBankDown c)) (lcdAfter (snd (doBankDown c)) shown).
Proof.
  intros [Hc _]. split; [by apply doBankDown_configOk|]. by destruct c.
Qed.

Lemma handleSwitchEvent_lcd i pressed c shown :
  lcdInv c shown ->
  lcdInv (fst (handleSwitchEvent i pressed c))
         (lcdAfter (snd (handleSwitchEvent i pressed c)) shown).
Proof.
  intros Hinv. pose proof (doBankUp_lcd c shown Hinv) as Hu.
  pose proof (doBankDown_lcd c shown Hinv) as Hd.
  destruct Hinv as [Hc Hs].
  split; [by apply handleSwitchEvent_configOk|].
  destruct Hu as [_ Hu], Hd as [_ Hd]. revert Hu Hd.
  unfold handleSwitchEvent. cbv zeta.
  repeat match goal with
  | |- context [Z.eqb ?a ?b] => destruct (Z.eqb_spec a b)
  end; destruct pressed; intros Hu Hd; try done.
Qed.

(** The labels of a bank do not change when a slot of another bank is set. *)
Lemma drawLabelsForBank_gset cb g b s slot :
  1 <= cb <= 4 -> Z.to_nat (u8 (cb - 1)) <> b ->
  drawLabelsForBank cb (gset g b s slot) = drawLabelsForBank cb g.
Proof.
  intros Hcb Hne. unfold drawLabelsForBank. f_equal.
  apply map_ext. intros s'. rewrite gget_gset_ne; [done|]. congruence.
Qed.

Lemma dumpConfig_lcd c shown : lcdAfter (dumpConfig c) shown = shown.
Proof. unfold dumpConfig, NUM_BANKS, NUM_SW. cbn [seq flat_map map app]. reflexivity. Qed.

(** What an accepted SET prints: the labels again when its bank is the
    active one, then [OK,SET]. *)
Lemma applySetLine_out line c :
  (fst (applySetLine line c) = c /\
   exists err, snd (applySetLine line c) = [SerialLine err]) \/
  (exists bank s slot,
     1 <= bank <= 4 /\
     let c' := with_togState (gset (togState c) (Z.to_nat (u8 (bank - 1))) s false)
                 (with_cfg (gset (cfg c) (Z.to_nat (u8 (bank - 1))) s slot) c) in
     applySetLine line c
     = (c', (if bank =? currentBank c
             then [drawLabelsForBank (currentBank c) (cfg c')] else [])
            ++ [SerialLine "OK,SET"])).
Proof.
  pose proof (applySetLine_tokens line c) as Ht.
  destruct (tokens line) as [|t0 [|t1 [|t2 [|t3 [|t4 [|t5 [|t6 [|t7 rest]]]]]]]];
    try (left; rewrite Ht; split; [done|by eexists]).
  cbv zeta in Ht.
  destruct (_ || _) eqn:E.
  { left. rewrite Ht. split; [done|by eexists]. }
  right. rewrite !orb_false_iff in E. destruct E as [[[E1 E2] E3] E4].
  change (Z.of_nat NUM_BANKS) with 4 in E2.
  eexists _, _, _. split; [|exact Ht]. lia.
Qed.

Lemma processSerialLine_lcd l st shown :
  lcdInv (conf st) shown ->
  lcdInv (conf (fst (processSerialLine l st)))
         (lcdAfter (snd (processSerialLine l st)) shown).
Proof.
  intros [Hc Hs]. split; [by apply processSerialLine_configOk|].
  destruct Hc as (Hb & Hg & Ht).
  destruct l as [|c0 l]; [done|].
  destruct (streq (take 4 (c0 :: l)) "SET,") eqn:Eset.
  { rewrite (processSerialLine_set _ st Eset). cbn [fst snd conf with_conf].
    destruct (applySetLine_out (c0 :: l) (conf st))
      as [[-> [err ->]]|(bank & s & slot & Hbank & ->)]; [done|].
    cbn [fst snd currentBank cfg with_cfg with_togState].
    destruct (Z.eqb_spec bank (currentBank (conf st))) as [->|Hne]; [done|].
    cbn [app lcdAfter fold_left]. rewrite Hs. symmetry.
    apply drawLabelsForBank_gset; [done|].
    unfold u8. rewrite !Z.mod_small by lia. lia. }
  unfold processSerialLine. rewrite Eset.
  destruct (streq (c0 :: l) "SAVE"); [done|].
  destruct (streq _ "LOAD").
  { destruct (loadAllFromEEPROM_cases st Hg) as [[_ ->]|(g & -> & Wg & _)]; done. }
  destruct (streq _ "DUMP"); [|done].
  cbn [fst snd]. by rewrite dumpConfig_lcd.
Qed.

Lemma debounceSwitch_lcd now pins i : lcdStep (debounceSwitch now pins i).
Proof.
  intros st shown Hinv. unfold debounceSwitch.
  repeat match goal with
  | |- context [if ?b then _ else _] => destruct b
  | |- context [let '(_, _) := handleSwitchEvent ?a ?b ?c in _] =>
      let H := fresh in
      pose proof (fun sh => handleSwitchEvent_lcd a b c sh) as H;
      destruct (handleSwitchEvent a b c)
  end;
  cbn [fst snd conf with_sw with_conf with_conf_sw effectsOf flat_map app] in *;
  rewrite ?app_nil_r, ?lcdAfter_app; eauto.
Qed.

Lemma timeoutSwitch_lcd now i : lcdStep (timeoutSwitch now i).
Proof.
  intros st shown Hinv. unfold timeoutSwitch.
  repeat match goal with
  | |- context [if ?b then _ else _] => destruct b
  | |- context [let '(_, _) := handleSwitchEvent ?a ?b ?c in _] =>
      let H := fresh in
      pose proof (fun sh => handleSwitchEvent_lcd a b c sh) as H;
      destruct (handleSwitchEvent a b c)
  end;
  cbn [fst snd conf with_sw with_conf with_conf_sw effectsOf flat_map app] in *;
  rewrite ?app_nil_r, ?lcdAfter_app; eauto.
Qed.

Lemma chordBlocks_lcd : lcdStep chordBlocks.
Proof.
  intros st shown Hinv. unfold chordBlocks.
  pose proof (fun sh => doBankDown_lcd (conf st) sh) as Hd.
  destruct (doBankDown (conf st)) as [cd ed].
  repeat match goal with
  | |- context [if ?b then _ else _] => destruct b
  | |- context [let '(_, _) := doBankUp ?c in _] =>
      let H := fresh in
      pose proof (fun sh => doBankUp_lcd c sh) as H; destruct (doBankUp c)
  end;
  cbn [fst snd conf with_sw with_conf with_conf_sw effectsOf flat_map app] in *;
  rewrite ?app_nil_r, ?lcdAfter_app; eauto.
Qed.

Lemma serialChar_lcd c : lcdStep (serialChar c).
Proof.
  intros st shown Hinv. unfold serialChar.
  destruct (Ascii.eqb c _).
  - match goal with |- context [processSerialLine ?l ?s] =>
      pose proof (processSerialLine_lcd l s shown Hinv) as H;
      destruct (processSerialLine l s) end.
    cbn [fst snd conf with_line] in *. by rewrite effectsOf_Out.
  - by destruct (_ <? _)%nat.
Qed.

Lemma fold_lcd {A} (body : A -> State -> State * list Event) xs :
  (forall x, lcdStep (body x)) -> lcdStep (emit_fold body xs).
Proof.
  intros Hstep. induction xs as [|x xs IH]; intros st shown Hinv; [done|].
  cbn [emit_fold]. specialize (Hstep x st shown Hinv).
  destruct (body x st) as [s1 e1]. cbn [fst snd] in Hstep.
  specialize (IH s1 _ Hstep). destruct (emit_fold body xs s1) as [s2 e2].
  cbn [fst snd] in *. by rewrite effectsOf_app, lcdAfter_app.
Qed.

Lemma loop_lcd p : lcdStep (loop p).
Proof.
  intros st shown Hinv. unfold loop.
  pose proof (fold_lcd serialChar (rx p) serialChar_lcd st shown Hinv) as H1.
  destruct (emit_fold serialChar (rx p) st) as [s1 e1]. cbn [fst snd] in H1.
  pose proof (fold_lcd (debounceSwitch (now p) (pins p)) (seq 0 NUM_SW)
                (debounceSwitch_lcd (now p) (pins p)) s1 _ H1) as H2.
  destruct (emit_fold (debounceSwitch (now p) (pins p)) (seq 0 NUM_SW) s1) as [s2 e2].
  cbn [fst snd] in H2.
  pose proof (chordBlocks_lcd s2 _ H2) as H3.
  destruct (chordBlocks s2) as [s3 e3]. cbn [fst snd] in H3.
  destruct (chord45 (sw s3) || chord56 (sw s3)); cbn [fst snd].
  { by rewrite !effectsOf_app, !lcdAfter_app. }
  pose proof (fold_lcd (timeoutSwitch (now p)) [3; 4; 5]%nat
                (timeoutSwitch_lcd (now p)) s3 _ H3) as H4.
  destruct (emit_fold (timeoutSwitch (now p)) [3; 4; 5]%nat s3) as [s4 e4].
  cbn [fst snd] in *. by rewrite !effectsOf_app, !lcdAfter_app.
Qed.

(** X21.  The LCD always ends up showing the labels of the active bank.
    Whatever it showed before power-up, after [setup] and any number of
    passes of [loop], with any contact levels, EEPROM content and serial
    input, the last thing written to it (the bank splash or a set of six
    labels) is the six labels of the active bank as the configuration now
    holds them: every bank move, every SET to the active bank and every
    successful LOAD redraws them, a SET to another bank leaves them valid,
    and no splash is left standing. *)
Theorem X21_display_shows_the_active_bank pins ms e ps shown0 :
  let r := run ps (fst (setup pins ms (boot e))) in
  let c := conf (fst r) in
  lcdAfter (snd (setup pins ms (boot e)) ++ effectsOf (snd r)) shown0
  = drawLabelsForBank (currentBank c) (cfg c).
Proof.
  cbv zeta. rewrite lcdAfter_app.
  assert (lcdInv (conf (fst (setup pins ms (boot e))))
                 (lcdAfter (snd (setup pins ms (boot e))) shown0)) as H0.
  { split; [apply setup_configOk|].
    destruct (setup_unfold pins ms (boot e)) as (w & _ & ->). cbv zeta. cbn [fst snd].
    rewrite lcdAfter_app. reflexivity. }
  pose proof (fold_lcd loop ps loop_lcd _ _ H0) as [_ H]. exact H.
Qed.

(** * Every command is answered *)

Lemma applySetLine_answer line c :
  (fst (applySetLine line c) = c /\
   (snd (applySetLine line c) = [SerialLine "ERR,BAD_SET_FORMAT"] \/
    snd (applySetLine line c) = [SerialLine "ERR,BAD_INDEX"])) \/
  last (serialText (snd (applySetLine line c)))
  = Some (list_ascii_of_string "OK,SET").
Proof.
  pose proof (applySetLine_tokens line c) as Ht.
  destruct (tokens line) as [|t0 [|t1 [|t2 [|t3 [|t4 [|t5 [|t6 [|t7 rest]]]]]]]];
    try (left; rewrite Ht; split; [done|by left]).
  cbv zeta in Ht.
  destruct (_ || _).
  { left. rewrite Ht. split; [done|by right]. }
  right. rewrite Ht. cbn [snd]. by destruct (_ =? _).
Qed.

Lemma dumpConfig_answer c :
  last (serialText (dumpConfig c)) = Some (list_ascii_of_string "OK,DUMP_DONE").
Proof.
  unfold dumpConfig, NUM_BANKS, NUM_SW. cbn [seq flat_map map app serialText].
  reflexivity.
Qed.

(** X22.  Every command line is answered, and an error changes nothing
    that the sketch goes on to use.  For a line that is not empty, the
    last line [processSerialLine] prints is one of four error answers, and
    then the configuration, the switch state, the EEPROM and the fill index
    of the line reader are as before, or one of the four [OK] answers; an
    empty line prints nothing and changes nothing. *)
Theorem X22_every_command_is_answered l st :
  let r := processSerialLine l st in
  let answer := last (serialText (snd r)) in
  let says (s : string) := answer = Some (list_ascii_of_string s) in
  (l = [] -> r = (st, [])) /\
  (l <> [] ->
   ((conf (fst r) = conf st /\ sw (fst r) = sw st /\
     eeprom (fst r) = eeprom st /\ lineLen (fst r) = lineLen st) /\
    (says "ERR,BAD_SET_FORMAT" \/ says "ERR,BAD_INDEX" \/ says "ERR,NO_EEPROM_CONFIG"
     \/ says "ERR,UNKNOWN_CMD")) \/
   says "OK,SET" \/ says "OK,SAVED" \/ says "OK,LOADED" \/ says "OK,DUMP_DONE").
Proof.
  cbv zeta. split; [by intros ->|]. intros Hne.
  destruct l as [|c0 l]; [done|].
  destruct (streq (take 4 (c0 :: l)) "SET,") eqn:Eset.
  { rewrite (processSerialLine_set _ st Eset). cbn [fst snd].
    destruct (applySetLine_answer (c0 :: l) (conf st)) as [[Hc [-> | ->]]|Hok].
    - left. rewrite Hc. split; [done|]. by left.
    - left. rewrite Hc. split; [done|]. right. by left.
    - right. by left. }
  unfold processSerialLine. rewrite Eset.
  destruct (streq (c0 :: l) "SAVE").
  { right. right. by left. }
  destruct (streq _ "LOAD").
  { unfold loadAllFromEEPROM. destruct (negb _); cbn [fst snd].
    - left. split; [done|]. do 2 right. by left.
    - do 3 right. by left. }
  destruct (streq _ "DUMP"); cbn [fst snd].
  - do 4 right. apply dumpConfig_answer.
  - left. split; [done|]. by do 3 right.
Qed.

(** * Claims about the chord arbiter and the debounce filter *)

(** C10.  When a chord fires in a pass, the [pendingPress] and [sentPress]
    flags of switches 3, 4 and 5 are all clear after that pass; from then
    on such a switch dispatches nothing at all (in particular no release
    for a press that had already been committed) for as long as it is not
    freshly pressed, that is, for as long as no pass takes its stable state
    from released to pressed. *)
Theorem C10_chord_discards_bookkeeping p st :
  wf_sw (sw st) ->
  (0 < chordDowns (snd (loop p st)) + chordUps (snd (loop p st)))%nat ->
  let st1 := fst (loop p st) in
  (forall i, isArb i = true ->
     pendingPress (sw st1) !!! i = false /\ sentPress (sw st1) !!! i = false) /\
  (forall i ps, isArb i = true ->
     Forall (fun s => ~ (stableState (sw (before s)) !!! i = false /\
                         stableState (sw (after s)) !!! i = true))
            (passes ps st1) ->
     dispatchesOf i (snd (run ps st1)) = []).
Proof.
  intros Hwf Hfire st1.
  destruct (loop_spec p st Hwf) as (W & _ & _ & _ & _ & CD & CU).
  assert (fires45 p (sw st) || fires56 p (sw st) = true) as Hf.
  { rewrite CD, CU in Hfire.
    destruct (fires45 p (sw st)), (fires56 p (sw st)); simpl in *; done || lia. }
  assert (forall i, isArb i = true -> clearedV (view i (sw st1)) = true) as Hc.
  { intros i Ha. unfold st1. rewrite loop_view; [by apply arb_fired_clear|done|].
    apply isArb_cases in Ha. unfold NUM_SW. lia. }
  split.
  - intros i Ha. specialize (Hc i Ha). unfold clearedV, view in Hc. simpl in Hc.
    by destruct (pendingPress (sw st1) !!! i), (sentPress (sw st1) !!! i).
  - intros i ps Ha Hall. by apply quiet_run; auto.
Qed.


(** C6.  For a switch [i] of 3, 4, 5 whose press is debounced in pass [p0]
    with no chord active after it:
    - tap: if the switch then stays pressed through passes in which no
      chord is active and fewer than 120 ms have gone by since the press,
      and its release is debounced in pass [pr], the whole run calls
      [handleSwitchEvent(i, true)] immediately followed by
      [handleSwitchEvent(i, false)] and makes no other call for [i];
    - commit: if instead a pass [pc] finds it still pressed, no chord
      active and at least 120 ms gone by, that pass dispatches the press
      once, nothing is dispatched for [i] while it stays pressed without a
      chord, and the pass that debounces the release dispatches the release
      once. *)
Theorem C6_tap_or_commit i p0 st :
  isArb i = true -> wf_sw (sw st) -> flagsSound i (sw st) = true ->
  let st1 := fst (loop p0 st) in
  stableState (sw st) !!! i = false ->
  stableState (sw st1) !!! i = true ->
  chord45 (sw st1) || chord56 (sw st1) = false ->
  (forall mid pr,
     Forall (fun s => stableState (sw (after s)) !!! i = true /\
                      chord45 (sw (after s)) || chord56 (sw (after s)) = false /\
                      u32 (now (poll s) - now p0) < CHORD_WINDOW_MS)
            (passes mid st1) ->
     stableState (sw (fst (loop pr (fst (run mid st1))))) !!! i = false ->
     exists pre post,
       dispatches (snd (run (p0 :: mid ++ [pr]) st))
         = pre ++ [(i, true); (i, false)] ++ post /\
       Forall (fun d => fst d <> i) (pre ++ post)) /\
  (forall mid pc hold pr,
     Forall (fun s => stableState (sw (after s)) !!! i = true /\
                      chord45 (sw (after s)) || chord56 (sw (after s)) = false /\
                      u32 (now (poll s) - now p0) < CHORD_WINDOW_MS)
            (passes mid st1) ->
     let st2 := fst (run mid st1) in
     let st3 := fst (loop pc st2) in
     stableState (sw st3) !!! i = true ->
     chord45 (sw st3) || chord56 (sw st3) = false ->
     CHORD_WINDOW_MS <= u32 (now pc - now p0) ->
     Forall (fun s => stableState (sw (after s)) !!! i = true /\
                      chord45 (sw (after s)) || chord56 (sw (after s)) = false)
            (passes hold st3) ->
     let st4 := fst (run hold st3) in
     stableState (sw (fst (loop pr st4))) !!! i = false ->
     dispatchesOf i (snd (run (p0 :: mid) st)) = [] /\
     dispatchesOf i (snd (loop pc st2)) = [true] /\
     dispatchesOf i (snd (run hold st3)) = [] /\
     dispatchesOf i (snd (loop pr st4)) = [false]).
Proof.
  intros Ha Hwf Hsound st1 Hup Hdown Hno.
  assert (i < NUM_SW)%nat as Hi.
  { apply isArb_cases in Ha. unfold NUM_SW. lia. }
  assert (wf_sw (sw st1)) as Hwf1 by (by apply loop_wf).
  unfold st1 in Hdown, Hno.
  rewrite loop_stable in Hdown by done.
  rewrite loop_chord45, loop_chord56 in Hno by done.
  destruct (arb_press p0 i (sw st) Ha Hsound Hup Hdown Hno) as [D0 P0].
  rewrite <- (loop_view p0 st i) in P0 by done. fold st1 in P0.
  rewrite <- (loop_dispatchesOf p0 st i) in D0 by done.
  split.
  - intros mid pr Hmid Hrel.
    destruct (pending_run i (now p0) mid st1 Ha Hwf1 P0 Hmid) as [Dm Pm].
    set (st2 := fst (run mid st1)) in *.
    assert (wf_sw (sw st2)) as Hwf2 by (by apply run_wf).
    rewrite loop_stable in Hrel by done.
    destruct (arb_tap pr i (sw st2) (now p0) Ha Pm Hrel) as (Td & Tl & _).
    destruct (loop_dispatches_split pr st2 i Hwf2 Hi) as (pre & post & Hsplit).
    rewrite Td in Hsplit. cbn [map] in Hsplit.
    rewrite run_cons, run_app. cbn [fst snd]. fold st1 st2.
    change (run [pr] st2) with (emit_fold loop [pr] st2). cbn [emit_fold].
    destruct (loop pr st2) as [st3 er] eqn:Er. cbn [fst snd] in *.
    rewrite app_nil_r, !dispatches_app, Hsplit.
    exists (dispatches (snd (loop p0 st)) ++ dispatches (snd (run mid st1)) ++ pre),
           post.
    split; [by rewrite <- !app_assoc|].
    rewrite <- !app_assoc, !Forall_app.
    assert (Forall (fun d => fst d <> i) (pre ++ post)) as Hfree.
    { eapply pair_free; [exact Hsplit|].
      pose proof (loop_dispatchesOf pr st2 i Hwf2 Hi) as Hd.
      rewrite Er in Hd. unfold dispatchesOf in Hd. cbn [snd] in Hd.
      rewrite Hd. exact Tl. }
    apply Forall_app in Hfree as [? ?].
    split_and!; try done; by apply dispatchesOf_nil_free.
  - intros mid pc hold pr Hmid st2 st3 Hheld Hno3 Hwin Hhold st4 Hrel.
    destruct (pending_run i (now p0) mid st1 Ha Hwf1 P0 Hmid) as [Dm Pm].
    fold st2 in Pm.
    assert (wf_sw (sw st2)) as Hwf2 by (by apply run_wf).
    assert (wf_sw (sw st3)) as Hwf3 by (by apply loop_wf).
    assert (wf_sw (sw st4)) as Hwf4 by (by apply run_wf).
    unfold st3 in Hheld, Hno3.
    rewrite loop_stable in Hheld by done.
    rewrite loop_chord45, loop_chord56 in Hno3 by done.
    destruct (arb_commit pc i (sw st2) (now p0) Ha Pm Hheld Hno3 Hwin) as [Dc Pc].
    rewrite <- (loop_view pc st2 i) in Pc by done. fold st3 in Pc.
    destruct (committed_run i hold st3 Ha Hwf3 Pc Hhold) as [Dh Ph].
    fold st4 in Ph.
    rewrite loop_stable in Hrel by done.
    destruct (arb_release pr i (sw st4) Ha Ph Hrel) as [Dr _].
    rewrite run_cons. cbn [fst snd]. fold st1.
    rewrite dispatchesOf_app, D0, Dm, !loop_dispatchesOf by done.
    done.
Qed.


(** * Claims about the serial protocol and the configuration store *)

(** C3.  When the four-byte marker in storage is not the expected one,
    [loadAllFromEEPROM] reports failure and the LOAD command answers
    [ERR,NO_EEPROM_CONFIG]; neither changes the state at all, so the slot
    grid is exactly what it was. *)
Theorem C3_load_rejects_bad_marker st :
  EEPROM_get32 EEPROM_MAGIC_ADDR (eeprom st) <> EEPROM_MAGIC ->
  loadAllFromEEPROM st = (st, false, []) /\
  processSerialLine (list_ascii_of_string "LOAD") st
  = (st, [SerialLine "ERR,NO_EEPROM_CONFIG"]) /\
  cfg (conf (fst (processSerialLine (list_ascii_of_string "LOAD") st)))
  = cfg (conf st).
Proof.
  intros Hm.
  assert (loadAllFromEEPROM st = (st, false, [])) as Hl.
  { unfold loadAllFromEEPROM.
    destruct (EEPROM_get32 EEPROM_MAGIC_ADDR (eeprom st) =? EEPROM_MAGIC) eqn:E;
      [|done].
    apply Z.eqb_eq in E. done. }
  assert (processSerialLine (list_ascii_of_string "LOAD") st
          = (st, [SerialLine "ERR,NO_EEPROM_CONFIG"])) as Hp.
  { unfold processSerialLine. cbn [list_ascii_of_string].
    change (streq (take 4 _) "SET,") with false.
    change (streq _ "SAVE") with false.
    change (streq _ "LOAD") with true.
    cbv iota. by rewrite Hl. }
  split_and!; [done|done|]. by rewrite Hp.
Qed.

(** C9 (as amended).  For a line that starts with [SET,]: with fewer than
    eight tokens after the keyword the answer is [ERR,BAD_SET_FORMAT]; with
    eight or more tokens and a bank outside 1..4 or a switch outside 1..6
    the answer is [ERR,BAD_INDEX]; in both cases the configuration (slot
    grid, toggle bits, active bank), the switch state, the EEPROM and the
    fill index of the line reader are as before.  With eight or more tokens
    and both indices in range the command is accepted.  Tokens after the
    eighth are ignored: two such lines that agree on their first eight
    tokens leave the same configuration and print the same answer. *)
Theorem C9_set_validation line st :
  streq (take 4 line) "SET," = true ->
  let toks := tokens line in
  let bank := atoi (toks !!! 0%nat) in
  let swi := atoi (toks !!! 1%nat) in
  let r := processSerialLine line st in
  let unchanged :=
    conf (fst r) = conf st /\ sw (fst r) = sw st /\
    eeprom (fst r) = eeprom st /\ lineLen (fst r) = lineLen st in
  ((length toks < 8)%nat ->
     unchanged /\ snd r = [SerialLine "ERR,BAD_SET_FORMAT"]) /\
  ((8 <= length toks)%nat -> bank < 1 \/ 4 < bank \/ swi < 1 \/ 6 < swi ->
     unchanged /\ snd r = [SerialLine "ERR,BAD_INDEX"]) /\
  ((8 <= length toks)%nat -> 1 <= bank <= 4 -> 1 <= swi <= 6 ->
     exists redraw, snd r = redraw ++ [SerialLine "OK,SET"]) /\
  (forall line', streq (take 4 line') "SET," = true ->
     (8 <= length toks)%nat -> take 8 (tokens line') = take 8 toks ->
     conf (fst (processSerialLine line' st)) = conf (fst r) /\
     snd (processSerialLine line' st) = snd r).
Proof.
  intros Hset toks bank swi r unchanged. subst r unchanged.
  rewrite (processSerialLine_set line st Hset).
  cbn [fst snd conf sw eeprom lineLen with_conf].
  pose proof (applySetLine_tokens line (conf st)) as Ht.
  fold toks in Ht. unfold bank, swi. clear bank swi.
  split_and!.
  - intros Hlen.
    destruct toks as [|t0 [|t1 [|t2 [|t3 [|t4 [|t5 [|t6 [|t7 rest]]]]]]]];
      cbn [length] in Hlen; try lia; by rewrite Ht.
  - intros Hlen Hout.
    destruct toks as [|t0 [|t1 [|t2 [|t3 [|t4 [|t5 [|t6 [|t7 rest]]]]]]]];
      cbn [length] in Hlen; try lia.
    cbv zeta in Ht. cbn [lookup_total list_lookup_total] in *.
    unfold NUM_BANKS, NUM_SW in Ht.
    change (Z.of_nat 4) with 4 in Ht. change (Z.of_nat 6) with 6 in Ht.
    destruct (_ || _) eqn:Er in Ht; [by rewrite Ht|].
    rewrite !orb_false_iff in Er. lia.
  - intros Hlen Hb Hs.
    destruct toks as [|t0 [|t1 [|t2 [|t3 [|t4 [|t5 [|t6 [|t7 rest]]]]]]]];
      cbn [length] in Hlen; try lia.
    cbv zeta in Ht. cbn [lookup_total list_lookup_total] in *.
    unfold NUM_BANKS, NUM_SW in Ht.
    change (Z.of_nat 4) with 4 in Ht. change (Z.of_nat 6) with 6 in Ht.
    destruct (_ || _) eqn:Er in Ht.
    + rewrite !orb_true_iff in Er. lia.
    + rewrite Ht. cbn [snd]. eauto.
  - intros line' Hset' Hlen Htake.
    rewrite (processSerialLine_set line' st Hset'). cbn [fst snd conf with_conf].
    pose proof (applySetLine_tokens line' (conf st)) as Ht'.
    destruct toks as [|t0 [|t1 [|t2 [|t3 [|t4 [|t5 [|t6 [|t7 rest]]]]]]]];
      cbn [length] in Hlen; try lia.
    destruct (tokens line')
      as [|u0 [|u1 [|u2 [|u3 [|u4 [|u5 [|u6 [|u7 rest']]]]]]]]; try done.
    cbn [take] in Htake. injection Htake as -> -> -> -> -> -> -> ->.
    cbv zeta in Ht, Ht'.
    destruct (_ || _); by rewrite Ht, Ht'.
Qed.

(** C2 (as amended).  Take SET lines (C strings, each accepted) that
    between them target all 24 slots, and suppose none of the labels they
    leave in the grid contains the byte 0xFF.  After SAVE, a restart from
    the saved EEPROM image, LOAD and DUMP: the slot grid is the one the SET
    lines established; every slot holds what the last SET line that
    targeted it stored (its label cut or padded to four characters with
    underscores as spaces, its type, channel, number, press value and
    release value, clamped), and the line DUMP prints for bank [b], switch
    [s], line [6 * b + s] of its output, carries exactly these fields; so
    DUMP prints the same lines as it would have printed before the
    restart. *)
Theorem C2_set_save_load_dump (sets : list (list ascii)) st pins ms :
  wf_grid (cfg (conf st)) -> (220 <= length (eeprom st))%nat ->
  Forall (fun l => streq (take 4 l) "SET," = true /\ NUL ∉ l) sets ->
  Forall (fun l => is_Some (setTarget l)) sets ->
  (forall b s, (b < NUM_BANKS)%nat -> (s < NUM_SW)%nat ->
               exists l, l ∈ sets /\ setTarget l = Some (b, s)) ->
  let st1 := fst (emit_fold processSerialLine sets st) in
  (forall b s, (b < NUM_BANKS)%nat -> (s < NUM_SW)%nat ->
               char_of_byte 255 ∉ label (gget (cfg (conf st1)) b s)) ->
  let st2 := fst (processSerialLine (list_ascii_of_string "SAVE") st1) in
  let st3 := fst (setup pins ms (boot (eeprom st2))) in
  let st4 := fst (processSerialLine (list_ascii_of_string "LOAD") st3) in
  let dumped := snd (processSerialLine (list_ascii_of_string "DUMP") st4) in
  cfg (conf st4) = cfg (conf st1) /\
  dumped = snd (processSerialLine (list_ascii_of_string "DUMP") st1) /\
  (forall pre l post b s,
     sets = pre ++ l :: post -> setTarget l = Some (b, s) ->
     Forall (fun l' => setTarget l' <> Some (b, s)) post ->
     let toks := tokens l in
     let slot := setSlot (toks !!! 2%nat) (toks !!! 3%nat) (toks !!! 4%nat)
                         (toks !!! 5%nat) (toks !!! 6%nat) (toks !!! 7%nat) in
     gget (cfg (conf st4)) b s = slot /\
     dumped !! (6 * b + s)%nat = Some (SerialLine (dumpLine b s slot))).
Proof.
  intros Hwf Hlen Hsets _ Hcover st1 Hff st2 st3 st4 dumped.
  destruct (sets_run sets st Hwf Hsets) as (W1 & E1 & Sh1). fold st1 in W1, E1, Sh1.
  assert (forall b s, (b < NUM_BANKS)%nat -> (s < NUM_SW)%nat ->
                      storable (gget (cfg (conf st1)) b s)) as Hst.
  { intros b s Hb Hs. apply setShaped_storable; [|by apply Hff].
    apply Sh1; [done|done|]. right. by apply Hcover. }
  assert (220 <= length (eeprom st1))%nat as Hlen1 by (by rewrite E1).
  destruct (save_image (cfg (conf st1)) (eeprom st1) Hlen1) as (L2 & M2 & H2).
  assert (eeprom st2 = for_upto NUM_BANKS (fun b =>
              for_upto NUM_SW (fun s e =>
                eepromWriteSlot b s (gget (cfg (conf st1)) b s) e))
              (EEPROM_put32 EEPROM_MAGIC_ADDR EEPROM_MAGIC (eeprom st1))) as E2.
  { unfold st2. rewrite processSerialLine_SAVE. reflexivity. }
  rewrite <- E2 in L2, M2, H2.
  assert (forall b s, (b < NUM_BANKS)%nat -> (s < NUM_SW)%nat ->
            eepromReadSlot b s (eeprom st2) = gget (cfg (conf st1)) b s) as Hrd.
  { intros b s Hb Hs. apply read_back; [by apply H2|by apply Hst]. }
  destruct (setup_load pins ms (eeprom st2) M2) as (E3 & W3 & G3).
  fold st3 in E3, W3, G3.
  assert (EEPROM_get32 EEPROM_MAGIC_ADDR (eeprom st3) = EEPROM_MAGIC) as M3
    by (by rewrite E3).
  destruct (load_grid st3 W3 M3) as (g4 & Hl4 & W4 & G4).
  assert (cfg (conf st4) = g4) as E4.
  { unfold st4. rewrite processSerialLine_LOAD, Hl4. reflexivity. }
  assert (cfg (conf st4) = cfg (conf st1)) as Hcfg.
  { rewrite E4. apply grid_ext; [done|done|].
    intros b s Hb Hs. rewrite G4, E3 by done. by apply Hrd. }
  split; [done|]. split.
  { unfold dumped. rewrite !processSerialLine_DUMP. cbn [snd].
    by apply dumpConfig_cfg. }
  intros pre l post b s Hsplit Ht Hpost toks slot.
  destruct (setTarget_range l b s Ht) as [Hb Hs].
  assert (gget (cfg (conf st4)) b s = slot) as Hslot.
  { rewrite Hcfg. unfold st1. rewrite Hsplit. rewrite Hsplit in Hsets.
    by apply sets_last. }
  split; [done|].
  unfold dumped. rewrite processSerialLine_DUMP. cbn [snd].
  rewrite dumpConfig_line by done. by rewrite Hslot.
Qed.

End Sketch.

(** * The sketch at work on concrete inputs *)

Ltac crunch := vm_compute; repeat split; first [reflexivity | done | lia].

(** C1: the decoded slot keeps a number, a press value and a release value
    above 127.  The image has a matching marker and its first slot record
    holds number 200, press value 255 and release value 130;
    [loadAllFromEEPROM] succeeds and the slot of bank 1, switch 1 holds
    exactly these values, where a SET would have stored at most 127. *)
Theorem C1_load_keeps_values_above_127 :
  let '(st, ok, out) := loadAllFromEEPROM (boot oddImage) in
  ok = true /\
  gget (cfg (conf st)) 0 0
  = mkSlot ["A"; "B"; "C"; "D"; NUL]%char ACT_CC 1 200 255 130.
Proof. vm_compute. split; reflexivity. Qed.

(** C5: LOAD leaves the toggle bit of a reloaded slot set.  A toggle slot
    is set and saved, pressed once (sending its press value 100), released
    and reloaded by LOAD; the next press finds the toggle bit still set and
    sends 0, not the press value. *)
Theorem C5_load_keeps_toggle_bit :
  let st := fst (run atoi_c togglePolls started) in
  dispatches (snd (run atoi_c togglePolls started)) = [(0%nat, true); (0%nat, false)] /\
  In (Out (SerialLine "OK,LOADED")) (snd (run atoi_c togglePolls started)) /\
  gget (togState (conf st)) 0 0 = true /\
  snd (loop atoi_c togglePoll st) = [Dispatch 0 true [MidiCC 1 7 0]].
Proof. vm_compute. split_and!; try reflexivity. do 5 right. left. reflexivity. Qed.

(** C8: the tail of an over-long line is run as a command.  The line has
    224 characters, the last four being SAVE; the pass answers
    [ERR,LINE_TOO_LONG] and then [OK,SAVED], and the EEPROM now holds the
    marker it did not hold before. *)
Theorem C8_tail_of_long_line_is_run :
  let r := loop atoi_c (mkPoll longLine idle 0) started in
  length longLine = 225%nat /\
  snd r = [Out (SerialLine "ERR,LINE_TOO_LONG"); Out (SerialLine "OK,SAVED")] /\
  EEPROM_get32 EEPROM_MAGIC_ADDR (eeprom started) <> EEPROM_MAGIC /\
  EEPROM_get32 EEPROM_MAGIC_ADDR (eeprom (fst r)) = EEPROM_MAGIC.
Proof. crunch. Qed.

(** Witness of C3: nothing is stored in a blank EEPROM. *)
Lemma C3_witness :
  EEPROM_get32 EEPROM_MAGIC_ADDR (eeprom started) <> EEPROM_MAGIC /\
  processSerialLine atoi_c (str "LOAD") started
  = (started, [SerialLine "ERR,NO_EEPROM_CONFIG"]).
Proof.
  assert (EEPROM_get32 EEPROM_MAGIC_ADDR (eeprom started) <> EEPROM_MAGIC) as H
    by (vm_compute; discriminate).
  split; [exact H|].
  exact (proj1 (proj2 (C3_load_rejects_bad_marker atoi_c started H))).
Defined.

(** Witness of C9: a SET line with two tokens. *)
Lemma C9_witness :
  let r := processSerialLine atoi_c (str "SET,1,1") started in
  streq (take 4 (str "SET,1,1")) "SET," = true /\
  (conf (fst r) = conf started /\ sw (fst r) = sw started /\
   eeprom (fst r) = eeprom started /\ lineLen (fst r) = lineLen started) /\
  snd r = [SerialLine "ERR,BAD_SET_FORMAT"].
Proof.
  intros r.
  assert (streq (take 4 (str "SET,1,1")) "SET," = true) as H by reflexivity.
  split; [exact H|].
  apply (proj1 (C9_set_validation atoi_c (str "SET,1,1") started H)).
  vm_compute. lia.
Defined.

(** Counterexample to C9 as stated: a SET line with nine tokens after the
    keyword is accepted and rewrites the slot. *)
Lemma C9_counterexample :
  let l := str "SET,1,1,ABCD,1,1,7,100,0,EXTRA" in
  let r := processSerialLine atoi_c l started in
  length (tokens l) = 9%nat /\
  last (snd r) = Some (SerialLine "OK,SET") /\
  gget (cfg (conf (fst r))) 0 0 = mkSlot ["A"; "B"; "C"; "D"; NUL]%char 1 1 7 100 0 /\
  gget (cfg (conf started)) 0 0 = mkSlot ["-"; "-"; "-"; "-"; NUL]%char 0 1 0 127 0.
Proof. crunch. Qed.

(** Witness of C2: twenty-four ordinary SET lines; the first line of the
    dump after the restart carries the fields of the first SET line. *)
Lemma C2_witness :
  let sets := allSets (str "VOL_") in
  let st1 := fst (emit_fold (processSerialLine atoi_c) sets started) in
  let st2 := fst (processSerialLine atoi_c (str "SAVE") st1) in
  let st3 := fst (setup idle (replicate 6 0) (boot (eeprom st2))) in
  let st4 := fst (processSerialLine atoi_c (str "LOAD") st3) in
  let dumped := snd (processSerialLine atoi_c (str "DUMP") st4) in
  let toks := tokens (setLine (str "VOL_") 0 0) in
  let slot := setSlot atoi_c (toks !!! 2%nat) (toks !!! 3%nat) (toks !!! 4%nat)
                      (toks !!! 5%nat) (toks !!! 6%nat) (toks !!! 7%nat) in
  (wf_grid (cfg (conf started)) /\ (220 <= length (eeprom started))%nat /\
   setsChecked atoi_c sets = true /\ setsCover atoi_c sets = true /\
   noErased (cfg (conf st1)) = true) /\
  cfg (conf st4) = cfg (conf st1) /\
  dumped = snd (processSerialLine atoi_c (str "DUMP") st1) /\
  dumpLine 0 0 slot = "SET,1,1,VOL ,1,2,7,100,0"%string /\
  dumped !! 0%nat = Some (SerialLine (dumpLine 0 0 slot)).
Proof.
  intros sets st1 st2 st3 st4 dumped toks slot.
  assert (wf_grid (cfg (conf started))) as Hwf
    by (split; [vm_compute; reflexivity | vm_compute; repeat constructor]).
  assert (220 <= length (eeprom started))%nat as Hlen by (vm_compute; lia).
  assert (setsChecked atoi_c sets = true) as Hchk by (vm_compute; reflexivity).
  assert (setsCover atoi_c sets = true) as Hcov by (vm_compute; reflexivity).
  assert (noErased (cfg (conf st1)) = true) as Hne by (vm_compute; reflexivity).
  destruct (C2_set_save_load_dump atoi_c sets started idle (replicate 6 0)
              Hwf Hlen (proj1 (setsChecked_sound atoi_c sets Hchk))
              (proj2 (setsChecked_sound atoi_c sets Hchk))
              (setsCover_sound atoi_c sets Hcov)
              (noErased_sound (cfg (conf st1)) Hne)) as (Hcfg & Hdump & Hlines).
  split; [exact (conj Hwf (conj Hlen (conj Hchk (conj Hcov Hne))))|].
  split; [exact Hcfg|]. split; [exact Hdump|].
  split; [vm_compute; reflexivity|].
  apply (Hlines [] (setLine (str "VOL_") 0 0) (tail sets) 0%nat 0%nat).
  - vm_compute; reflexivity.
  - vm_compute; reflexivity.
  - repeat constructor; vm_compute; discriminate.
Defined.

(** Counterexample to C2 as stated: the label of the first SET line starts
    with the byte 0xFF.  All twenty-four lines are accepted and target all
    slots, yet after SAVE, restart and LOAD the first label starts with a
    space, and the first line of DUMP differs from the one printed before
    the restart. *)
Lemma C2_counterexample :
  let sets := allSets [char_of_byte 255; "A"; "B"; "C"]%char in
  let st1 := fst (emit_fold (processSerialLine atoi_c) sets started) in
  let st2 := fst (processSerialLine atoi_c (str "SAVE") st1) in
  let st3 := fst (setup idle (replicate 6 0) (boot (eeprom st2))) in
  let st4 := fst (processSerialLine atoi_c (str "LOAD") st3) in
  setsChecked atoi_c sets = true /\ setsCover atoi_c sets = true /\
  label (gget (cfg (conf st1)) 0 0) = [char_of_byte 255; "A"; "B"; "C"; NUL]%char /\
  label (gget (cfg (conf st4)) 0 0) = [" "; "A"; "B"; "C"; NUL]%char /\
  hd_error (snd (processSerialLine atoi_c (str "DUMP") st1))
  = Some (SerialLine ("SET,1,1," +:+ String (char_of_byte 255) "ABC,1,2,7,100,0")) /\
  hd_error (snd (processSerialLine atoi_c (str "DUMP") st4))
  = Some (SerialLine "SET,1,1, ABC,1,2,7,100,0").
Proof. vm_compute. split_and!; reflexivity. Qed.

(** Witness of C10: the chord of switches 3 and 4 fires while the press of
    switch 3 is already committed; letting switch 3 go afterwards
    dispatches nothing. *)
Lemma C10_witness :
  let st := fst (run atoi_c chordPolls started) in
  let st1 := fst (loop atoi_c chordPoll st) in
  (wf_sw (sw st) /\
   (0 < chordDowns (snd (loop atoi_c chordPoll st))
        + chordUps (snd (loop atoi_c chordPoll st)))%nat) /\
  sentPress (sw st) !!! 3%nat = true /\
  sentPress (sw st1) !!! 3%nat = false /\
  stableState (sw (fst (run atoi_c afterChordPolls st1))) !!! 3%nat = false /\
  dispatchesOf 3 (snd (run atoi_c afterChordPolls st1)) = [].
Proof.
  intros st st1.
  assert (wf_sw (sw st)) as Hwf by (vm_compute; repeat split).
  assert (0 < chordDowns (snd (loop atoi_c chordPoll st))
              + chordUps (snd (loop atoi_c chordPoll st)))%nat as Hfire
    by (vm_compute; lia).
  destruct (C10_chord_discards_bookkeeping atoi_c chordPoll st Hwf Hfire)
    as [Hclear Hquiet].
  split_and!; [exact Hwf | exact Hfire | vm_compute; reflexivity
              | exact (proj2 (Hclear 3%nat eq_refl)) | vm_compute; reflexivity |].
  apply (Hquiet 3%nat afterChordPolls eq_refl).
  unfold afterChordPolls. rewrite !passes_cons. cbn [passes].
  repeat constructor; cbn [before after]; vm_compute; intros [? ?]; discriminate.
Defined.



(** Witness of C6: switch 3 tapped, and switch 3 held past the window. *)
Lemma C6_witness :
  let st := fst (run atoi_c pressSeen started) in
  let st1 := fst (loop atoi_c pressPoll st) in
  (isArb 3 = true /\ wf_sw (sw st) /\ flagsSound 3 (sw st) = true /\
   stableState (sw st) !!! 3%nat = false /\
   stableState (sw st1) !!! 3%nat = true /\
   chord45 (sw st1) || chord56 (sw st1) = false) /\
  (exists pre post,
     dispatches (snd (run atoi_c (pressPoll :: tapMid ++ [tapRelease]) st))
       = pre ++ [(3%nat, true); (3%nat, false)] ++ post /\
     Forall (fun d => fst d <> 3%nat) (pre ++ post)) /\
  dispatchesOf 3 (snd (run atoi_c (pressPoll :: holdMid) st)) = [] /\
  dispatchesOf 3 (snd (loop atoi_c commitPoll (fst (run atoi_c holdMid st1))))
    = [true] /\
  dispatchesOf 3 (snd (run atoi_c heldOn
       (fst (loop atoi_c commitPoll (fst (run atoi_c holdMid st1)))))) = [] /\
  dispatchesOf 3 (snd (loop atoi_c lateRelease
       (fst (run atoi_c heldOn
          (fst (loop atoi_c commitPoll (fst (run atoi_c holdMid st1))))))))
    = [false].
Proof.
  intros st st1.
  assert (isArb 3 = true) as H1 by reflexivity.
  assert (wf_sw (sw st)) as H2 by (vm_compute; repeat split).
  assert (flagsSound 3 (sw st) = true) as H3 by (vm_compute; reflexivity).
  assert (stableState (sw st) !!! 3%nat = false) as H4 by (vm_compute; reflexivity).
  assert (stableState (sw st1) !!! 3%nat = true) as H5 by (vm_compute; reflexivity).
  assert (chord45 (sw st1) || chord56 (sw st1) = false) as H6
    by (vm_compute; reflexivity).
  destruct (C6_tap_or_commit atoi_c 3%nat pressPoll st H1 H2 H3 H4 H5 H6)
    as [Htap Hcommit].
  split; [by split_and!|]. split.
  - apply Htap; [|vm_compute; reflexivity].
    unfold tapMid. rewrite !passes_cons. cbn [passes].
    repeat constructor; cbn [before after poll]; vm_compute; reflexivity.
  - apply Hcommit.
    + unfold holdMid. rewrite !passes_cons. cbn [passes].
      repeat constructor; cbn [before after poll]; vm_compute; reflexivity.
    + vm_compute; reflexivity.
    + vm_compute; reflexivity.
    + vm_compute. discriminate.
    + unfold heldOn. rewrite !passes_cons. cbn [passes].
      repeat constructor; cbn [before after poll]; vm_compute; reflexivity.
    + vm_compute; reflexivity.
Defined.



(** * The further properties at work on concrete inputs *)

(** Witness of X1: the records of the first two switches of bank 1. *)
Lemma X1_witness :
  ((0 < NUM_BANKS)%nat /\ (0 < NUM_SW)%nat /\ (1 < NUM_SW)%nat) /\
  slotAddr 0 0 = 4 /\ slotAddr 0 1 = 13 /\
  (slotAddr 0 0 + 9 <= slotAddr 0 1 \/ slotAddr 0 1 + 9 <= slotAddr 0 0).
Proof.
  assert (0 < NUM_BANKS)%nat as Hb by (unfold NUM_BANKS; lia).
  assert (0 < NUM_SW)%nat as Hs0 by (unfold NUM_SW; lia).
  assert (1 < NUM_SW)%nat as Hs1 by (unfold NUM_SW; lia).
  destruct (X1_slot_records_do_not_overlap 0 0 0 1 Hb Hs0 Hb Hs1) as (A0 & _ & _ & Hd).
  split; [exact (conj Hb (conj Hs0 Hs1))|]. split; [exact A0|].
  split; [vm_compute; reflexivity|]. apply Hd. intros [=].
Defined.

(** Witness of X2: SAVE on the blank EEPROM of 1024 cells. *)
Lemma X2_witness :
  (220 <= length (eeprom started))%nat /\
  length (eeprom (fst (saveAllToEEPROM started))) = 1024%nat /\
  drop 220 (eeprom (fst (saveAllToEEPROM started))) = replicate 804 255.
Proof.
  assert (220 <= length (eeprom started))%nat as H by (vm_compute; lia).
  destruct (X2_save_keeps_to_its_cells started H) as (Hl & Hd & _).
  split; [exact H|]. split; [rewrite Hl|rewrite Hd]; vm_compute; reflexivity.
Defined.

(** Witness of X3: the default configuration saved and loaded into a state
    that holds another one. *)
Lemma X3_witness :
  let st2 := fst (processSerialLine atoi_c (str "SET,1,1,VOL_,1,2,7,100,0")
                    (fst (saveAllToEEPROM started))) in
  (wf_grid (cfg (conf started)) /\ (220 <= length (eeprom started))%nat /\
   (forall b s, (b < NUM_BANKS)%nat -> (s < NUM_SW)%nat ->
                storable (gget (cfg (conf started)) b s)) /\
   wf_grid (cfg (conf st2)) /\
   eeprom st2 = eeprom (fst (saveAllToEEPROM started))) /\
  cfg (conf st2) <> cfg (conf started) /\
  cfg (conf (fst (fst (loadAllFromEEPROM st2)))) = cfg (conf started).
Proof.
  intros st2.
  assert (wf_grid (cfg (conf started))) as Hwf
    by (split; [vm_compute; reflexivity | vm_compute; repeat constructor]).
  assert (220 <= length (eeprom started))%nat as Hlen by (vm_compute; lia).
  assert (forall b s, (b < NUM_BANKS)%nat -> (s < NUM_SW)%nat ->
                      storable (gget (cfg (conf started)) b s)) as Hst.
  { intros b s Hb Hs. unfold NUM_BANKS, NUM_SW in *.
    destruct b as [|[|[|[|b]]]]; [| | | |lia];
      destruct s as [|[|[|[|[|[|s]]]]]]; try lia;
      (match goal with |- storable ?x => set (slot := x) end;
       vm_compute in slot; subst slot; unfold storable, ACT_CC_ONE_SHOT;
       cbn [label type ch num vPress vRelease];
       split_and!; try lia;
       eexists _, _, _, _; (split; [reflexivity|]);
       repeat constructor; vm_compute; discriminate). }
  assert (wf_grid (cfg (conf st2))) as Hwf2
    by (split; [vm_compute; reflexivity | vm_compute; repeat constructor]).
  assert (eeprom st2 = eeprom (fst (saveAllToEEPROM started))) as He
    by (vm_compute; reflexivity).
  split; [exact (conj Hwf (conj Hlen (conj Hst (conj Hwf2 He))))|]. split; [vm_compute; discriminate|].
  exact (proj2 (X3_save_then_load_restores_grid started st2 Hwf Hlen Hst Hwf2 He)).
Defined.

(** Witness of X4: the image whose first record holds 200, 255 and 130. *)
Lemma X4_witness :
  let st := with_eeprom oddImage started in
  (byteImage (eeprom st) /\ wf_grid (cfg (conf st)) /\
   EEPROM_get32 EEPROM_MAGIC_ADDR (eeprom st) = EEPROM_MAGIC) /\
  storable (gget (cfg (conf (fst (fst (loadAllFromEEPROM st))))) 0 0) /\
  num (gget (cfg (conf (fst (fst (loadAllFromEEPROM st))))) 0 0) = 200.
Proof.
  intros st.
  assert (byteImage (eeprom st)) as Hb.
  { change (eeprom st) with oddImage. unfold byteImage, oddImage.
    apply Forall_app. split; [repeat constructor; lia|].
    apply Forall_app. split; [repeat constructor; lia|].
    apply Forall_replicate. lia. }
  assert (wf_grid (cfg (conf st))) as Hwf
    by (split; [vm_compute; reflexivity | vm_compute; repeat constructor]).
  assert (EEPROM_get32 EEPROM_MAGIC_ADDR (eeprom st) = EEPROM_MAGIC) as Hm
    by (vm_compute; reflexivity).
  split; [exact (conj Hb (conj Hwf Hm))|]. split; [|vm_compute; reflexivity].
  apply (proj1 (X4_load_sanitizes_every_slot st Hb Hwf Hm));
    [unfold NUM_BANKS|unfold NUM_SW]; lia.
Defined.

(** Witness of X5: the bank moves from bank 1. *)
Lemma X5_witness :
  1 <= currentBank (conf started) <= 4 /\
  currentBank (fst (doBankDown (conf started))) = 4 /\
  currentBank (fst (doBankUp (fst (doBankDown (conf started)))))
  = currentBank (conf started).
Proof.
  assert (1 <= currentBank (conf started) <= 4) as H
    by (vm_compute; split; discriminate).
  split; [exact H|]. split; [vm_compute; reflexivity|].
  exact (proj1 (proj2 (proj2 (proj2 (X5_bank_moves_cycle (conf started) H))))).
Defined.

(** Witness of X6: the release of a switch with no action. *)
Lemma X6_witness :
  type (activeSlot 0 (conf started)) <> ACT_CC /\
  handleSwitchEvent 0 false (conf started) = (conf started, []).
Proof.
  assert (type (activeSlot 0 (conf started)) <> ACT_CC) as H
    by (vm_compute; discriminate).
  split; [exact H|]. exact (X6_release_acts_only_for_control_change 0 (conf started) H).
Defined.

(** Witness of X7: the press of a switch set to a control change. *)
Lemma X7_witness :
  let c := conf (fst (processSerialLine atoi_c (str "SET,1,1,VOL_,1,2,7,100,0")
                        started)) in
  (1 <= ch (activeSlot 0 c) <= 16 /\ 0 <= num (activeSlot 0 c) <= 127 /\
   0 <= vPress (activeSlot 0 c) <= 127 /\ 0 <= vRelease (activeSlot 0 c) <= 127) /\
  snd (handleSwitchEvent 0 true c) = [MidiCC 2 7 100] /\
  Forall midiSafe (snd (handleSwitchEvent 0 true c)).
Proof.
  intros c.
  assert (1 <= ch (activeSlot 0 c) <= 16) as H1 by (vm_compute; split; discriminate).
  assert (0 <= num (activeSlot 0 c) <= 127) as H2 by (vm_compute; split; discriminate).
  assert (0 <= vPress (activeSlot 0 c) <= 127) as H3 by (vm_compute; split; discriminate).
  assert (0 <= vRelease (activeSlot 0 c) <= 127) as H4 by (vm_compute; split; discriminate).
  split; [exact (conj H1 (conj H2 (conj H3 H4)))|]. split; [vm_compute; reflexivity|].
  exact (proj2 (X7_executor_sends_valid_midi 0 true c H1 H2 H3 H4)).
Defined.

(** Witness of X8: two presses of a switch set to a toggle. *)
Lemma X8_witness :
  let c := conf (fst (processSerialLine atoi_c (str "SET,1,1,TOG_,5,2,7,100,0")
                        started)) in
  ((0 < NUM_SW)%nat /\ 1 <= currentBank c <= 4 /\ wf_grid (togState c) /\
   type (activeSlot 0 c) = ACT_CC_TOGGLE /\
   gget (togState c) (Z.to_nat (u8 (currentBank c - 1))) 0 = false) /\
  snd (handleSwitchEvent 0 true c) = [MidiCC 2 7 100] /\
  snd (handleSwitchEvent 0 true
         (fst (handleSwitchEvent 0 false (fst (handleSwitchEvent 0 true c)))))
  = [MidiCC (ch (activeSlot 0 c)) (num (activeSlot 0 c)) 0].
Proof.
  intros c.
  assert (0 < NUM_SW)%nat as Hi by (unfold NUM_SW; lia).
  assert (1 <= currentBank c <= 4) as Hb by (vm_compute; split; discriminate).
  assert (wf_grid (togState c)) as Hwf
    by (split; [vm_compute; reflexivity | vm_compute; repeat constructor]).
  assert (type (activeSlot 0 c) = ACT_CC_TOGGLE) as Ht by (vm_compute; reflexivity).
  assert (gget (togState c) (Z.to_nat (u8 (currentBank c - 1))) 0 = false) as Hbit
    by (vm_compute; reflexivity).
  split; [exact (conj Hi (conj Hb (conj Hwf (conj Ht Hbit))))|]. split; [vm_compute; reflexivity|].
  exact (proj1 (proj2 (proj2 (X8_toggle_alternates 0 c Hi Hb Hwf Ht Hbit)))).
Defined.

(** Witness of X9: a SET line whose numbers are out of range. *)
Lemma X9_witness :
  let l := str "SET,2,3,AB_D,9,40,300,-5,128" in
  let r := processSerialLine atoi_c l started in
  (streq (take 4 l) "SET," = true /\ (NUL ∉ l) /\
   setTarget atoi_c l = Some (1%nat, 2%nat) /\
   wf_grid (cfg (conf started)) /\ wf_grid (togState (conf started))) /\
  gget (cfg (conf (fst r))) 1 2 = mkSlot ["A"; "B"; " "; "D"; NUL]%char 0 16 127 0 127 /\
  setShaped (gget (cfg (conf (fst r))) 1 2).
Proof.
  intros l r.
  assert (streq (take 4 l) "SET," = true) as Hs by reflexivity.
  assert (NUL ∉ l) as Hn by (apply nulFree_sound; vm_compute; reflexivity).
  assert (setTarget atoi_c l = Some (1%nat, 2%nat)) as Ht by (vm_compute; reflexivity).
  assert (wf_grid (cfg (conf started))) as Hc
    by (split; [vm_compute; reflexivity | vm_compute; repeat constructor]).
  assert (wf_grid (togState (conf started))) as Hg
    by (split; [vm_compute; reflexivity | vm_compute; repeat constructor]).
  split; [exact (conj Hs (conj Hn (conj Ht (conj Hc Hg))))|]. split; [vm_compute; reflexivity|].
  exact (proj1 (X9_set_writes_one_clamped_slot atoi_c l started 1 2 Hs Hn Ht Hc Hg)).
Defined.

(** Witness of X14: from the blank EEPROM, after a SET with numbers out of
    range and a SAVE. *)
Lemma X14_witness :
  let ps := [mkPoll (line "SET,1,1,VOL_,1,99,300,100,0" ++ line "SAVE") idle 10] in
  byteImage blankImage /\
  byteImage (eeprom (reached atoi_c idle (replicate 6 0) blankImage ps)) /\
  slotOk (gget (cfg (conf (reached atoi_c idle (replicate 6 0) blankImage ps))) 0 0) /\
  ch (gget (cfg (conf (reached atoi_c idle (replicate 6 0) blankImage ps))) 0 0) = 16.
Proof.
  intros ps.
  assert (byteImage blankImage) as Hb by (apply Forall_replicate; lia).
  destruct (X14_reachable_slots_are_well_formed atoi_c idle (replicate 6 0)
              blankImage ps Hb) as (He & Hs & _).
  split; [exact Hb|]. split; [exact He|].
  split; [|vm_compute; reflexivity].
  apply Hs; [unfold NUM_BANKS|unfold NUM_SW]; lia.
Defined.

(** Witness of X16: DUMP with a carriage return before the newline. *)
Lemma X16_witness :
  let l := str "DUMP" ++ ["013"%char] in
  (lineLen started = 0%nat /\ length (lineBuf started) = LINEBUF_SIZE /\
   (length l < LINEBUF_SIZE)%nat /\ (NUL ∉ l) /\ ("010"%char ∉ l)) /\
  stripCR l = str "DUMP" /\
  snd (emit_fold (serialChar atoi_c) (l ++ ["010"%char]) started)
  = map Out (snd (processSerialLine atoi_c (stripCR l) started)).
Proof.
  intros l.
  assert (lineLen started = 0%nat) as H1 by (vm_compute; reflexivity).
  assert (length (lineBuf started) = LINEBUF_SIZE) as H2 by (vm_compute; reflexivity).
  assert (length l < LINEBUF_SIZE)%nat as H3 by (vm_compute; lia).
  assert (NUL ∉ l) as H4 by (apply nulFree_sound; vm_compute; reflexivity).
  assert ("010"%char ∉ l) as H5.
  { intros H. repeat (apply elem_of_cons in H as [H|H]; [discriminate|]).
    by apply elem_of_nil in H. }
  split; [exact (conj H1 (conj H2 (conj H3 (conj H4 H5))))|]. split; [vm_compute; reflexivity|].
  apply (X16_reader_delivers_the_line atoi_c l started H1 H2 H3 H4 H5).
Defined.

(** Witness of X19: the pass that debounces the press of switch 1, with
    and without a SET and a SAVE arriving, from states that differ in the
    EEPROM. *)
Lemma X19_witness :
  let pressed := [true; false; false; false; false; false] in
  let st := fst (loop atoi_c (mkPoll [] pressed 10) started) in
  let st' := with_eeprom oddImage st in
  let busy := line "SET,1,1,VOL_,1,2,7,100,0" ++ line "SAVE" in
  (wf_sw (sw st) /\ sw st' = sw st) /\
  sw (fst (loop atoi_c (mkPoll busy pressed 50) st))
  = sw (fst (loop atoi_c (mkPoll [] pressed 50) st')) /\
  dispatches (snd (loop atoi_c (mkPoll busy pressed 50) st)) = [(0%nat, true)].
Proof.
  intros pressed st st' busy.
  assert (wf_sw (sw st)) as Hwf by (vm_compute; repeat split).
  assert (sw st' = sw st) as Hsw by reflexivity.
  split; [exact (conj Hwf Hsw)|]. split; [|vm_compute; reflexivity].
  exact (proj1 (X19_switch_side_ignores_serial_and_configuration atoi_c busy []
                  pressed 50 st st' Hwf Hsw)).
Defined.

(** * Feeding a dump back to the sketch *)















